(** * Raw modal session protocol of RPGClub_GameDB

    A shallow embedding of the TypeScript sources under
    [src/services/raw-modal/] (custom id codec, feature flag, session store,
    submit validation, API service and interaction router) and of the
    session ids and pages of the nominate and round-history commands, with
    the properties of the protocol stated and proved, or refuted, on it.

    Conventions.
    - A JavaScript string is a [string]; every [ascii] stands for one UTF-16
      code unit in the range 0..255 (the wire identifier is ASCII).
    - A [Date] is its [getTime()] value, a [Z] number of milliseconds.
    - The table RPG_CLUB_RAW_MODAL_SESSIONS has SESSION_ID as primary key and
      is a finite map from session ids to rows.
    - A function that can [throw] returns a [Result]. *)

From stdpp Require Import gmap strings list pretty.
From Stdlib Require Import ZArith Ascii.

Local Open Scope Z_scope.

(** ** JavaScript string and number primitives used by the sources *)

Module Js.

(** [s.split(sep)] for a one-character separator: never empty, [""] splits
    into [[""]]. *)
Fixpoint split (sep : ascii) (s : string) : list string :=
  match s with
  | EmptyString => [EmptyString]
  | String c rest =>
      if Ascii.eqb c sep then EmptyString :: split sep rest
      else match split sep rest with
           | seg :: segs => String c seg :: segs
           | [] => [String c EmptyString]
           end
  end.

(** [parts.join(sep)]. *)
Fixpoint join (sep : string) (parts : list string) : string :=
  match parts with
  | [] => EmptyString
  | [p] => p
  | p :: rest => p +:+ sep +:+ join sep rest
  end.

(** [list.includes(value)] on an array of strings. *)
Definition includes (l : list string) (value : string) : bool :=
  bool_decide (value ∈ l).

(** Truthiness of a possibly [undefined] string: [!x] is [negb (truthy x)]. *)
Definition truthy (x : option string) : bool :=
  match x with
  | Some s => negb (String.eqb s EmptyString)
  | None => false
  end.

Definition startsWith (s p : string) : bool := String.prefix p s.

(** [s.slice(1)]. *)
Definition slice1 (s : string) : string :=
  match s with
  | EmptyString => EmptyString
  | String _ rest => rest
  end.

Definition code (c : ascii) : nat := nat_of_ascii c.

(** White space of [trim] and of [parseInt] among the code units 0..255:
    TAB, LF, VT, FF, CR, SP and NBSP. *)
Definition isWhiteSpace (c : ascii) : bool :=
  let n := code c in
  ((9 <=? n) && (n <=? 13) || (n =? 32) || (n =? 160))%nat.

Fixpoint trimStart (s : string) : string :=
  match s with
  | EmptyString => EmptyString
  | String c rest => if isWhiteSpace c then trimStart rest else s
  end.

Fixpoint trimEnd (s : string) : string :=
  match s with
  | EmptyString => EmptyString
  | String c rest =>
      match trimEnd rest with
      | EmptyString => if isWhiteSpace c then EmptyString else String c EmptyString
      | rest' => String c rest'
      end
  end.

Definition trim (s : string) : string := trimEnd (trimStart s).

(** [toLowerCase] on the code units 0..255: A-Z and the Latin-1 capitals. *)
Definition lowerChar (c : ascii) : ascii :=
  let n := code c in
  if ((65 <=? n) && (n <=? 90)
      || (192 <=? n) && (n <=? 222) && negb (n =? 215))%nat
  then ascii_of_nat (n + 32) else c.

Fixpoint toLowerCase (s : string) : string :=
  match s with
  | EmptyString => EmptyString
  | String c rest => String (lowerChar c) (toLowerCase rest)
  end.

Definition digitValue (c : ascii) : option Z :=
  let n := code c in
  if ((48 <=? n) && (n <=? 57))%nat then Some (Z.of_nat n - 48) else None.

(** The longest prefix of decimal digits, read as a number; [None] when
    there is no digit at all. *)
Fixpoint readDigits (s : string) (acc : Z) (seen : bool) : option Z :=
  match s with
  | EmptyString => if seen then Some acc else None
  | String c rest =>
      match digitValue c with
      | Some d => readDigits rest (10 * acc + d) true
      | None => if seen then Some acc else None
      end
  end.

(** [Number.parseInt(s, 10)]: leading white space is skipped, one sign is
    read, then the longest run of digits; what follows the digits is
    ignored. [None] is NaN. The result is the integer the digits denote; the
    JavaScript number is the double nearest to it (the same integer below
    2^53). *)
Definition parseInt10 (s : string) : option Z :=
  match trimStart s with
  | String "-" rest => Z.opp <$> readDigits rest 0 false
  | String "+" rest => readDigits rest 0 false
  | t => readDigits t 0 false
  end.

(** Integers from this magnitude on round to an infinite double. *)
Definition DOUBLE_OVERFLOW : Z := 2 ^ 1024 - 2 ^ 970.

(** [Number.isFinite] on the result of [parseInt10]. *)
Definition isFinite (n : option Z) : bool :=
  match n with
  | Some z => Z.abs z <? DOUBLE_OVERFLOW
  | None => false
  end.

End Js.

(** The outcome of a function that may [throw new Error(message)]. *)
Inductive Result (A : Type) : Type :=
  | Ok (value : A)
  | Throw (message : string).
Arguments Ok {A} value.
Arguments Throw {A} message.

(** ** RawModalScope.ts *)

Module Scope.

Definition RAW_MODAL_CUSTOM_ID_PREFIX : string := "modal".
Definition RAW_MODAL_SCHEMA_VERSION : Z := 1.

Definition RAW_MODAL_SUPPORTED_FEATURES : list string :=
  ["todo"; "suggestion"; "nominate"; "round-history"].

Definition RAW_MODAL_TODO_PILOT_FLOWS : list string :=
  ["create"; "comment"; "edit-title"; "edit-description"; "query"].
Definition RAW_MODAL_SUGGESTION_PILOT_FLOWS : list string := ["review-decision"].
Definition RAW_MODAL_NOMINATE_FLOWS : list string := ["create"].
Definition RAW_MODAL_ROUND_HISTORY_FLOWS : list string := ["query"].

(** The values of the union type [RawModalFlow]. *)
Definition RawModalFlow : list string :=
  RAW_MODAL_TODO_PILOT_FLOWS ++ RAW_MODAL_SUGGESTION_PILOT_FLOWS
  ++ RAW_MODAL_NOMINATE_FLOWS ++ RAW_MODAL_ROUND_HISTORY_FLOWS.

Definition RAW_MODAL_PILOT_FEATURES : list string := ["todo"; "suggestion"].

End Scope.

(** ** RawModalCustomId.ts *)

Module CustomId.
Import Scope.

Definition MAX_DISCORD_CUSTOM_ID_LENGTH : nat := 100.

Record IRawModalCustomIdParts : Type := {
  feature : string;
  flow : string;
  sessionId : string;
}.

Record IRawModalParsedCustomId : Type := {
  parsed_feature : string;
  parsed_flow : string;
  parsed_sessionId : string;
  version : Z;
}.

Definition isSupportedFeature (value : string) : bool :=
  Js.includes RAW_MODAL_SUPPORTED_FEATURES value.

Definition isSupportedFlow (value : string) : bool :=
  Js.includes RAW_MODAL_TODO_PILOT_FLOWS value.

(** One character of the class [[A-Za-z0-9_-]]. *)
Definition isSessionIdChar (c : ascii) : bool :=
  let n := Js.code c in
  ((65 <=? n) && (n <=? 90) || (97 <=? n) && (n <=? 122)
   || (48 <=? n) && (n <=? 57) || (n =? 95) || (n =? 45))%nat.

Fixpoint allChars (p : ascii → bool) (s : string) : bool :=
  match s with
  | EmptyString => true
  | String c rest => p c && allChars p rest
  end.

(** [SESSION_ID_PATTERN.test(sessionId)] for [/^[A-Za-z0-9_-]{1,64}$/]. *)
Definition isSessionIdValid (sessionId : string) : bool :=
  ((1 <=? String.length sessionId) && (String.length sessionId <=? 64))%nat
  && allChars isSessionIdChar sessionId.

Definition buildRawModalCustomId (parts : IRawModalCustomIdParts) : Result string :=
  if negb (isSupportedFeature (feature parts)) then
    Throw ("Unsupported raw modal feature: " +:+ feature parts)
  else if negb (isSupportedFlow (flow parts)) then
    Throw ("Unsupported raw modal flow: " +:+ flow parts)
  else if negb (isSessionIdValid (sessionId parts)) then
    Throw "Raw modal sessionId contains unsupported characters."
  else
    let customId :=
      Js.join ":" [RAW_MODAL_CUSTOM_ID_PREFIX; feature parts;
                   "v" +:+ pretty RAW_MODAL_SCHEMA_VERSION;
                   flow parts; sessionId parts] in
    if (MAX_DISCORD_CUSTOM_ID_LENGTH <? String.length customId)%nat then
      Throw "Raw modal custom id length exceeds 100 characters."
    else Ok customId.

Definition parseRawModalCustomId (customId : string) : option IRawModalParsedCustomId :=
  match Js.split ":" customId with
  | prefix :: feature :: versionPart :: flow :: sessionId :: _ =>
      if negb (Js.truthy (Some prefix)) || negb (Js.truthy (Some feature))
         || negb (Js.truthy (Some versionPart)) || negb (Js.truthy (Some flow))
         || negb (Js.truthy (Some sessionId)) then None
      else if negb (String.eqb prefix RAW_MODAL_CUSTOM_ID_PREFIX) then None
      else if negb (isSupportedFeature feature) || negb (isSupportedFlow flow) then None
      else if negb (Js.startsWith versionPart "v") then None
      else if negb (isSessionIdValid sessionId) then None
      else
        let parsedVersion := Js.parseInt10 (Js.slice1 versionPart) in
        match parsedVersion with
        | Some v =>
            if negb (Js.isFinite parsedVersion) || (v <? 1) then None
            else Some {| parsed_feature := feature; parsed_flow := flow;
                         parsed_sessionId := sessionId; version := v |}
        | None => None
        end
  | _ => None
  end.

End CustomId.

(** ** RawModalFeatureFlag.ts *)

Module FeatureFlag.
Import Scope.

(** [process.env]: a variable that is not set reads as [undefined]. *)
Abbreviation Env := (gmap string string).

Definition RAW_IMPROVED_MODALS_ENV : string := "USE_RAW_IMPROVED_MODALS".
Definition RAW_MODAL_PILOT_GUILD_IDS_ENV : string := "RAW_MODAL_PILOT_GUILD_IDS".
Definition RAW_MODAL_ALL_GUILDS_TOKEN : string := "*".

Definition readBooleanEnv (env : Env) (name : string) : bool :=
  String.eqb (Js.toLowerCase (Js.trim (default EmptyString (env !! name)))) "true".

Definition parseGuildIdList (rawValue : string) : gset string :=
  list_to_set
    (filter (λ value : string, (0 < String.length value)%nat)
            (Js.trim <$> Js.split "," rawValue)).

Definition isRawImprovedModalsEnabled (env : Env) : bool :=
  readBooleanEnv env RAW_IMPROVED_MODALS_ENV.

Definition isRawModalPilotFeature (feature : string) : bool :=
  Js.includes RAW_MODAL_PILOT_FEATURES feature.

Definition isRawModalPilotEnabledForGuild (env : Env) (guildId : option string) : bool :=
  let configuredGuildIds :=
    parseGuildIdList (default EmptyString (env !! RAW_MODAL_PILOT_GUILD_IDS_ENV)) in
  if bool_decide (size configuredGuildIds = 0%nat) then false
  else if bool_decide (RAW_MODAL_ALL_GUILDS_TOKEN ∈ configuredGuildIds) then true
  else if negb (Js.truthy guildId) then false
  else match guildId with
       | Some g => bool_decide (g ∈ configuredGuildIds)
       | None => false
       end.

Definition isRawModalPilotEnabled (env : Env) (feature : string)
    (guildId : option string) : bool :=
  if negb (isRawImprovedModalsEnabled env) then false
  else if negb (isRawModalPilotFeature feature) then false
  else isRawModalPilotEnabledForGuild env guildId.

End FeatureFlag.

(** ** RawModalSession.ts *)

Module Session.

Inductive RawModalSessionStatus : Type := open | submitted | expired.

#[global] Instance RawModalSessionStatus_eq_dec : EqDecision RawModalSessionStatus.
Proof. solve_decision. Defined.

(** A row of RPG_CLUB_RAW_MODAL_SESSIONS without its key SESSION_ID, which is
    the key of the table. The STATUS column holds the upper-case spelling of
    the status ([toDbStatus], [fromDbStatus]). CREATED_AT and UPDATED_AT are
    filled in by the database and are not written by these sources; they are
    left out. *)
Record RawModalSessionRow : Type := {
  OWNER_USER_ID : string;
  FEATURE_ID : string;
  FLOW_ID : string;
  STATE_JSON : string;
  STATUS : RawModalSessionStatus;
  EXPIRES_AT : Z;
  GUILD_ID : option string;
  CHANNEL_ID : option string;
}.

Abbreviation Table := (gmap string RawModalSessionRow).

Record IRawModalSessionRecord : Type := {
  sessionId : string;
  feature : string;
  flow : string;
  ownerUserId : string;
  guildId : option string;
  channelId : option string;
  stateJson : string;
  status : RawModalSessionStatus;
  expiresAt : Z;
}.

Record IRawModalSessionCreateInput : Type := {
  create_sessionId : string;
  create_feature : string;
  create_flow : string;
  create_ownerUserId : string;
  create_guildId : option string;
  create_channelId : option string;
  create_stateJson : string;
  create_expiresAt : Z;
}.

Record IRawModalSessionUpdateInput : Type := {
  update_sessionId : string;
  update_status : RawModalSessionStatus;
}.

Definition RAW_MODAL_DEFAULT_TTL_MINUTES : Z := 15.

Definition mapRawModalSessionRow (key : string) (row : RawModalSessionRow)
    : IRawModalSessionRecord :=
  {| sessionId := key;
     feature := FEATURE_ID row;
     flow := FLOW_ID row;
     ownerUserId := OWNER_USER_ID row;
     guildId := GUILD_ID row;
     channelId := CHANNEL_ID row;
     stateJson := STATE_JSON row;
     status := STATUS row;
     expiresAt := EXPIRES_AT row |}.

Definition isRawModalSessionExpired (session : IRawModalSessionRecord) (now : Z) : bool :=
  expiresAt session <=? now.

(** The largest time value of a [Date], in milliseconds. *)
Definition MAX_TIME_VALUE : Z := 8640000000000000.

(** [new Date(ms)]: beyond the largest time value in magnitude the date is
    invalid, [None]. *)
Definition newDate (ms : Z) : option Z :=
  if Z.abs ms <=? MAX_TIME_VALUE then Some ms else None.

(** The time-to-live is a whole number of minutes, the clock a valid date.
    For a clock at or after the epoch the sum is the exact one whenever the
    date is valid. *)
Definition buildRawModalSessionExpiry (now ttlMinutes : Z) : option Z :=
  newDate (now + Z.max 1 ttlMinutes * 60 * 1000).

(** *** The SQL statements

    Every statement runs with [autoCommit]: it is one atomic step on the
    table. [rowsAffected] is the number of rows the WHERE clause selects. *)

Definition selected (where_ : string → RawModalSessionRow → bool) (t : Table) : Table :=
  filter (λ kr : string * RawModalSessionRow, Is_true (where_ kr.1 kr.2)) t.

(** [UPDATE ... SET ... WHERE ...]. *)
Definition sqlUpdate (set : RawModalSessionRow → RawModalSessionRow)
    (where_ : string → RawModalSessionRow → bool) (t : Table) : nat * Table :=
  (size (selected where_ t),
   map_imap (λ k r, Some (if where_ k r then set r else r)) t).

(** [DELETE FROM ... WHERE ...]. *)
Definition sqlDelete (where_ : string → RawModalSessionRow → bool) (t : Table)
    : nat * Table :=
  (size (selected where_ t),
   filter (λ kr : string * RawModalSessionRow, ¬ Is_true (where_ kr.1 kr.2)) t).

(** [INSERT INTO ... VALUES ...]; SESSION_ID is the primary key of the
    table, as its description states, and a second row with the same key is
    refused. *)
Definition sqlInsert (key : string) (row : RawModalSessionRow) (t : Table)
    : Result Table :=
  match t !! key with
  | Some _ => Throw "ORA-00001: unique constraint violated"
  | None => Ok (<[key := row]> t)
  end.

Definition setStatus (s : RawModalSessionStatus) (r : RawModalSessionRow)
    : RawModalSessionRow :=
  {| OWNER_USER_ID := OWNER_USER_ID r; FEATURE_ID := FEATURE_ID r;
     FLOW_ID := FLOW_ID r; STATE_JSON := STATE_JSON r; STATUS := s;
     EXPIRES_AT := EXPIRES_AT r; GUILD_ID := GUILD_ID r;
     CHANNEL_ID := CHANNEL_ID r |}.

Definition getRawModalSessionRecord (sessionId : string) (t : Table)
    : option IRawModalSessionRecord :=
  mapRawModalSessionRow sessionId <$> t !! sessionId.

Definition createRawModalSessionRecord (input : IRawModalSessionCreateInput)
    (t : Table) : Result IRawModalSessionRecord * Table :=
  let row :=
    {| OWNER_USER_ID := create_ownerUserId input;
       FEATURE_ID := create_feature input;
       FLOW_ID := create_flow input;
       STATE_JSON := create_stateJson input;
       STATUS := open;
       EXPIRES_AT := create_expiresAt input;
       GUILD_ID := create_guildId input;
       CHANNEL_ID := create_channelId input |} in
  match sqlInsert (create_sessionId input) row t with
  | Throw e => (Throw e, t)
  | Ok t' =>
      match getRawModalSessionRecord (create_sessionId input) t' with
      | Some saved => (Ok saved, t')
      | None => (Throw "Failed to create raw modal session.", t')
      end
  end.

Definition updateRawModalSessionStatus (input : IRawModalSessionUpdateInput)
    (t : Table) : bool * Table :=
  let '(rowsAffected, t') :=
    sqlUpdate (setStatus (update_status input))
              (λ k _, String.eqb k (update_sessionId input)) t in
  ((0 <? rowsAffected)%nat, t').

Definition claimRawModalSessionForSubmit (sessionId ownerUserId : string) (now : Z)
    (t : Table) : bool * Table :=
  let '(rowsAffected, t') :=
    sqlUpdate (setStatus submitted)
              (λ k r, String.eqb k sessionId
                      && String.eqb (OWNER_USER_ID r) ownerUserId
                      && bool_decide (STATUS r = open)
                      && (now <? EXPIRES_AT r)) t in
  ((0 <? rowsAffected)%nat, t').

Definition expireRawModalSession (sessionId : string) (t : Table) : bool * Table :=
  updateRawModalSessionStatus
    {| update_sessionId := sessionId; update_status := expired |} t.

Definition deleteExpiredRawModalSessions (cutoffDate : Z) (t : Table) : nat * Table :=
  sqlDelete (λ _ r, (EXPIRES_AT r <? cutoffDate)
                    && (bool_decide (STATUS r = open)
                        || bool_decide (STATUS r = expired))) t.

End Session.

(** ** Values and component types of the Discord payloads *)

Module Discord.

(** [ComponentType] of discord-api-types. *)
Inductive ComponentType : Type :=
  | ActionRow | Button | StringSelect | TextInput | UserSelect | RoleSelect
  | MentionableSelect | ChannelSelect | Section | TextDisplay | Thumbnail
  | MediaGallery | File | Separator | ContentInventoryEntry | Container
  | Label | FileUpload | RadioGroup | CheckboxGroup | Checkbox.

#[global] Instance ComponentType_eq_dec : EqDecision ComponentType.
Proof. solve_decision. Defined.

(** A JavaScript value that is not an array; numbers are integers below
    10^21 in magnitude, which print as their decimal digits, and an object
    is opaque. *)
Inductive JsPrim : Type :=
  | PUndefined
  | PNull
  | PBool (b : bool)
  | PNumber (n : Z)
  | PString (s : string)
  | PObject.

(** A value of type [unknown] as a payload field carries it. *)
Inductive JsValue : Type :=
  | JsPrimitive (p : JsPrim)
  | JsArray (items : list JsPrim).

Definition isString (p : JsPrim) : bool :=
  match p with PString _ => true | _ => false end.

(** [typeof value === "string" && value.length > 0]. *)
Definition isNonEmptyString (p : JsPrim) : bool :=
  match p with
  | PString s => (0 <? String.length s)%nat
  | _ => false
  end.

(** The property key a primitive is converted to in [object[key]]. *)
Definition toPropertyKey (p : JsPrim) : string :=
  match p with
  | PUndefined => "undefined"
  | PNull => "null"
  | PBool true => "true"
  | PBool false => "false"
  | PNumber n => pretty n
  | PString s => s
  | PObject => "[object Object]"
  end.

(** The properties every plain object inherits, all of them truthy. *)
Definition OBJECT_PROTOTYPE_KEYS : list string :=
  ["constructor"; "hasOwnProperty"; "isPrototypeOf"; "propertyIsEnumerable";
   "toLocaleString"; "toString"; "valueOf"; "__defineGetter__";
   "__defineSetter__"; "__lookupGetter__"; "__lookupSetter__"; "__proto__"].

End Discord.

(** ** RawModalSubmitValidation.ts *)

Module SubmitValidation.
Import Discord.

Record IRawModalSubmitValidationResult : Type := {
  ok : bool;
  reason : option string;
}.

Definition valid : IRawModalSubmitValidationResult :=
  {| ok := true; reason := None |}.
Definition invalid (why : string) : IRawModalSubmitValidationResult :=
  {| ok := false; reason := Some why |}.

Definition MAX_CUSTOM_ID_LENGTH : nat := 100.
Definition MAX_TEXT_INPUT_LENGTH : nat := 4000.
Definition MAX_SELECT_VALUES : nat := 25.
Definition MAX_FILE_UPLOAD_VALUES : nat := 10.

(** A submitted field as discord.js hands it over. [customId] is the
    payload's string or [undefined]; [attachments] holds the keys of the
    field's attachment collection, [None] when the property is absent. *)
Record ModalData : Type := {
  type : ComponentType;
  customId : option string;
  value : JsValue;
  values : JsValue;
  attachments : option (list string);
}.

(** A top-level component of a modal submission. *)
Inductive TopLevelModalData : Type :=
  | ActionRowModalData (components : list ModalData)
  | LabelModalData (component : ModalData)
  | OtherModalData (type : ComponentType).

Definition validateCustomId (customId : option string) : IRawModalSubmitValidationResult :=
  match customId with
  | Some s =>
      if negb (0 <? String.length s)%nat then invalid "component custom id is missing"
      else if (MAX_CUSTOM_ID_LENGTH <? String.length s)%nat
      then invalid "component custom id exceeds 100 characters"
      else valid
  | None => invalid "component custom id is missing"
  end.

Definition validateSelectValues (values : JsValue) : IRawModalSubmitValidationResult :=
  match values with
  | JsArray items =>
      if (MAX_SELECT_VALUES <? length items)%nat
      then invalid "select values exceed allowed limit"
      else if negb (forallb isString items)
      then invalid "select values contain a non-string value"
      else valid
  | JsPrimitive _ => invalid "select values must be an array"
  end.

Fixpoint checkAttachmentIds (items : list JsPrim) (attachmentIds : gset string)
    : IRawModalSubmitValidationResult :=
  match items with
  | [] => valid
  | attachmentId :: rest =>
      if negb (isNonEmptyString attachmentId)
      then invalid "file upload attachment id is invalid"
      else if negb (bool_decide (toPropertyKey attachmentId ∈ attachmentIds))
      then invalid "file upload attachment id is unresolved"
      else checkAttachmentIds rest attachmentIds
  end.

Definition validateFileUploadValues (values : JsValue) (attachmentIds : gset string)
    : IRawModalSubmitValidationResult :=
  match values with
  | JsArray items =>
      if (length items =? 0)%nat
      then invalid "file upload must contain at least one attachment id"
      else if (MAX_FILE_UPLOAD_VALUES <? length items)%nat
      then invalid "file upload contains too many attachment ids"
      else checkAttachmentIds items attachmentIds
  | JsPrimitive _ => invalid "file upload must contain at least one attachment id"
  end.

(** Reading [.keys()] of an absent [attachments] property is a TypeError. *)
Definition validateModalField (field : ModalData)
    : Result IRawModalSubmitValidationResult :=
  let customIdCheck := validateCustomId (customId field) in
  if negb (ok customIdCheck) then Ok customIdCheck
  else
    match type field with
    | TextInput =>
        match value field with
        | JsPrimitive (PString s) =>
            if (MAX_TEXT_INPUT_LENGTH <? String.length s)%nat
            then Ok (invalid "text input value exceeds max length")
            else Ok valid
        | _ => Ok (invalid "text input value must be a string")
        end
    | StringSelect | UserSelect | RoleSelect | MentionableSelect | ChannelSelect =>
        Ok (validateSelectValues (values field))
    | FileUpload =>
        match attachments field with
        | Some keys => Ok (validateFileUploadValues (values field) (list_to_set keys))
        | None => Throw "Cannot read properties of undefined (reading 'keys')"
        end
    | _ => Ok (invalid "unsupported modal field type")
    end.

Definition collectModalFields (components : list TopLevelModalData) : list ModalData :=
  concat
    ((λ component,
        match component with
        | ActionRowModalData children => children
        | LabelModalData child => [child]
        | OtherModalData _ => []
        end) <$> components).

(** The loop over the collected fields, with the custom ids seen so far. *)
Fixpoint validateFields (fields : list ModalData) (seenCustomIds : gset string)
    : Result IRawModalSubmitValidationResult :=
  match fields with
  | [] => Ok valid
  | field :: rest =>
      let customId := default EmptyString (customId field) in
      if bool_decide (customId ∈ seenCustomIds)
      then Ok (invalid "duplicate component custom id detected in modal submit")
      else
        match validateModalField field with
        | Throw e => Throw e
        | Ok fieldCheck =>
            if negb (ok fieldCheck) then Ok fieldCheck
            else validateFields rest ({[customId]} ∪ seenCustomIds)
        end
  end.

Definition validateRawModalSubmitInteractionPayload
    (interactionCustomId : string) (components : list TopLevelModalData)
    : Result IRawModalSubmitValidationResult :=
  let customIdCheck := validateCustomId (Some interactionCustomId) in
  if negb (ok customIdCheck)
  then Ok (invalid ("modal custom id invalid: "
                    +:+ default "undefined" (reason customIdCheck)))
  else
    let fields := collectModalFields components in
    if (length fields =? 0)%nat
    then Ok (invalid "modal submit has no submitted fields")
    else validateFields fields ∅.

End SubmitValidation.

(** ** RawModalApiService.ts *)

Module ApiService.
Import Discord.

Record IRawModalOpenRequest : Type := {
  interactionId : string;
  interactionToken : string;
  feature : string;
  flow : string;
  sessionId : string;
  customId : option string;
  title : string;
  components : list string;
}.

(** The modal response posted to the interaction callback route; a
    component is carried as it was given, here its JSON text. *)
Record ModalCallback : Type := {
  callback_interactionId : string;
  callback_interactionToken : string;
  custom_id : string;
  callback_title : string;
  callback_components : list string;
}.

(** [openModal]. [post] is the outcome of [postInteractionCallback] for a
    payload; the second component lists the payloads handed to it. *)
Definition openModal (post : ModalCallback → Result unit)
    (request : IRawModalOpenRequest) : Result unit * list ModalCallback :=
  let built :=
    match customId request with
    | Some given => Ok given
    | None =>
        CustomId.buildRawModalCustomId
          {| CustomId.feature := feature request;
             CustomId.flow := flow request;
             CustomId.sessionId := sessionId request |}
    end in
  match built with
  | Throw e => (Throw e, [])
  | Ok customId =>
      if negb (Js.truthy (Some customId)) || (100 <? String.length customId)%nat
      then (Throw "Raw modal custom id is missing or exceeds 100 characters.", [])
      else
        let payload :=
          {| callback_interactionId := interactionId request;
             callback_interactionToken := interactionToken request;
             custom_id := customId;
             callback_title := title request;
             callback_components := components request |} in
        (post payload, [payload])
  end.

(** A submitted component of the raw payload. [sub_type] is [None] when the
    [type] property is not a number. *)
Record ModalSubmitComponent : Type := {
  sub_type : option ComponentType;
  sub_custom_id : JsPrim;
  sub_value : JsValue;
  sub_values : JsValue;
}.

(** An entry of a component array: an object, a falsy value, or another
    value that is not an object. *)
Inductive RawEntry : Type :=
  | EntryObject (component : ModalSubmitComponent)
  | EntryFalsy
  | EntryOther.

Inductive APIModalSubmissionComponent : Type :=
  | RawActionRow (components : option (list RawEntry))
  | RawLabel (component : RawEntry)
  | RawOtherComponent.

(** [interaction.data]; [data_components] is [None] when the property is not
    an array, [resolved_attachments] holds the ids of [resolved.attachments]. *)
Record APIModalSubmitData : Type := {
  data_custom_id : JsPrim;
  data_components : option (list APIModalSubmissionComponent);
  resolved_attachments : list string;
}.

Definition isTruthyEntry (e : RawEntry) : bool :=
  match e with EntryFalsy => false | _ => true end.

Definition flattenSubmittedComponents (components : list APIModalSubmissionComponent)
    : list RawEntry :=
  concat
    ((λ component,
        match component with
        | RawActionRow children => filter (λ e, Is_true (isTruthyEntry e)) (default [] children)
        | RawLabel child => if isTruthyEntry child then [child] else []
        | RawOtherComponent => []
        end) <$> components).

(** [isModalSubmitComponent], returning the component and its custom id
    when the test passes. *)
Definition isModalSubmitComponent (e : RawEntry)
    : option (ComponentType * string * ModalSubmitComponent) :=
  match e with
  | EntryObject c =>
      match sub_type c, sub_custom_id c with
      | Some ty, PString id => Some (ty, id, c)
      | _, _ => None
      end
  | _ => None
  end.

(** [resolvedAttachments[attachmentId]] is truthy. *)
Definition isResolved (resolved : list string) (attachmentId : JsPrim) : bool :=
  bool_decide (toPropertyKey attachmentId ∈ resolved ++ OBJECT_PROTOTYPE_KEYS).

(** The [switch] on the component type; [None] stands for [break]. *)
Definition checkSubmittedValue (resolved : list string) (ty : ComponentType)
    (c : ModalSubmitComponent) : option string :=
  match ty with
  | TextInput =>
      match sub_value c with
      | JsPrimitive (PString s) =>
          if (4000 <? String.length s)%nat then Some "text input value is invalid"
          else None
      | _ => Some "text input value is invalid"
      end
  | StringSelect | UserSelect | RoleSelect | MentionableSelect | ChannelSelect
  | CheckboxGroup =>
      match sub_values c with
      | JsArray items =>
          if existsb (λ v, negb (isString v)) items
          then Some "select values are invalid" else None
      | JsPrimitive _ => Some "select values are invalid"
      end
  | FileUpload =>
      match sub_values c with
      | JsArray items =>
          if (length items =? 0)%nat then Some "file upload values are invalid"
          else if forallb (isResolved resolved) items then None
          else Some "file upload attachment id is unresolved"
      | JsPrimitive _ => Some "file upload values are invalid"
      end
  | RadioGroup =>
      match sub_value c with
      | JsPrimitive PNull | JsPrimitive (PString _) => None
      | _ => Some "radio group value is invalid"
      end
  | Checkbox =>
      match sub_value c with
      | JsPrimitive (PBool _) => None
      | _ => Some "checkbox value is invalid"
      end
  | _ => Some "unsupported modal component type"
  end.

Fixpoint validateFlatComponents (resolved : list string) (flat : list RawEntry)
    (seenIds : gset string) : SubmitValidation.IRawModalSubmitValidationResult :=
  match flat with
  | [] => SubmitValidation.valid
  | entry :: rest =>
      match isModalSubmitComponent entry with
      | None =>
          SubmitValidation.invalid "modal submission contains an invalid component entry"
      | Some (ty, id, c) =>
          if negb (Js.truthy (Some id)) || (100 <? String.length id)%nat
          then SubmitValidation.invalid "component custom id is missing or too long"
          else if bool_decide (id ∈ seenIds)
          then SubmitValidation.invalid "duplicate component custom id in payload"
          else
            match checkSubmittedValue resolved ty c with
            | Some why => SubmitValidation.invalid why
            | None => validateFlatComponents resolved rest ({[id]} ∪ seenIds)
            end
      end
  end.

Definition validateSubmitComponents (interactionData : option APIModalSubmitData)
    : SubmitValidation.IRawModalSubmitValidationResult :=
  match interactionData with
  | None => SubmitValidation.invalid "modal interaction data is missing"
  | Some data =>
      let customId :=
        match data_custom_id data with PString s => s | _ => EmptyString end in
      if negb (Js.truthy (Some customId)) || (100 <? String.length customId)%nat
      then SubmitValidation.invalid "modal custom id is missing or too long"
      else
        let rawComponents := default [] (data_components data) in
        if (length rawComponents =? 0)%nat
        then SubmitValidation.invalid "modal submission has no top-level components"
        else
          let flatComponents := flattenSubmittedComponents rawComponents in
          if (length flatComponents =? 0)%nat
          then SubmitValidation.invalid "modal submission has no components"
          else validateFlatComponents (resolved_attachments data) flatComponents ∅
  end.

End ApiService.

(** ** RawModalInteractionRouter.ts *)

Module Router.
Import Scope.

Inductive InteractionKind : Type :=
  | ModalSubmit
  | MessageComponent
  | OtherInteraction (repliable : bool).

(** The parts of a discord.js [Interaction] the router reads. [customId] and
    [components] are meaningful for the kinds that carry them. *)
Record Interaction : Type := {
  kind : InteractionKind;
  customId : string;
  userId : string;
  guildId : option string;
  components : list SubmitValidation.TopLevelModalData;
}.

Definition isModalSubmit (i : Interaction) : bool :=
  match kind i with ModalSubmit => true | _ => false end.
Definition isMessageComponent (i : Interaction) : bool :=
  match kind i with MessageComponent => true | _ => false end.
Definition isRepliable (i : Interaction) : bool :=
  match kind i with OtherInteraction r => r | _ => true end.

(** What the user is sent. *)
Inductive ReplyEvent : Type :=
  | DeferredReply
  | EphemeralReply (content : string).

(** The state an event handler acts on: the session table and the replies
    sent so far, oldest first. Log lines are not part of the state. *)
Record World : Type := {
  sessions : Session.Table;
  replies : list ReplyEvent;
}.

(** Handlers thread the world and may throw. *)
Definition M (A : Type) : Type := World → Result A * World.

#[global] Instance M_ret : MRet M := λ A a w, (Ok a, w).
#[global] Instance M_bind : MBind M := λ A B k m w,
  match m w with
  | (Ok a, w') => k a w'
  | (Throw e, w') => (Throw e, w')
  end.
Definition liftResult {A} (r : Result A) : M A := λ w, (r, w).
(** [try { body } catch { handler }]. *)
Definition tryCatch {A} (body : M A) (handler : string → M A) : M A :=
  λ w, match body w with
       | (Ok a, w') => (Ok a, w')
       | (Throw e, w') => handler e w'
       end.
(** A statement of the session store, run on the table of the world. *)
Definition onTable {A} (f : Session.Table → A * Session.Table) : M A :=
  λ w, let '(a, t) := f (sessions w) in
       (Ok a, {| sessions := t; replies := replies w |}).
Definition emit (e : ReplyEvent) : M unit :=
  λ w, (Ok tt, {| sessions := sessions w; replies := replies w ++ [e] |}).

(** Modelled from the spec: [safeReply] of functions/InteractionUtils.js,
    which is not among the sources; the reply is the ephemeral message the
    user sees. *)
Definition safeReply (content : string) : M unit := emit (EphemeralReply content).

(** Modelled from the spec: [safeDeferReply] of functions/InteractionUtils.js,
    which is not among the sources; the deferred reply is the
    acknowledgement that precedes the message. *)
Definition safeDeferReply : M unit := emit DeferredReply.

Definition RAW_MODAL_PREFIX : string := RAW_MODAL_CUSTOM_ID_PREFIX +:+ ":".

Definition MSG_NOT_WIRED : string :=
  "This modal flow is reserved for direct API routing and is not wired yet.".
Definition MSG_INVALID_PAYLOAD : string :=
  "Your modal submission payload was invalid. Please reopen the flow and try again.".
Definition MSG_NOT_FOUND : string :=
  "This modal session was not found. Please reopen the flow and try again.".
Definition MSG_OTHER_USER : string :=
  "This modal belongs to a different user. Please start your own modal flow.".
Definition MSG_EXPIRED : string :=
  "This modal session expired. Please reopen the flow to continue.".
Definition MSG_NOT_ACTIVE : string :=
  "This modal session is no longer active. Please reopen the flow to continue.".
Definition MSG_CLAIM_FAILED : string :=
  "This modal was already submitted or expired. Please reopen the flow.".
Definition MSG_ACCEPTED : string :=
  "Modal submission accepted for this session. Raw handling will be wired next.".
Definition MSG_ERROR : string :=
  "Something went wrong processing this modal. Please reopen the flow and try again.".

Definition getInteractionCustomId (i : Interaction) : option string :=
  if isMessageComponent i then Some (customId i)
  else if isModalSubmit i then Some (customId i)
  else None.

Definition handleManagedRawModalInteraction (i : Interaction) : M unit :=
  if negb (isRepliable i) then mret tt
  else safeReply MSG_NOT_WIRED.

Definition sendSessionRecoveryMessage (i : Interaction) (content : string) : M unit :=
  if negb (isRepliable i) then mret tt
  else safeReply content.

(** [nowCheck] is the clock read by [isRawModalSessionExpired], [nowClaim]
    the clock read by [claimRawModalSessionForSubmit]. *)
Definition handleManagedRawModalSubmit (nowCheck nowClaim : Z) (i : Interaction)
    (sessionId : string) : M unit :=
  if negb (isModalSubmit i) then mret tt
  else
    safeDeferReply;;
    validation ← liftResult
      (SubmitValidation.validateRawModalSubmitInteractionPayload
         (customId i) (components i));
    if negb (SubmitValidation.ok validation)
    then sendSessionRecoveryMessage i MSG_INVALID_PAYLOAD
    else
      found ← onTable (λ t, (Session.getRawModalSessionRecord sessionId t, t));
      match found with
      | None => sendSessionRecoveryMessage i MSG_NOT_FOUND
      | Some session =>
          if negb (String.eqb (Session.ownerUserId session) (userId i))
          then sendSessionRecoveryMessage i MSG_OTHER_USER
          else if Session.isRawModalSessionExpired session nowCheck
          then
            (if bool_decide (Session.status session = Session.open)
             then onTable (Session.expireRawModalSession
                             (Session.sessionId session));; mret tt
             else mret tt);;
            sendSessionRecoveryMessage i MSG_EXPIRED
          else if negb (bool_decide (Session.status session = Session.open))
          then sendSessionRecoveryMessage i MSG_NOT_ACTIVE
          else
            claimed ← onTable (Session.claimRawModalSessionForSubmit
                                 (Session.sessionId session) (userId i) nowClaim);
            if negb claimed
            then sendSessionRecoveryMessage i MSG_CLAIM_FAILED
            else safeReply MSG_ACCEPTED
      end.

(** The router entry point: the boolean is [handled]. *)
Definition tryHandleManagedRawModalInteraction (env : FeatureFlag.Env)
    (nowCheck nowClaim : Z) (i : Interaction) : M bool :=
  match getInteractionCustomId i with
  | None => mret false
  | Some customId =>
      if negb (Js.truthy (Some customId)) || negb (Js.startsWith customId RAW_MODAL_PREFIX)
      then mret false
      else
        match CustomId.parseRawModalCustomId customId with
        | None => handleManagedRawModalInteraction i;; mret true
        | Some parsed =>
            if negb (FeatureFlag.isRawModalPilotEnabled env
                       (CustomId.parsed_feature parsed) (guildId i))
            then mret false
            else if isModalSubmit i
            then
              tryCatch
                (handleManagedRawModalSubmit nowCheck nowClaim i
                   (CustomId.parsed_sessionId parsed))
                (λ _, sendSessionRecoveryMessage i MSG_ERROR);;
              mret true
            else handleManagedRawModalInteraction i;; mret true
        end
  end.

End Router.

(** ** Concurrent submissions of one session

    A call of [claimRawModalSessionForSubmit] takes a connection, runs its
    single UPDATE statement, which the database executes atomically, and
    returns. Calls in flight at the same time therefore interleave as whole
    statements: a step picks any call that has not run yet and runs it. *)

Module Concurrent.

Inductive Call : Type :=
  | Pending (sessionId ownerUserId : string) (now : Z)
  | Returned (result : bool).

#[global] Instance Call_eq_dec : EqDecision Call.
Proof. solve_decision. Defined.

Definition State : Type := Session.Table * list Call.

Inductive step : State → State → Prop :=
  | step_claim (t : Session.Table) (calls : list Call) (i : nat)
               (sessionId ownerUserId : string) (now : Z) :
      calls !! i = Some (Pending sessionId ownerUserId now) →
      step (t, calls)
           ((Session.claimRawModalSessionForSubmit sessionId ownerUserId now t).2,
            <[i := Returned
                     (Session.claimRawModalSessionForSubmit
                        sessionId ownerUserId now t).1]> calls).

Definition steps : State → State → Prop := rtc step.

Definition isReturned (c : Call) : bool :=
  match c with Returned _ => true | Pending _ _ _ => false end.

(** Every call has returned. *)
Definition finished (s : State) : Prop := Forall (λ c, Is_true (isReturned c)) s.2.

Definition countReturned (b : bool) (calls : list Call) : nat :=
  length (filter (λ c, c = Returned b) calls).

Definition pendingCount (calls : list Call) : nat :=
  length (filter (λ c, ¬ Is_true (isReturned c)) calls).

(** One call per clock reading in [nows], none of which has run: the calls
    have the same session id and user, and each has read its own clock. *)
Definition start (t : Session.Table) (sessionId ownerUserId : string)
    (nows : list Z) : State :=
  (t, Pending sessionId ownerUserId <$> nows).

(** What holds in every state reached from [start] when the session was
    open, owned by the caller and not expired at any of the clock readings:
    either no call has run and the session is still open, or the session is
    submitted and exactly one call has returned true. *)
Definition inv (n : nat) (sessionId ownerUserId : string) (s : State) : Prop :=
  length s.2 = n
  ∧ ∃ r, s.1 !! sessionId = Some r
         ∧ Session.OWNER_USER_ID r = ownerUserId
         ∧ Forall (λ c, (∃ now, c = Pending sessionId ownerUserId now
                                ∧ now < Session.EXPIRES_AT r)
                        ∨ Is_true (isReturned c)) s.2
         ∧ ((Session.STATUS r = Session.open
             ∧ Forall (λ c, ¬ Is_true (isReturned c)) s.2)
            ∨ (Session.STATUS r = Session.submitted
               ∧ countReturned true s.2 = 1%nat)).

End Concurrent.

(** ** Sequences of session store operations *)

Module StoreOps.
Import Session.

Inductive StoreOp : Type :=
  | OpCreate (input : IRawModalSessionCreateInput)
  | OpUpdateStatus (input : IRawModalSessionUpdateInput)
  | OpClaim (sessionId ownerUserId : string) (now : Z)
  | OpExpire (sessionId : string).

Definition runOp (op : StoreOp) (t : Table) : Table :=
  match op with
  | OpCreate input => (createRawModalSessionRecord input t).2
  | OpUpdateStatus input => (updateRawModalSessionStatus input t).2
  | OpClaim sessionId ownerUserId now =>
      (claimRawModalSessionForSubmit sessionId ownerUserId now t).2
  | OpExpire sessionId => (expireRawModalSession sessionId t).2
  end.

Definition runOps (ops : list StoreOp) (t : Table) : Table :=
  foldl (λ acc op, runOp op acc) t ops.

(** The session an unconditional status write is aimed at. *)
Definition overwrites (op : StoreOp) : option string :=
  match op with
  | OpUpdateStatus input => Some (update_sessionId input)
  | OpExpire sessionId => Some sessionId
  | _ => None
  end.

(** The operation, if it is an unconditional status write, is aimed at a
    session that is open in [t], the table the write is run on. *)
Definition guarded (op : StoreOp) (t : Table) : Prop :=
  ∀ sid r, overwrites op = Some sid → t !! sid = Some r → STATUS r = open.

Fixpoint allGuarded (ops : list StoreOp) (t : Table) : Prop :=
  match ops with
  | [] => True
  | op :: rest => guarded op t ∧ allGuarded rest (runOp op t)
  end.

(** The transitions the status of a session may make. *)
Definition monotonic (before after : RawModalSessionStatus) : Prop :=
  after = before ∨ (before = open ∧ (after = submitted ∨ after = expired)).

End StoreOps.

(** ** Sample data *)

Module Samples.
Import Discord.

(** 2026-01-01T00:00:00Z. *)
Definition now : Z := 1767225600000.

Definition row (status : Session.RawModalSessionStatus) (expiresAt : Z)
    : Session.RawModalSessionRow :=
  {| Session.OWNER_USER_ID := "user-1";
     Session.FEATURE_ID := "todo";
     Session.FLOW_ID := "create";
     Session.STATE_JSON := "{}";
     Session.STATUS := status;
     Session.EXPIRES_AT := expiresAt;
     Session.GUILD_ID := Some "guild-1";
     Session.CHANNEL_ID := None |}.

(** A table with the one session abc123. *)
Definition table (status : Session.RawModalSessionStatus) (expiresAt : Z)
    : Session.Table :=
  {["abc123" := row status expiresAt]}.

(** The pilot is switched on for every guild. *)
Definition env : FeatureFlag.Env :=
  <["USE_RAW_IMPROVED_MODALS" := "true"]>
    (<["RAW_MODAL_PILOT_GUILD_IDS" := "*"]> ∅).

Definition textField : SubmitValidation.ModalData :=
  {| SubmitValidation.type := TextInput;
     SubmitValidation.customId := Some "title";
     SubmitValidation.value := JsPrimitive (PString "ok");
     SubmitValidation.values := JsPrimitive PUndefined;
     SubmitValidation.attachments := None |}.

Definition radioField (value : JsPrim) : SubmitValidation.ModalData :=
  {| SubmitValidation.type := RadioGroup;
     SubmitValidation.customId := Some "choice";
     SubmitValidation.value := JsPrimitive value;
     SubmitValidation.values := JsPrimitive PUndefined;
     SubmitValidation.attachments := None |}.

(** The same radio group in the raw payload of the API. *)
Definition rawRadio (value : JsPrim) : ApiService.APIModalSubmitData :=
  {| ApiService.data_custom_id := PString "modal:todo:v1:create:abc123";
     ApiService.data_components :=
       Some [ApiService.RawLabel
               (ApiService.EntryObject
                  {| ApiService.sub_type := Some RadioGroup;
                     ApiService.sub_custom_id := PString "choice";
                     ApiService.sub_value := JsPrimitive value;
                     ApiService.sub_values := JsPrimitive PUndefined |})];
     ApiService.resolved_attachments := [] |}.

(** A modal submission by user-1 in guild-1. *)
Definition submission (customId : string)
    (fields : list SubmitValidation.ModalData) : Router.Interaction :=
  {| Router.kind := Router.ModalSubmit;
     Router.customId := customId;
     Router.userId := "user-1";
     Router.guildId := Some "guild-1";
     Router.components := SubmitValidation.LabelModalData <$> fields |}.

(** The input of a creation under the id abc123. *)
Definition createInput : Session.IRawModalSessionCreateInput :=
  {| Session.create_sessionId := "abc123";
     Session.create_feature := "todo";
     Session.create_flow := "create";
     Session.create_ownerUserId := "user-2";
     Session.create_guildId := None;
     Session.create_channelId := None;
     Session.create_stateJson := "{}";
     Session.create_expiresAt := 1767229200000 |}.

Definition world (t : Session.Table) : Router.World :=
  {| Router.sessions := t; Router.replies := [] |}.

(** The request [openSuggestionReviewDecisionModal] makes for reviewer 42
    and suggestion 7. *)
Definition reviewRequest : ApiService.IRawModalOpenRequest :=
  {| ApiService.interactionId := "1";
     ApiService.interactionToken := "token";
     ApiService.feature := "suggestion";
     ApiService.flow := "review-decision";
     ApiService.sessionId := "suggestion-7";
     ApiService.customId := Some "suggestion-review-decision:42:7";
     ApiService.title := "Suggestion Review Decision";
     ApiService.components := [] |}.

(** The request of the nominate command. *)
Definition nominateRequest : ApiService.IRawModalOpenRequest :=
  {| ApiService.interactionId := "1";
     ApiService.interactionToken := "token";
     ApiService.feature := "nominate";
     ApiService.flow := "create";
     ApiService.sessionId := "nominate-42-7";
     ApiService.customId := None;
     ApiService.title := "Nominate";
     ApiService.components := [] |}.

End Samples.

(** ** Predicates of the specification *)

Module Props.
Import Session.

(** The row may be claimed by [ownerUserId] at time [now]. *)
Definition claimable (ownerUserId : string) (now : Z) (r : RawModalSessionRow) : Prop :=
  STATUS r = open ∧ OWNER_USER_ID r = ownerUserId ∧ now < EXPIRES_AT r.

(** The two rows agree on every column but STATUS. *)
Definition sameExceptStatus (r r' : RawModalSessionRow) : Prop :=
  OWNER_USER_ID r' = OWNER_USER_ID r
  ∧ FEATURE_ID r' = FEATURE_ID r
  ∧ FLOW_ID r' = FLOW_ID r
  ∧ STATE_JSON r' = STATE_JSON r
  ∧ EXPIRES_AT r' = EXPIRES_AT r
  ∧ GUILD_ID r' = GUILD_ID r
  ∧ CHANNEL_ID r' = CHANNEL_ID r.

(** The stored status of session [sid] was open in [t] and is submitted in
    [t'], the other columns of its row being kept. *)
Definition flipped (sid : string) (t t' : Table) : Prop :=
  ∃ r r', t !! sid = Some r ∧ STATUS r = open
          ∧ t' !! sid = Some r' ∧ STATUS r' = submitted
          ∧ sameExceptStatus r r'.

(** The row is removed by a sweep with the given cutoff. *)
Definition sweepable (cutoff : Z) (r : RawModalSessionRow) : Prop :=
  EXPIRES_AT r < cutoff ∧ (STATUS r = open ∨ STATUS r = expired).

(** No character of the string is a colon. *)
Definition colonFree (s : string) : bool :=
  CustomId.allChars (λ c, negb (Ascii.eqb c ":")) s.

(** The string is a non-empty run of decimal digits. *)
Definition isDigits (s : string) : bool :=
  negb (String.eqb s EmptyString)
  && CustomId.allChars (λ c, bool_decide (is_Some (Js.digitValue c))) s.

(** The WHERE clause of the claim statement, apart from the key. *)
Definition claimWhere (ownerUserId : string) (now : Z) (r : RawModalSessionRow) : bool :=
  String.eqb (OWNER_USER_ID r) ownerUserId && bool_decide (STATUS r = open)
  && (now <? EXPIRES_AT r).

End Props.

(** ** Further primitives: digit runs and ASCII upper case *)

Module JsText.

Definition isDigit (c : ascii) : bool := bool_decide (is_Some (Js.digitValue c)).

(** The longest run of decimal digits at the start of a string, and what
    follows it: how [\d+] matches when the pattern goes on with a character
    that is not a digit, or ends. *)
Fixpoint spanDigits (s : string) : string * string :=
  match s with
  | EmptyString => (EmptyString, EmptyString)
  | String c rest =>
      if isDigit c
      then let '(digits, tail) := spanDigits rest in (String c digits, tail)
      else (EmptyString, s)
  end.

(** [Number(digits)] for a string of decimal digits, as [Js.parseInt10]
    gives numbers: the integer the digits denote (the JavaScript number is
    the double nearest to it, the same integer below 2^53). *)
Definition numberOfDigits (digits : string) : option Z :=
  Js.readDigits digits 0 false.

(** [Number.isInteger] on such a number: it is finite. *)
Definition isInteger (n : option Z) : bool := Js.isFinite n.

(** [toUpperCase] on a string of ASCII code units. *)
Definition upperChar (c : ascii) : ascii :=
  let n := Js.code c in
  if ((97 <=? n) && (n <=? 122))%nat then ascii_of_nat (n - 32) else c.

Fixpoint toUpperCase (s : string) : string :=
  match s with
  | EmptyString => EmptyString
  | String c rest => String (upperChar c) (toUpperCase rest)
  end.

(** [String(n)] and [`${n}`] for an integer below 10^21 in magnitude: its
    decimal digits, with a minus sign if it is negative. *)
Definition numberToString (n : Z) : string := pretty n.

End JsText.

(** ** RawModalSession.ts: the spelling of the status in the database *)

Module SessionDb.
Import Session.

Definition RAW_MODAL_SESSION_STATUSES : list string := ["open"; "submitted"; "expired"].

(** The string a value of [RawModalSessionStatus] is. *)
Definition statusName (s : RawModalSessionStatus) : string :=
  match s with
  | open => "open"
  | submitted => "submitted"
  | expired => "expired"
  end.

Definition statusOfName (name : string) : option RawModalSessionStatus :=
  if String.eqb name "open" then Some open
  else if String.eqb name "submitted" then Some submitted
  else if String.eqb name "expired" then Some expired
  else None.

Definition isRawModalSessionStatus (value : string) : bool :=
  Js.includes RAW_MODAL_SESSION_STATUSES value.

Definition toDbStatus (status : RawModalSessionStatus) : string :=
  JsText.toUpperCase (statusName status).

Definition fromDbStatus (status : string) : Result RawModalSessionStatus :=
  let normalized := Js.toLowerCase (Js.trim status) in
  if isRawModalSessionStatus normalized
  then match statusOfName normalized with
       | Some s => Ok s
       | None => Throw ("Unknown raw modal session status: " +:+ status)
       end
  else Throw ("Unknown raw modal session status: " +:+ status).

End SessionDb.

(** ** nominate.command.ts: the session id of a nomination form *)

Module Nominate.

Definition buildNominateSessionId (userId : string) (roundNumber : Z) : string :=
  "u" +:+ userId +:+ "_r" +:+ JsText.numberToString roundNumber.

(** [/^u\d+_r(\d+)$/.exec(sessionId)], then [Number] of the group. *)
Definition parseRoundFromSessionId (sessionId : string) : option Z :=
  match sessionId with
  | String "u" afterU =>
      let '(userDigits, afterUser) := JsText.spanDigits afterU in
      if String.eqb userDigits EmptyString then None
      else
        match afterUser with
        | String "_" (String "r" afterR) =>
            let '(roundDigits, tail) := JsText.spanDigits afterR in
            if String.eqb roundDigits EmptyString
               || negb (String.eqb tail EmptyString) then None
            else
              let roundNumber := JsText.numberOfDigits roundDigits in
              match roundNumber with
              | Some n =>
                  if JsText.isInteger roundNumber && (0 <? n) then Some n else None
              | None => None
              end
        | _ => None
        end
  | _ => None
  end.




End Nominate.


(** ** Counting the claims that succeed in a run of store operations *)

Module StoreRuns.
Import Session StoreOps.

(** The operation is a claim of session [sid] and it succeeds on [t]. *)
Definition claimSucceeds (sid : string) (op : StoreOp) (t : Table) : bool :=
  match op with
  | OpClaim sessionId ownerUserId now =>
      String.eqb sessionId sid
      && (claimRawModalSessionForSubmit sessionId ownerUserId now t).1
  | _ => false
  end.

Fixpoint successfulClaims (sid : string) (ops : list StoreOp) (t : Table) : nat :=
  match ops with
  | [] => 0
  | op :: rest =>
      ((if claimSucceeds sid op t then 1 else 0)
       + successfulClaims sid rest (runOp op t))%nat
  end.

(** The operation writes the status open into session [sid]. *)
Definition reopens (sid : string) (op : StoreOp) : bool :=
  match op with
  | OpUpdateStatus input =>
      String.eqb (update_sessionId input) sid
      && bool_decide (update_status input = open)
  | _ => false
  end.

(** The WHERE clause of the sweep. *)
Definition sweepWhere (cutoff : Z) (r : RawModalSessionRow) : bool :=
  (EXPIRES_AT r <? cutoff)
  && (bool_decide (STATUS r = open) || bool_decide (STATUS r = expired)).

End StoreRuns.

(** ** The router seen from outside, and a submission handler in two steps *)

Module RouterRuns.
Import Router.

(** The world after a submission was acknowledged and answered with
    [content], the table being [t]. *)
Definition answered (w : World) (t : Session.Table) (content : string) : World :=
  {| sessions := t;
     replies := replies w ++ [DeferredReply; EphemeralReply content] |}.

(** The messages [handleManagedRawModalSubmit] and the catch clause around
    it send. *)
Definition SUBMIT_MESSAGES : list string :=
  [MSG_INVALID_PAYLOAD; MSG_NOT_FOUND; MSG_OTHER_USER; MSG_EXPIRED;
   MSG_NOT_ACTIVE; MSG_CLAIM_FAILED; MSG_ACCEPTED; MSG_ERROR].

(** [handleManagedRawModalSubmit] up to the point where
    [getRawModalSessionRecord] has returned: [None] if the handler has
    returned before, otherwise what was read. *)
Definition readForSubmit (i : Interaction) (sessionId : string)
    : M (option (option Session.IRawModalSessionRecord)) :=
  if negb (isModalSubmit i) then mret None
  else
    safeDeferReply;;
    validation ← liftResult
      (SubmitValidation.validateRawModalSubmitInteractionPayload
         (customId i) (components i));
    if negb (SubmitValidation.ok validation)
    then sendSessionRecoveryMessage i MSG_INVALID_PAYLOAD;; mret None
    else
      found ← onTable (λ t, (Session.getRawModalSessionRecord sessionId t, t));
      mret (Some found).

(** [handleManagedRawModalSubmit] from that point on. *)
Definition finishSubmit (nowCheck nowClaim : Z) (i : Interaction)
    (found : option Session.IRawModalSessionRecord) : M unit :=
  match found with
  | None => sendSessionRecoveryMessage i MSG_NOT_FOUND
  | Some session =>
      if negb (String.eqb (Session.ownerUserId session) (userId i))
      then sendSessionRecoveryMessage i MSG_OTHER_USER
      else if Session.isRawModalSessionExpired session nowCheck
      then
        (if bool_decide (Session.status session = Session.open)
         then onTable (Session.expireRawModalSession
                         (Session.sessionId session));; mret tt
         else mret tt);;
        sendSessionRecoveryMessage i MSG_EXPIRED
      else if negb (bool_decide (Session.status session = Session.open))
      then sendSessionRecoveryMessage i MSG_NOT_ACTIVE
      else
        claimed ← onTable (Session.claimRawModalSessionForSubmit
                             (Session.sessionId session) (userId i) nowClaim);
        if negb claimed
        then sendSessionRecoveryMessage i MSG_CLAIM_FAILED
        else safeReply MSG_ACCEPTED
  end.

End RouterRuns.

(** ** The submissions the validation accepts *)

Module Accepted.
Import Discord SubmitValidation.

(** A string primitive. *)
Definition stringOf (p : JsPrim) : option string :=
  match p with PString s => Some s | _ => None end.

(** The field has a custom id of 1 to 100 characters and a value that fits
    its type: a text of at most 4000 characters; for a select, an array of
    at most 25 strings; for a file upload, an array of 1 to 10 non-empty
    strings, each the key of one of the attachments of the field. No other
    type of field is accepted. *)
Definition acceptedField (field : ModalData) : Prop :=
  (∃ id, customId field = Some id ∧ (1 ≤ String.length id ≤ 100)%nat)
  ∧ match type field with
    | TextInput =>
        ∃ s, value field = JsPrimitive (PString s)
             ∧ (String.length s ≤ 4000)%nat
    | StringSelect | UserSelect | RoleSelect | MentionableSelect | ChannelSelect =>
        ∃ items, values field = JsArray items
                 ∧ (length items ≤ 25)%nat
                 ∧ Forall (λ p, is_Some (stringOf p)) items
    | FileUpload =>
        ∃ items keys, values field = JsArray items
                      ∧ attachments field = Some keys
                      ∧ (1 ≤ length items ≤ 10)%nat
                      ∧ Forall (λ p, ∃ s, p = PString s ∧ s ≠ EmptyString
                                          ∧ s ∈ keys) items
    | _ => False
    end.

(** The submission has a custom id of 1 to 100 characters and at least one
    field, its fields are accepted and no two of them share a custom id. *)
Definition acceptedSubmission (interactionCustomId : string)
    (components : list TopLevelModalData) : Prop :=
  (1 ≤ String.length interactionCustomId ≤ 100)%nat
  ∧ collectModalFields components ≠ []
  ∧ Forall acceptedField (collectModalFields components)
  ∧ NoDup (customId <$> collectModalFields components).

End Accepted.

(** ** Submissions of one session handled at the same time

    A handler of [handleManagedRawModalSubmit] runs at most two statements
    on the table: the SELECT of [getRawModalSessionRecord] and then, if it
    gets that far, the UPDATE of [expireRawModalSession] or of
    [claimRawModalSessionForSubmit]. Handlers in flight at the same time
    interleave at the statements: a step picks a handler that has not
    returned and runs it up to its read, or from its read to its return. *)

Module ConcurrentSubmits.
Import Router RouterRuns.

#[global] Instance ReplyEvent_eq_dec : EqDecision ReplyEvent.
Proof. solve_decision. Defined.

(** A handler with the clocks it reads: it has not started; it has read
    the session and holds what it read and what it has sent; or it has
    returned. *)
Inductive Handler : Type :=
  | Waiting (i : Interaction) (nowCheck nowClaim : Z)
  | HasRead (i : Interaction) (nowCheck nowClaim : Z)
            (found : option Session.IRawModalSessionRecord)
            (sent : list ReplyEvent)
  | Returned (outcome : Result unit) (sent : list ReplyEvent).

Definition State : Type := Session.Table * list Handler.

Definition afterRead (i : Interaction) (nowCheck nowClaim : Z)
    (outcome : Result (option (option Session.IRawModalSessionRecord)) * World)
    : Handler :=
  match outcome.1 with
  | Ok (Some found) => HasRead i nowCheck nowClaim found (replies outcome.2)
  | Ok None => Returned (Ok tt) (replies outcome.2)
  | Throw e => Returned (Throw e) (replies outcome.2)
  end.

Inductive step (sessionId : string) : State → State → Prop :=
  | step_read (t : Session.Table) (hs : list Handler) (k : nat)
              (i : Interaction) (nowCheck nowClaim : Z) :
      hs !! k = Some (Waiting i nowCheck nowClaim) →
      step sessionId (t, hs)
        (sessions (readForSubmit i sessionId
                     {| sessions := t; replies := [] |}).2,
         <[k := afterRead i nowCheck nowClaim
                  (readForSubmit i sessionId
                     {| sessions := t; replies := [] |})]> hs)
  | step_finish (t : Session.Table) (hs : list Handler) (k : nat)
                (i : Interaction) (nowCheck nowClaim : Z)
                (found : option Session.IRawModalSessionRecord)
                (sent : list ReplyEvent) :
      hs !! k = Some (HasRead i nowCheck nowClaim found sent) →
      step sessionId (t, hs)
        (sessions (finishSubmit nowCheck nowClaim i found
                     {| sessions := t; replies := sent |}).2,
         <[k := Returned
                  (finishSubmit nowCheck nowClaim i found
                     {| sessions := t; replies := sent |}).1
                  (replies (finishSubmit nowCheck nowClaim i found
                              {| sessions := t; replies := sent |}).2)]> hs).

Definition steps (sessionId : string) : State → State → Prop :=
  rtc (step sessionId).

Definition isWaiting (h : Handler) : bool :=
  match h with Waiting _ _ _ => true | _ => false end.

Definition isReturned (h : Handler) : bool :=
  match h with Returned _ _ => true | _ => false end.

(** The handler has returned and has sent the acceptance. *)
Definition isAccepted (h : Handler) : bool :=
  match h with
  | Returned _ sent => bool_decide (EphemeralReply MSG_ACCEPTED ∈ sent)
  | _ => false
  end.

Definition acceptedCount (hs : list Handler) : nat :=
  length (filter (λ h, Is_true (isAccepted h)) hs).

(** The statements a handler has still to run, at most. *)
Definition stepsLeft (h : Handler) : nat :=
  match h with
  | Waiting _ _ _ => 2
  | HasRead _ _ _ _ _ => 1
  | Returned _ _ => 0
  end.

(** What holds in every state that handlers reach: a handler that has read
    holds the session of the id and has not sent the acceptance, and either
    no handler was accepted, or exactly one was and the session is not
    open. *)
Definition submissionsInv (sid : string) (s : State) : Prop :=
  Forall (λ h, ∀ i nowCheck nowClaim found sent,
            h = HasRead i nowCheck nowClaim found sent →
            (∀ session, found = Some session → Session.sessionId session = sid)
            ∧ EphemeralReply MSG_ACCEPTED ∉ sent) s.2
  ∧ (acceptedCount s.2 = 0%nat
     ∨ (acceptedCount s.2 = 1%nat
        ∧ ∃ r, s.1 !! sid = Some r ∧ Session.STATUS r ≠ Session.open)).

End ConcurrentSubmits.

(** ** round-history.command.ts: the session id of the form and the pages *)

Module RoundHistory.

(** A digit of base 36 as [toString(36)] writes it: 0-9, then a-z. *)
Definition base36Digit (d : N) : ascii :=
  if (d <? 10)%N then ascii_of_N (48 + d) else ascii_of_N (87 + d).

Fixpoint toBase36_go (fuel : nat) (n : N) (acc : string) : string :=
  match fuel with
  | O => acc
  | S fuel' =>
      let acc' := String (base36Digit (n mod 36)) acc in
      if (n / 36 =? 0)%N then acc' else toBase36_go fuel' (n / 36) acc'
  end.

(** [n.toString(36)] for an integer that is not negative; the digits are
    no more than the bits of the number. *)
Definition toStringBase36 (n : Z) : string :=
  toBase36_go (S (N.to_nat (N.log2 (Z.to_N n)))) (Z.to_N n) EmptyString.

(** The value of a digit of base 36, and of a string of such digits. *)
Definition base36Value (c : ascii) : option N :=
  let n := N_of_ascii c in
  if ((48 <=? n) && (n <=? 57))%N then Some (n - 48)%N
  else if ((97 <=? n) && (n <=? 122))%N then Some (n - 87)%N
  else None.

Fixpoint readBase36 (s : string) (acc : N) : option N :=
  match s with
  | EmptyString => Some acc
  | String c rest =>
      match base36Value c with
      | Some d => readBase36 rest (acc * 36 + d)
      | None => None
      end
  end.

(** One character of the class [[a-z0-9]]. *)
Definition isBase36Char (c : ascii) : bool :=
  bool_decide (is_Some (base36Value c)).

(** [now] is the clock [Date.now()] reads. *)
Definition buildRoundHistorySessionId (now : Z) (userId : string)
    (showInChat : bool) : string :=
  let ts := toStringBase36 now in
  let visibility := if showInChat then "1" else "0" in
  "u" +:+ userId +:+ "_c" +:+ visibility +:+ "_t" +:+ ts.

(** [/^u\d+_c([01])_t[a-z0-9]+$/.exec(sessionId)], then the test of the
    group. *)
Definition parseShowInChatFromSessionId (sessionId : string) : option bool :=
  match sessionId with
  | String "u" afterU =>
      let '(userDigits, afterUser) := JsText.spanDigits afterU in
      if String.eqb userDigits EmptyString then None
      else
        match afterUser with
        | String "_" (String "c" (String visibility (String "_" (String "t" ts)))) =>
            if (Ascii.eqb visibility "0" || Ascii.eqb visibility "1")
               && negb (String.eqb ts EmptyString)
               && CustomId.allChars isBase36Char ts
            then Some (Ascii.eqb visibility "1")
            else None
        | _ => None
        end
  | _ => None
  end.

Definition ROUND_HISTORY_PAGE_SIZE : Z := 5.

(** [Math.ceil(a / b)] for a count [a] and a positive [b]. *)
Definition ceilDiv (a b : Z) : Z := (a + b - 1) / b.

(** [array.slice(from, to)] for indices that are not negative. *)
Definition slice {A} (l : list A) (from to : Z) : list A :=
  take (Z.to_nat (to - from)) (drop (Z.to_nat from) l).

(** The part of [buildRoundHistoryResponse] that chooses the page. *)
Definition totalPages {A} (allRounds : list A) : Z :=
  Z.max 1 (ceilDiv (Z.of_nat (length allRounds)) ROUND_HISTORY_PAGE_SIZE).

Definition safePage {A} (allRounds : list A) (page : Z) : Z :=
  Z.min (Z.max page 0) (totalPages allRounds - 1).

Definition pageRounds {A} (allRounds : list A) (page : Z) : list A :=
  slice allRounds
    (safePage allRounds page * ROUND_HISTORY_PAGE_SIZE)
    (safePage allRounds page * ROUND_HISTORY_PAGE_SIZE + ROUND_HISTORY_PAGE_SIZE).

(** The two buttons of [buildRoundHistoryPaginationRow]: the page each
    leads to and whether it is disabled. *)
Record PaginationRow : Type := {
  prevPage : Z;
  prevDisabled : bool;
  nextPage : Z;
  nextDisabled : bool;
}.

Definition buildRoundHistoryPaginationRow (page totalPages : Z)
    : option PaginationRow :=
  if totalPages <=? 1 then None
  else Some {| prevPage := Z.max 0 (page - 1);
               prevDisabled := page <=? 0;
               nextPage := Z.min (totalPages - 1) (page + 1);
               nextDisabled := totalPages - 1 <=? page |}.

(** The numbers of the first and the last round shown, as
    [buildRoundHistoryIntro] writes them. *)
Definition introRange (page totalRounds shown : Z) : Z * Z :=
  let start := if totalRounds =? 0 then 0
               else page * ROUND_HISTORY_PAGE_SIZE + 1 in
  let end_ := if totalRounds =? 0 then 0 else start + shown - 1 in
  (start, end_).

End RoundHistory.

(** * Properties *)

(** ** The SQL statements on a table keyed by SESSION_ID *)

Section SqlFacts.
Import Session.
Implicit Types (t : Table) (r : RawModalSessionRow) (sid k : string).

Lemma selected_lookup_Some where_ t k r :
  selected where_ t !! k = Some r ↔ t !! k = Some r ∧ where_ k r = true.
Proof.
  unfold selected. rewrite map_lookup_filter_Some. simpl.
  by rewrite Is_true_true.
Qed.

(** A WHERE clause that fixes the key selects the row under that key, if
    the rest of the clause holds of it, and nothing else. *)
Lemma selected_by_key where_ (p : RawModalSessionRow → bool) sid t :
  (∀ k r, where_ k r = String.eqb k sid && p r) →
  selected where_ t =
    match t !! sid with
    | Some r => if p r then {[sid := r]} else ∅
    | None => ∅
    end.
Proof.
  intros Hw. apply map_eq. intros k. apply option_eq. intros r.
  rewrite selected_lookup_Some, Hw, andb_true_iff, String.eqb_eq.
  split.
  - intros (Hk & -> & Hp). rewrite Hk, Hp. by rewrite lookup_singleton_eq.
  - destruct (t !! sid) as [r0|] eqn:Hsid; [destruct (p r0) eqn:Hp|];
      try by rewrite lookup_empty.
    intros [-> ->]%lookup_singleton_Some. done.
Qed.

Lemma sqlUpdate_lookup set where_ t k :
  (sqlUpdate set where_ t).2 !! k
  = (λ r, if where_ k r then set r else r) <$> t !! k.
Proof. simpl. rewrite map_lookup_imap. by destruct (t !! k). Qed.

Lemma sqlUpdate_by_key set where_ (p : RawModalSessionRow → bool) sid t :
  (∀ k r, where_ k r = String.eqb k sid && p r) →
  sqlUpdate set where_ t =
    match t !! sid with
    | Some r => if p r then (1%nat, <[sid := set r]> t) else (0%nat, t)
    | None => (0%nat, t)
    end.
Proof.
  intros Hw. unfold sqlUpdate. rewrite (selected_by_key _ p sid) by done.
  assert (Hrows : ∀ t', (∀ k, t' !! k =
            (λ r, if where_ k r then set r else r) <$> t !! k) →
          map_imap (λ k r, Some (if where_ k r then set r else r)) t = t').
  { intros t' Ht'. apply map_eq. intros k. rewrite Ht', map_lookup_imap.
    by destruct (t !! k). }
  destruct (t !! sid) as [r0|] eqn:Hsid; [destruct (p r0) eqn:Hp|].
  - rewrite map_size_singleton. f_equal. apply Hrows. intros k.
    destruct (decide (k = sid)) as [->|Hne].
    + rewrite lookup_insert_eq, Hsid. simpl.
      by rewrite Hw, String.eqb_refl, Hp.
    + rewrite lookup_insert_ne by done. destruct (t !! k) as [r|]; [|done].
      simpl. rewrite Hw. by apply String.eqb_neq in Hne as ->.
  - rewrite map_size_empty. f_equal. apply Hrows. intros k.
    destruct (t !! k) as [r|] eqn:Hk; [|done]. simpl. rewrite Hw.
    destruct (String.eqb_spec k sid) as [->|]; [|done].
    rewrite Hsid in Hk. injection Hk as <-. by rewrite Hp.
  - rewrite map_size_empty. f_equal. apply Hrows. intros k.
    destruct (t !! k) as [r|] eqn:Hk; [|done]. simpl. rewrite Hw.
    destruct (String.eqb_spec k sid) as [->|]; [|done]. congruence.
Qed.

(** What [SET STATUS = ...] does to a row. *)
Lemma setStatus_spec s r :
  STATUS (setStatus s r) = s ∧ Props.sameExceptStatus r (setStatus s r).
Proof. by repeat split. Qed.

(** A row is determined by its status and its other columns. *)
Lemma sameExceptStatus_eq r r' :
  Props.sameExceptStatus r r' → r' = setStatus (STATUS r') r.
Proof.
  destruct r, r'. unfold Props.sameExceptStatus, setStatus. simpl.
  intros (-> & -> & -> & -> & -> & -> & ->). done.
Qed.

Lemma updateRawModalSessionStatus_eq sid s t :
  updateRawModalSessionStatus {| update_sessionId := sid; update_status := s |} t
  = match t !! sid with
    | Some r => (true, <[sid := setStatus s r]> t)
    | None => (false, t)
    end.
Proof.
  unfold updateRawModalSessionStatus.
  rewrite (sqlUpdate_by_key _ _ (λ _, true) sid); simpl.
  - by destruct (t !! sid).
  - intros. by rewrite andb_true_r.
Qed.

Lemma claimWhere_true owner now r :
  Props.claimWhere owner now r = true ↔ Props.claimable owner now r.
Proof.
  unfold Props.claimWhere, Props.claimable.
  rewrite !andb_true_iff, String.eqb_eq, bool_decide_eq_true, Z.ltb_lt. tauto.
Qed.

Lemma claimRawModalSessionForSubmit_eq sid owner now t :
  claimRawModalSessionForSubmit sid owner now t
  = match t !! sid with
    | Some r => if Props.claimWhere owner now r
                then (true, <[sid := setStatus submitted r]> t) else (false, t)
    | None => (false, t)
    end.
Proof.
  unfold claimRawModalSessionForSubmit.
  rewrite (sqlUpdate_by_key _ _ (Props.claimWhere owner now) sid).
  - destruct (t !! sid) as [r|]; [|done]. by destruct (Props.claimWhere owner now r).
  - intros. unfold Props.claimWhere. by rewrite !andb_assoc.
Qed.

End SqlFacts.

(** ** The session store *)

Section SessionStore.
Import Session.
Implicit Types (t : Table) (r : RawModalSessionRow) (sid k : string).

(** C2. claimRawModalSessionForSubmit flips the stored status from open to
    submitted (the stored row then has STATUS submitted and its other
    columns as before) exactly when the stored row is open, owned by the
    given user and expires strictly after [now]; otherwise the table is
    unchanged. No other row ever changes, and the boolean returned tells
    whether the claim succeeded: a claim that matches no row returns false. *)
Theorem claim_flips_iff_claimable sid owner now t :
  let result := claimRawModalSessionForSubmit sid owner now t in
  let claimable := ∃ r, t !! sid = Some r ∧ Props.claimable owner now r in
  (Props.flipped sid t result.2 ↔ claimable)
  ∧ (¬ claimable → result.2 = t)
  ∧ (∀ k, k ≠ sid → result.2 !! k = t !! k)
  ∧ (result.1 = true ↔ claimable)
  ∧ (result.1 = false ↔ ¬ claimable).
Proof.
  cbv zeta. rewrite claimRawModalSessionForSubmit_eq. unfold Props.flipped.
  destruct (t !! sid) as [r|] eqn:Hsid.
  - destruct (Props.claimWhere owner now r) eqn:Hc; simpl.
    + assert (Hcl : Props.claimable owner now r) by by apply claimWhere_true.
      assert (Hex : ∃ r0, Some r = Some r0 ∧ Props.claimable owner now r0)
        by by exists r.
      split_and!.
      * split; [done|]. intros _. exists r, (setStatus submitted r).
        split; [done|]. split; [apply Hcl|].
        split; [apply lookup_insert_eq|]. apply setStatus_spec.
      * intros Hn. by destruct Hn.
      * intros k Hk. by rewrite lookup_insert_ne.
      * done.
      * split; [done|]. intros Hn. by destruct Hn.
    + assert (Hcl : ¬ ∃ r0, Some r = Some r0 ∧ Props.claimable owner now r0).
      { intros (r0 & [= <-] & Hr0). apply claimWhere_true in Hr0. congruence. }
      split_and!.
      * split; [|done]. intros (r0 & r' & [= <-] & Hopen & Hsub & Hst & _).
        exfalso. rewrite Hsid in Hsub. injection Hsub as <-. congruence.
      * done.
      * done.
      * split; [done|]. intros Hn. by destruct Hcl.
      * done.
  - assert (Hcl : ¬ ∃ r0, None = Some r0 ∧ Props.claimable owner now r0).
    { by intros (r0 & [=] & _). }
    simpl. split_and!; try done.
    all: split; [|done]; by intros (r0 & r' & [=] & _).
Qed.

(** C7. deleteExpiredRawModalSessions removes exactly the rows that expire
    before the cutoff and are open or expired, returns how many rows it
    removed, and keeps every submitted row whatever its expiry. *)
Theorem sweep_deletes_exactly_stale_unsubmitted cutoff t :
  let result := deleteExpiredRawModalSessions cutoff t in
  (∀ k r, result.2 !! k = Some r ↔ t !! k = Some r ∧ ¬ Props.sweepable cutoff r)
  ∧ (∀ k, result.2 !! k = None ↔
          t !! k = None ∨ ∃ r, t !! k = Some r ∧ Props.sweepable cutoff r)
  ∧ (result.1 + size result.2 = size t)%nat
  ∧ (∀ k r, t !! k = Some r → STATUS r = submitted → result.2 !! k = Some r).
Proof.
  set (w := λ (_ : string) r,
         (EXPIRES_AT r <? cutoff)
         && (bool_decide (STATUS r = open) || bool_decide (STATUS r = expired))).
  assert (Hw : ∀ k r, Is_true (w k r) ↔ Props.sweepable cutoff r).
  { intros k r. unfold w, Props.sweepable.
    rewrite Is_true_true, andb_true_iff, orb_true_iff, Z.ltb_lt,
      !bool_decide_eq_true. done. }
  assert (Hkeep : ∀ k r, (deleteExpiredRawModalSessions cutoff t).2 !! k = Some r
                         ↔ t !! k = Some r ∧ ¬ Props.sweepable cutoff r).
  { intros k r. unfold deleteExpiredRawModalSessions, sqlDelete. simpl.
    rewrite map_lookup_filter_Some. simpl. fold (w k r). by rewrite (Hw k r). }
  cbv zeta. split; [exact Hkeep|]. split; [|split].
  - intros k. split.
    + intros Hnone. destruct (t !! k) as [r|] eqn:Hk; [right|by left].
      exists r. split; [done|].
      destruct (decide (Is_true (w k r))) as [Hy|Hn]; [by apply (Hw k)|].
      assert (Hsome : (deleteExpiredRawModalSessions cutoff t).2 !! k = Some r).
      { apply Hkeep. split; [done|]. by rewrite <- (Hw k). }
      congruence.
    + intros Hcase.
      destruct ((deleteExpiredRawModalSessions cutoff t).2 !! k) as [r'|] eqn:Hres;
        [|done].
      exfalso. apply Hkeep in Hres as [Hk' Hns].
      destruct Hcase as [Hnone|(r & Hk & Hs)]; [congruence|].
      rewrite Hk in Hk'. injection Hk' as ->. done.
  - unfold deleteExpiredRawModalSessions, sqlDelete, selected. simpl. fold w.
    rewrite <- map_size_disj_union by apply map_disjoint_filter_complement.
    by rewrite map_filter_union_complement.
  - intros k r Hk Hsub. apply Hkeep. split; [done|].
    intros [_ [Ho|He]]; congruence.
Qed.

End SessionStore.

(** ** Concurrent claims of one session *)

Section ConcurrentClaims.
Import Session Concurrent.

Lemma filter_length_insert {A} (P : A → Prop) `{!∀ x, Decision (P x)}
    (l : list A) (i : nat) (x y : A) :
  l !! i = Some x →
  (length (filter P (<[i := y]> l)) + (if decide (P x) then 1 else 0)
   = length (filter P l) + (if decide (P y) then 1 else 0))%nat.
Proof.
  intros Hi. pose proof (lookup_lt_Some _ _ _ Hi) as Hlt.
  rewrite insert_take_drop by done.
  rewrite <- (take_drop_middle l i x Hi) at 3.
  rewrite !filter_app, !filter_cons, !length_app.
  destruct (decide (P x)), (decide (P y)); simpl; lia.
Qed.

Lemma countReturned_insert (b : bool) (calls : list Call) (i : nat) (c c' : Call) :
  calls !! i = Some c →
  (countReturned b (<[i := c']> calls) + (if decide (c = Returned b) then 1 else 0)
   = countReturned b calls + (if decide (c' = Returned b) then 1 else 0))%nat.
Proof. exact (filter_length_insert (λ x, x = Returned b) calls i c c'). Qed.

Lemma countReturned_none_returned (b : bool) (calls : list Call) :
  Forall (λ c, ¬ Is_true (isReturned c)) calls → countReturned b calls = 0%nat.
Proof.
  unfold countReturned. induction 1 as [|c calls Hc _ IH]; [done|].
  rewrite filter_cons_False; [done|]. intros ->. by apply Hc.
Qed.

Lemma countReturned_total (calls : list Call) :
  Forall (λ c, Is_true (isReturned c)) calls →
  (countReturned true calls + countReturned false calls = length calls)%nat.
Proof.
  unfold countReturned. induction 1 as [|c calls Hc _ IH]; [done|].
  destruct c as [| [|]]; [done| |].
  - rewrite filter_cons_True, (filter_cons_False _ (Returned true)) by done.
    simpl. lia.
  - rewrite filter_cons_False, (filter_cons_True _ (Returned false)) by done.
    simpl. lia.
Qed.

Lemma inv_start sid owner (nows : list Z) t r :
  (0 < length nows)%nat →
  t !! sid = Some r →
  Forall (λ now, Props.claimable owner now r) nows →
  inv (length nows) sid owner (start t sid owner nows).
Proof.
  intros Hn Hsid Hall. unfold inv, start. cbn [fst snd].
  split; [by rewrite length_fmap|].
  assert (STATUS r = open ∧ OWNER_USER_ID r = owner) as [Hopen Howner].
  { destruct Hall as [|now nows [Ho [Hw _]] _]; [simpl in Hn; lia|done]. }
  exists r. split_and!; try done.
  - apply Forall_fmap. eapply Forall_impl; [exact Hall|].
    intros now (_ & _ & Hexp). left. by exists now.
  - left. split; [done|]. apply Forall_fmap, Forall_true. intros now. simpl. tauto.
Qed.

Lemma inv_step n sid owner s s' :
  inv n sid owner s → step s s' → inv n sid owner s'.
Proof.
  intros (Hlen & r & Hsid & Howner & Hall & Hcase) Hstep.
  destruct Hstep as [t calls i sid' owner' now Hi].
  cbn [fst snd] in Hlen, Hall, Hsid, Hcase. unfold inv. cbn [fst snd].
  assert (sid' = sid ∧ owner' = owner ∧ now < EXPIRES_AT r) as (-> & -> & Hexp).
  { rewrite Forall_lookup in Hall.
    destruct (Hall _ _ Hi) as [(now' & [= -> -> ->] & Hexp)|[]]. done. }
  rewrite claimRawModalSessionForSubmit_eq, Hsid.
  assert (Hall' : ∀ b, Forall
            (λ c, (∃ now, c = Pending sid owner now ∧ now < EXPIRES_AT r)
                  ∨ Is_true (isReturned c))
            (<[i := Returned b]> calls)).
  { intros b. apply Forall_insert; [done|]. by right. }
  destruct Hcase as [[Hopen Hpending]|[Hsub Hone]].
  - assert (Props.claimWhere owner now r = true) as ->.
    { by apply claimWhere_true. }
    cbn [fst snd]. split; [by rewrite length_insert|].
    exists (setStatus submitted r). rewrite lookup_insert_eq.
    split_and!; try done. right. split; [done|].
    pose proof (countReturned_insert true calls i _ (Returned true) Hi) as Hc.
    rewrite (countReturned_none_returned true calls) in Hc by done.
    rewrite decide_False, decide_True in Hc by done. lia.
  - assert (Props.claimWhere owner now r = false) as ->.
    { apply not_true_is_false. rewrite claimWhere_true.
      intros [Hopen _]. congruence. }
    cbn [fst snd]. split; [by rewrite length_insert|].
    exists r. split_and!; try done. right. split; [done|].
    pose proof (countReturned_insert true calls i _ (Returned false) Hi) as Hc.
    rewrite !decide_False in Hc by done. lia.
Qed.

Lemma inv_steps n sid owner s s' :
  inv n sid owner s → steps s s' → inv n sid owner s'.
Proof. intros Hinv Hsteps. induction Hsteps; eauto using inv_step. Qed.

(** The calls in flight all return, whatever the table and the calls. *)
Lemma run_to_completion (s : State) : ∃ final, steps s final ∧ finished final.
Proof.
  remember (pendingCount s.2) as m eqn:Hm.
  revert s Hm. induction m as [m IH] using lt_wf_ind. intros [t calls] Hm.
  destruct (decide (Forall (λ c, Is_true (isReturned c)) calls)) as [Hfin|Hnot].
  { exists (t, calls). split; [apply rtc_refl|done]. }
  apply not_Forall_Exists in Hnot; [|apply _].
  apply Exists_exists in Hnot as (c & Hin & Hc).
  apply list_elem_of_lookup in Hin as [i Hi].
  destruct c as [sid owner now|b]; [|by destruct Hc].
  set (res := claimRawModalSessionForSubmit sid owner now t).
  destruct (IH (pendingCount (<[i := Returned res.1]> calls)))
    with (s := (res.2, <[i := Returned res.1]> calls)) as (final & Hrun & Hfin).
  - subst m. unfold pendingCount. cbn [snd].
    pose proof (filter_length_insert (λ c, ¬ Is_true (isReturned c))
                  calls i _ (Returned res.1) Hi) as Hc'.
    rewrite decide_True, decide_False in Hc' by (simpl; tauto). lia.
  - done.
  - exists final. split; [|done]. eapply rtc_l; [|exact Hrun].
    by apply (step_claim t calls i sid owner now).
Qed.

(** C1. N calls of claimRawModalSessionForSubmit with the same session id
    and user run concurrently against a session that is open, owned by that
    user and not expired at the clock reading of any of the calls (the same
    reading for all of them, or one each): the calls all return, and however
    the database orders their statements exactly one call returns true, the
    other N-1 return false and the session ends submitted. *)
Theorem concurrent_claims_single_winner sid owner (nows : list Z)
    (t : Table) (r : RawModalSessionRow) :
  (0 < length nows)%nat →
  t !! sid = Some r →
  Forall (λ now, Props.claimable owner now r) nows →
  (∃ final, steps (start t sid owner nows) final ∧ finished final)
  ∧ ∀ final, steps (start t sid owner nows) final → finished final →
      countReturned true final.2 = 1%nat
      ∧ countReturned false final.2 = (length nows - 1)%nat
      ∧ ∃ r', final.1 !! sid = Some r' ∧ STATUS r' = submitted.
Proof.
  intros Hn Hsid Hclaimable. split; [apply run_to_completion|].
  intros [t' calls] Hrun Hfin.
  pose proof (inv_steps _ sid owner _ _
                (inv_start sid owner nows t r Hn Hsid Hclaimable) Hrun)
    as (Hlen & r' & Hsid' & _ & _ & Hcase).
  unfold finished in Hfin. cbn [fst snd] in *.
  destruct Hcase as [[_ Hpending]|[Hsub Hone]].
  - exfalso. destruct calls as [|c calls]; [simpl in Hlen; lia|].
    apply Forall_cons in Hpending as [Hc _].
    apply Forall_cons in Hfin as [Hc' _]. done.
  - pose proof (countReturned_total calls Hfin) as Htotal.
    split; [done|]. split; [lia|]. by exists r'.
Qed.

End ConcurrentClaims.

(** ** Status transitions under sequences of store operations *)

Section StatusTransitions.
Import Session StoreOps.
Implicit Types (t : Table) (r : RawModalSessionRow) (sid : string).

Lemma monotonic_refl s : monotonic s s.
Proof. by left. Qed.

Lemma monotonic_trans s1 s2 s3 : monotonic s1 s2 → monotonic s2 s3 → monotonic s1 s3.
Proof.
  intros [->|[-> H12]] H23; [done|].
  destruct H23 as [->|[H2 _]]; [by right|]. destruct H12; congruence.
Qed.

(** INSERT never touches a row that exists. *)
Lemma create_keeps_rows input t sid r :
  t !! sid = Some r → (createRawModalSessionRecord input t).2 !! sid = Some r.
Proof.
  intros Hsid. unfold createRawModalSessionRecord, sqlInsert.
  destruct (t !! create_sessionId input) eqn:Hkey; [done|].
  unfold getRawModalSessionRecord. rewrite lookup_insert_eq. simpl.
  rewrite lookup_insert_ne; [done|]. congruence.
Qed.

Lemma claim_status sid' owner now t sid r :
  t !! sid = Some r →
  ∃ r', (claimRawModalSessionForSubmit sid' owner now t).2 !! sid = Some r'
        ∧ (r' = r ∨ (STATUS r = open ∧ STATUS r' = submitted)).
Proof.
  intros Hsid. rewrite claimRawModalSessionForSubmit_eq.
  destruct (t !! sid') as [r0|] eqn:Hsid'; [|by exists r; auto].
  destruct (Props.claimWhere owner now r0) eqn:Hc; [|by exists r; auto].
  apply claimWhere_true in Hc as [Hopen _]. simpl.
  destruct (decide (sid' = sid)) as [->|Hne].
  - rewrite lookup_insert_eq. exists (setStatus submitted r0).
    split; [done|]. right. split; [congruence|done].
  - rewrite lookup_insert_ne by done. exists r. auto.
Qed.

(** The status write changes the row it is aimed at, whatever its status. *)
Lemma update_overwrites sid s t r :
  t !! sid = Some r →
  (updateRawModalSessionStatus
     {| update_sessionId := sid; update_status := s |} t).2 !! sid
  = Some (setStatus s r).
Proof.
  intros Hsid. rewrite updateRawModalSessionStatus_eq, Hsid. simpl.
  apply lookup_insert_eq.
Qed.

Lemma update_status_of sid' s t sid r :
  t !! sid = Some r →
  ∃ r', (updateRawModalSessionStatus
           {| update_sessionId := sid'; update_status := s |} t).2 !! sid = Some r'
        ∧ (r' = r ∨ (sid' = sid ∧ STATUS r' = s)).
Proof.
  intros Hsid. rewrite updateRawModalSessionStatus_eq.
  destruct (t !! sid') as [r0|] eqn:Hsid'; [|by exists r; auto]. simpl.
  destruct (decide (sid' = sid)) as [->|Hne].
  - rewrite lookup_insert_eq. exists (setStatus s r0). auto.
  - rewrite lookup_insert_ne by done. exists r. auto.
Qed.

Lemma overwrite_monotonic sid' s t sid r :
  (∀ r0, t !! sid' = Some r0 → STATUS r0 = open) →
  t !! sid = Some r →
  ∃ r', (updateRawModalSessionStatus
           {| update_sessionId := sid'; update_status := s |} t).2 !! sid = Some r'
        ∧ monotonic (STATUS r) (STATUS r').
Proof.
  intros Hguard Hsid.
  destruct (update_status_of sid' s t sid r Hsid) as (r' & Hr' & [->|[-> Hs]]).
  - exists r. split; [done|apply monotonic_refl].
  - exists r'. split; [done|]. rewrite (Hguard r Hsid), Hs. unfold monotonic.
    destruct s; auto.
Qed.

Lemma runOp_monotonic op t sid r :
  guarded op t → t !! sid = Some r →
  ∃ r', runOp op t !! sid = Some r' ∧ monotonic (STATUS r) (STATUS r').
Proof.
  intros Hguard Hsid. destruct op as [input|[sid' s]|sid' owner now|sid']; simpl.
  - exists r. split; [by apply create_keeps_rows|apply monotonic_refl].
  - apply overwrite_monotonic; [|done]. intros r0. by apply Hguard.
  - destruct (claim_status sid' owner now t sid r Hsid) as (r' & Hr' & [->|[Ho Hs]]).
    + exists r. split; [done|apply monotonic_refl].
    + exists r'. split; [done|]. right. auto.
  - unfold expireRawModalSession. apply overwrite_monotonic; [|done].
    intros r0. by apply Hguard.
Qed.

Lemma runOps_app (ops1 ops2 : list StoreOp) t :
  runOps (ops1 ++ ops2) t = runOps ops2 (runOps ops1 t).
Proof. unfold runOps. apply foldl_app. Qed.

Lemma allGuarded_app (ops1 ops2 : list StoreOp) t :
  allGuarded (ops1 ++ ops2) t → allGuarded ops1 t ∧ allGuarded ops2 (runOps ops1 t).
Proof.
  revert t. induction ops1 as [|op ops1 IH]; intros t; [done|].
  cbn [app allGuarded]. intros [Hop Hrest].
  destruct (IH _ Hrest) as [H1 H2]. done.
Qed.

Lemma runOps_monotonic (ops : list StoreOp) t sid r :
  allGuarded ops t → t !! sid = Some r →
  ∃ r', runOps ops t !! sid = Some r' ∧ monotonic (STATUS r) (STATUS r').
Proof.
  revert t r. induction ops as [|op ops IH]; intros t r Hguard Hsid.
  - exists r. split; [done|apply monotonic_refl].
  - destruct Hguard as [Hop Hrest].
    destruct (runOp_monotonic op t sid r Hop Hsid) as (r1 & Hr1 & Hm1).
    destruct (IH _ _ Hrest Hr1) as (r' & Hr' & Hm').
    exists r'. split; [done|]. by eapply monotonic_trans.
Qed.

(** C3, as the code has it. Take a sequence of create, status update,
    claim and expire operations in which every unconditional status write
    (updateRawModalSessionStatus, expireRawModalSession) is run on a table
    in which the session it is aimed at is open. A session of the table
    stays in the table, and between any two points of the sequence its
    status is monotonic: it keeps its status, or goes from open to submitted
    or to expired; a session that is submitted stays submitted and a session
    that is expired stays expired. *)
Theorem status_monotonic_under_guarded_operations
    (earlier later : list StoreOp) t sid r :
  allGuarded (earlier ++ later) t →
  t !! sid = Some r →
  ∃ r1 r2,
    runOps earlier t !! sid = Some r1
    ∧ runOps (earlier ++ later) t !! sid = Some r2
    ∧ monotonic (STATUS r) (STATUS r1)
    ∧ monotonic (STATUS r1) (STATUS r2)
    ∧ (STATUS r1 = submitted → STATUS r2 = submitted)
    ∧ (STATUS r1 = expired → STATUS r2 = expired).
Proof.
  intros [Hearlier Hlater]%allGuarded_app Hsid.
  destruct (runOps_monotonic earlier t sid r Hearlier Hsid) as (r1 & Hr1 & Hm1).
  destruct (runOps_monotonic later _ sid r1 Hlater Hr1) as (r2 & Hr2 & Hm2).
  exists r1, r2. rewrite runOps_app. split_and!; try done.
  - intros Hsub. destruct Hm2 as [->|[Hopen _]]; congruence.
  - intros Hexp. destruct Hm2 as [->|[Hopen _]]; congruence.
Qed.

End StatusTransitions.

(** ** The custom id codec *)

Section Codec.
Import Scope CustomId.

Lemma split_colonFree (s : string) :
  Props.colonFree s = true → Js.split ":" s = [s].
Proof.
  induction s as [|c s IH]; [done|]. unfold Props.colonFree. simpl.
  intros [Hc Hs]%andb_true_iff. apply negb_true_iff in Hc. rewrite Hc.
  by rewrite (IH Hs).
Qed.

Lemma split_segment (a rest : string) :
  Props.colonFree a = true →
  Js.split ":" (a +:+ String ":" rest) = a :: Js.split ":" rest.
Proof.
  induction a as [|c a IH]; [done|]. unfold Props.colonFree. simpl.
  intros [Hc Ha]%andb_true_iff. apply negb_true_iff in Hc. rewrite Hc.
  by rewrite (IH Ha).
Qed.

Lemma allChars_impl (p q : ascii → bool) (s : string) :
  (∀ c, p c = true → q c = true) → allChars p s = true → allChars q s = true.
Proof.
  intros Hpq. induction s as [|c s IH]; [done|]. simpl.
  intros [Hc Hs]%andb_true_iff. by rewrite (Hpq c Hc), (IH Hs).
Qed.

Lemma sessionId_colonFree (sid : string) :
  isSessionIdValid sid = true → Props.colonFree sid = true ∧ sid ≠ EmptyString.
Proof.
  unfold isSessionIdValid. intros [Hlen Hchars]%andb_true_iff. split.
  - revert Hchars. apply allChars_impl. intros c Hc.
    destruct (Ascii.eqb c ":") eqn:Heq; [|done].
    apply Ascii.eqb_eq in Heq as ->. done.
  - intros ->. done.
Qed.

Lemma includes_cases (l : list string) (P : string → Prop) (v : string) :
  Forall P l → Js.includes l v = true → P v.
Proof.
  intros Hall Hin. apply bool_decide_eq_true in Hin.
  rewrite Forall_forall in Hall. by apply Hall.
Qed.

Lemma feature_shape (f : string) :
  isSupportedFeature f = true → Props.colonFree f = true ∧ Js.truthy (Some f) = true.
Proof.
  apply (includes_cases _
           (λ v, Props.colonFree v = true ∧ Js.truthy (Some v) = true)).
  unfold RAW_MODAL_SUPPORTED_FEATURES. repeat constructor.
Qed.

Lemma flow_shape (fl : string) :
  isSupportedFlow fl = true → Props.colonFree fl = true ∧ Js.truthy (Some fl) = true.
Proof.
  apply (includes_cases _
           (λ v, Props.colonFree v = true ∧ Js.truthy (Some v) = true)).
  unfold RAW_MODAL_TODO_PILOT_FLOWS. repeat constructor.
Qed.

(** What [parseRawModalCustomId] accepts. *)
Lemma parse_Some_inv (customId : string) (p : IRawModalParsedCustomId) :
  parseRawModalCustomId customId = Some p →
  ∃ versionPart rest,
    Js.split ":" customId
    = RAW_MODAL_CUSTOM_ID_PREFIX :: parsed_feature p :: versionPart
      :: parsed_flow p :: parsed_sessionId p :: rest
    ∧ isSupportedFeature (parsed_feature p) = true
    ∧ isSupportedFlow (parsed_flow p) = true
    ∧ isSessionIdValid (parsed_sessionId p) = true
    ∧ Js.startsWith versionPart "v" = true
    ∧ Js.parseInt10 (Js.slice1 versionPart) = Some (version p)
    ∧ 1 ≤ version p.
Proof.
  unfold parseRawModalCustomId.
  destruct (Js.split ":" customId) as [|prefix [|f [|vp [|fl [|sid rest]]]]];
    try done.
  destruct (_ || _ || _ || _ || _); [done|].
  destruct (String.eqb prefix RAW_MODAL_CUSTOM_ID_PREFIX) eqn:Hprefix; [|done].
  apply String.eqb_eq in Hprefix as ->. simpl negb. cbv iota.
  destruct (isSupportedFeature f) eqn:Hf; [|done].
  destruct (isSupportedFlow fl) eqn:Hfl; [|done]. simpl negb. simpl orb. cbv iota.
  destruct (Js.startsWith vp "v") eqn:Hv; [|done].
  destruct (isSessionIdValid sid) eqn:Hsid; [|done]. simpl negb. cbv iota zeta.
  destruct (Js.parseInt10 (Js.slice1 vp)) as [v|] eqn:Hparse; [|done].
  destruct (negb _ || (v <? 1)) eqn:Hcheck; [done|].
  intros [= <-]. simpl. exists vp, rest.
  apply orb_false_iff in Hcheck as [_ Hge]. apply Z.ltb_ge in Hge.
  by split_and!.
Qed.

(** Encoding and decoding agree on every feature, every flow that
    [isSupportedFlow] knows and every valid session id that fits the length
    limit. *)
Lemma roundtrip_supported (parts : IRawModalCustomIdParts) :
  isSupportedFeature (feature parts) = true →
  isSupportedFlow (flow parts) = true →
  isSessionIdValid (sessionId parts) = true →
  (String.length
     (Js.join ":" [RAW_MODAL_CUSTOM_ID_PREFIX; feature parts; "v1"; flow parts;
                   sessionId parts]) ≤ 100)%nat →
  ∃ customId,
    buildRawModalCustomId parts = Ok customId
    ∧ parseRawModalCustomId customId
      = Some {| parsed_feature := feature parts; parsed_flow := flow parts;
                parsed_sessionId := sessionId parts;
                version := RAW_MODAL_SCHEMA_VERSION |}.
Proof.
  destruct parts as [f fl sid]. cbn [feature flow sessionId].
  intros Hf Hfl Hsid Hlen.
  destruct (feature_shape f Hf) as [Hf1 Hf2].
  destruct (flow_shape fl Hfl) as [Hfl1 Hfl2].
  destruct (sessionId_colonFree sid Hsid) as [Hsid1 Hsid2].
  set (id := "modal" +:+ String ":" (f +:+ String ":"
               ("v1" +:+ String ":" (fl +:+ String ":" sid)))).
  assert (Hjoin : Js.join ":" [RAW_MODAL_CUSTOM_ID_PREFIX; f;
                               "v" +:+ pretty RAW_MODAL_SCHEMA_VERSION; fl; sid]
                  = id) by reflexivity.
  change (String.length id ≤ 100)%nat in Hlen.
  exists id. split.
  - unfold buildRawModalCustomId. cbn [feature flow sessionId].
    rewrite Hf, Hfl, Hsid. cbn [negb]. cbv zeta. rewrite Hjoin.
    apply Nat.ltb_ge in Hlen. unfold MAX_DISCORD_CUSTOM_ID_LENGTH.
    by rewrite Hlen.
  - unfold parseRawModalCustomId. subst id.
    rewrite (split_segment "modal") by done.
    rewrite (split_segment f) by done.
    rewrite (split_segment "v1") by done.
    rewrite (split_segment fl) by done.
    rewrite (split_colonFree sid) by done.
    rewrite Hf2, Hfl2, Hf, Hfl, Hsid.
    assert (Js.truthy (Some sid) = true) as ->.
    { simpl. by destruct sid. }
    reflexivity.
Qed.

End Codec.

(** ** The feature gate and the router *)

Section RouterFacts.
Import Scope Session Router.
Implicit Types (w : World) (i : Interaction) (r : RawModalSessionRow).

Lemma pilot_feature_excluded (f : string) :
  f = "nominate" ∨ f = "round-history" → FeatureFlag.isRawModalPilotFeature f = false.
Proof. by intros [->| ->]. Qed.

(** A modal submission whose payload is valid, for a stored session of the
    submitting user that has expired: the session is marked expired if it
    was still open, and the user is told that it expired. *)
Lemma submit_on_expired_session nowCheck nowClaim i sid w r v :
  kind i = ModalSubmit →
  SubmitValidation.validateRawModalSubmitInteractionPayload
    (customId i) (components i) = Ok v →
  SubmitValidation.ok v = true →
  sessions w !! sid = Some r →
  OWNER_USER_ID r = userId i →
  EXPIRES_AT r ≤ nowCheck →
  handleManagedRawModalSubmit nowCheck nowClaim i sid w
  = (Ok tt,
     {| sessions := if bool_decide (STATUS r = open)
                    then <[sid := setStatus expired r]> (sessions w)
                    else sessions w;
        replies := replies w ++ [DeferredReply; EphemeralReply MSG_EXPIRED] |}).
Proof.
  intros Hkind Hvalid Hok Hsid Howner Hexp.
  unfold handleManagedRawModalSubmit, isModalSubmit. rewrite Hkind. cbn [negb].
  unfold safeDeferReply, sendSessionRecoveryMessage, safeReply, isRepliable.
  rewrite Hkind, Hvalid. cbn [negb].
  unfold mbind, M_bind, mret, M_ret, emit, liftResult, onTable,
    getRawModalSessionRecord.
  rewrite Hok. cbn [negb sessions replies]. rewrite Hsid.
  cbn [negb fmap option_fmap option_map].
  cbn [mapRawModalSessionRow ownerUserId status sessionId expiresAt
       isRawModalSessionExpired].
  rewrite Howner, String.eqb_refl. cbn [negb].
  unfold isRawModalSessionExpired. cbn [expiresAt].
  apply Z.leb_le in Hexp.
  change (expiresAt (mapRawModalSessionRow sid r)) with (EXPIRES_AT r).
  rewrite Hexp.
  destruct (bool_decide (STATUS r = open)).
  - unfold expireRawModalSession. rewrite updateRawModalSessionStatus_eq.
    cbn [sessions replies]. rewrite Hsid. cbn [sessions replies].
    by rewrite <- app_assoc.
  - cbn [sessions replies]. by rewrite <- app_assoc.
Qed.

Lemma parsed_has_prefix (customId : string) (p : CustomId.IRawModalParsedCustomId) :
  CustomId.parseRawModalCustomId customId = Some p →
  Js.truthy (Some customId) = true ∧ Js.startsWith customId RAW_MODAL_PREFIX = true.
Proof.
  intros (vp & rest & Hsplit & _)%parse_Some_inv.
  assert (Hpre : ∀ (a : string) s b segs,
            Js.split ":" s = a :: b :: segs →
            String.prefix (a +:+ ":") s = true).
  { clear. intros a s. revert a. induction s as [|c s IH]; intros a b segs; [done|].
    simpl. destruct (Ascii.eqb c ":") eqn:Hc.
    - apply Ascii.eqb_eq in Hc as ->. intros [= <- _]. simpl. by destruct s.
    - destruct (Js.split ":" s) as [|seg segs'] eqn:Hs; [done|].
      intros [= <- ->]. simpl. destruct (ascii_dec c c); [|done].
      by apply (IH seg b segs). }
  split.
  - destruct customId; [done|done].
  - unfold Js.startsWith, RAW_MODAL_PREFIX. by eapply Hpre.
Qed.

(** The router hands a decodable submission of an enabled feature to
    [handleManagedRawModalSubmit] and reports it as handled. *)
Lemma route_submission env nowCheck nowClaim i w p w' :
  kind i = ModalSubmit →
  CustomId.parseRawModalCustomId (customId i) = Some p →
  FeatureFlag.isRawModalPilotEnabled env (CustomId.parsed_feature p) (guildId i) = true →
  handleManagedRawModalSubmit nowCheck nowClaim i (CustomId.parsed_sessionId p) w
  = (Ok tt, w') →
  tryHandleManagedRawModalInteraction env nowCheck nowClaim i w = (Ok true, w').
Proof.
  intros Hkind Hparse Hgate Hsubmit.
  destruct (parsed_has_prefix _ _ Hparse) as [Htruthy Hprefix].
  unfold tryHandleManagedRawModalInteraction, getInteractionCustomId,
    isMessageComponent, isModalSubmit.
  rewrite Hkind, Htruthy, Hprefix, Hparse, Hgate. cbn [negb orb].
  unfold mbind, M_bind, tryCatch. by rewrite Hsubmit.
Qed.

End RouterFacts.

(** ** Evaluations on the sample data *)

Section Evaluations.
Import Session Router Samples.

Example claim_open_session :
  claimRawModalSessionForSubmit "abc123" "user-1" now (table open (now + 60000))
  = (true, table submitted (now + 60000)).
Proof. by vm_compute. Qed.

Example claim_wrong_owner :
  claimRawModalSessionForSubmit "abc123" "user-2" now (table open (now + 60000))
  = (false, table open (now + 60000)).
Proof. by vm_compute. Qed.

Example claim_at_expiry :
  claimRawModalSessionForSubmit "abc123" "user-1" now (table open now)
  = (false, table open now).
Proof. by vm_compute. Qed.

Example sweep_keeps_submitted :
  deleteExpiredRawModalSessions now
    (<["old" := row submitted (now - 1)]> (table expired (now - 1)))
  = (1%nat, {["old" := row submitted (now - 1)]}).
Proof. by vm_compute. Qed.

Example expiry_floor : buildRawModalSessionExpiry now (-5) = Some (now + 60000).
Proof. reflexivity. Qed.

Example parse_wire_identifier :
  CustomId.parseRawModalCustomId "modal:todo:v1:create:abc123"
  = Some {| CustomId.parsed_feature := "todo"; CustomId.parsed_flow := "create";
            CustomId.parsed_sessionId := "abc123"; CustomId.version := 1 |}.
Proof. by vm_compute. Qed.

Example parse_rejects_other_prefix :
  CustomId.parseRawModalCustomId "modul:todo:v1:create:abc123" = None.
Proof. by vm_compute. Qed.

Example parse_rejects_four_segments :
  CustomId.parseRawModalCustomId "modal:todo:v1:create" = None.
Proof. by vm_compute. Qed.

Example parse_rejects_version_zero :
  CustomId.parseRawModalCustomId "modal:todo:v0:create:abc123" = None.
Proof. by vm_compute. Qed.

Example gate_denies_unlisted_guild :
  FeatureFlag.isRawModalPilotEnabled
    (<["RAW_MODAL_PILOT_GUILD_IDS" := " guild-2 , guild-3"]> env) "todo" (Some "guild-1")
  = false.
Proof. by vm_compute. Qed.

Example route_missing_session :
  tryHandleManagedRawModalInteraction env now now
    (submission "modal:todo:v1:create:abc123" [textField]) (world ∅)
  = (Ok true, {| sessions := ∅;
                 replies := [DeferredReply; EphemeralReply MSG_NOT_FOUND] |}).
Proof. by vm_compute. Qed.

Example route_accepts_live_session :
  tryHandleManagedRawModalInteraction env now now
    (submission "modal:todo:v1:create:abc123" [textField])
    (world (table open (now + 60000)))
  = (Ok true, {| sessions := table submitted (now + 60000);
                 replies := [DeferredReply; EphemeralReply MSG_ACCEPTED] |}).
Proof. by vm_compute. Qed.

End Evaluations.

(** ** The claims on the codec, the validator and the API service *)

Section CodecClaims.
Import Scope CustomId Samples.

(** C5. The encoder refuses the flow review-decision although it is a value
    of RawModalFlow, the feature is supported and the session id is valid:
    [isSupportedFlow] looks the flow up among the todo flows only. *)
Theorem build_rejects_review_decision :
  "review-decision" ∈ RawModalFlow
  ∧ isSupportedFeature "suggestion" = true
  ∧ isSessionIdValid "suggestion-7" = true
  ∧ (String.length "modal:suggestion:v1:review-decision:suggestion-7" ≤ 100)%nat
  ∧ buildRawModalCustomId
      {| feature := "suggestion"; flow := "review-decision";
         sessionId := "suggestion-7" |}
    = Throw "Unsupported raw modal flow: review-decision"
  ∧ parseRawModalCustomId "modal:suggestion:v1:review-decision:suggestion-7" = None.
Proof.
  split_and!; try by vm_compute.
  - unfold RawModalFlow, RAW_MODAL_TODO_PILOT_FLOWS, RAW_MODAL_SUGGESTION_PILOT_FLOWS.
    set_solver.
  - vm_compute. lia.
Qed.

(** C6. The decoder accepts strings outside the grammar: segments after
    the fifth are ignored, and so is what follows the digits of the version
    segment. *)
Theorem parse_accepts_outside_grammar :
  length (Js.split ":" "modal:todo:v1:create:abc123:extra") = 6%nat
  ∧ parseRawModalCustomId "modal:todo:v1:create:abc123:extra"
    = Some {| parsed_feature := "todo"; parsed_flow := "create";
              parsed_sessionId := "abc123"; version := 1 |}
  ∧ Props.isDigits (Js.slice1 "v1x") = false
  ∧ parseRawModalCustomId "modal:todo:v1x:create:abc123"
    = Some {| parsed_feature := "todo"; parsed_flow := "create";
              parsed_sessionId := "abc123"; version := 1 |}.
Proof. split_and!; by vm_compute. Qed.

End CodecClaims.

Section ValidatorClaims.
Import Discord SubmitValidation Samples.

(** The validator of the router has no case for radio groups: whatever the
    value, a radio group with a well-formed custom id is an unsupported
    field. *)
Lemma router_validator_rejects_radio_groups (field : ModalData) :
  type field = RadioGroup →
  ok (validateCustomId (customId field)) = true →
  validateModalField field = Ok (invalid "unsupported modal field type").
Proof.
  intros Htype Hid. unfold validateModalField. by rewrite Hid, Htype.
Qed.

(** C8. A submission whose only field is a radio group with a string value,
    or with null, is rejected by the validator the router runs, as an
    unsupported field type, and the router answers that the payload was
    invalid; [validateSubmitComponents] of the API service accepts the same
    radio groups. *)
Theorem router_rejects_radio_group_submission :
  validateRawModalSubmitInteractionPayload "modal:todo:v1:create:abc123"
    [LabelModalData (radioField (PString "a"))]
  = Ok (invalid "unsupported modal field type")
  ∧ validateRawModalSubmitInteractionPayload "modal:todo:v1:create:abc123"
      [LabelModalData (radioField PNull)]
    = Ok (invalid "unsupported modal field type")
  ∧ Router.tryHandleManagedRawModalInteraction env now now
      (submission "modal:todo:v1:create:abc123" [radioField (PString "a")])
      (world (table Session.open (now + 60000)))
    = (Ok true,
       {| Router.sessions := table Session.open (now + 60000);
          Router.replies :=
            [Router.DeferredReply;
             Router.EphemeralReply Router.MSG_INVALID_PAYLOAD] |})
  ∧ ApiService.validateSubmitComponents (Some (rawRadio (PString "a"))) = valid
  ∧ ApiService.validateSubmitComponents (Some (rawRadio PNull)) = valid
  ∧ ApiService.validateSubmitComponents (Some (rawRadio (PBool true)))
    = invalid "radio group value is invalid".
Proof. split_and!; by vm_compute. Qed.

End ValidatorClaims.

Section ApiServiceClaims.
Import ApiService Samples.

(** C9, as stated, fails: the request of the suggestion review carries its
    own custom id, which is posted as it is; it is not the encoding of the
    request's feature, flow and session id, which the encoder refuses. *)
Lemma open_modal_posts_given_custom_id :
  openModal (λ _, Ok tt) reviewRequest
  = (Ok tt,
     [{| callback_interactionId := "1"; callback_interactionToken := "token";
         custom_id := "suggestion-review-decision:42:7";
         callback_title := "Suggestion Review Decision";
         callback_components := [] |}])
  ∧ CustomId.buildRawModalCustomId
      {| CustomId.feature := feature reviewRequest;
         CustomId.flow := flow reviewRequest;
         CustomId.sessionId := sessionId reviewRequest |}
    ≠ Ok "suggestion-review-decision:42:7"
  ∧ CustomId.parseRawModalCustomId "suggestion-review-decision:42:7" = None.
Proof. split_and!; by vm_compute. Qed.

(** C9, as the code has it. Whatever the outcome of the post, openModal
    posts at most one payload; its custom id is the one the request carries
    if it carries one, and otherwise the encoding of the request's feature,
    flow and session id; in both cases it is not empty and at most 100
    characters long. *)
Theorem open_modal_custom_id (post : ModalCallback → Result unit)
    (request : IRawModalOpenRequest) (payload : ModalCallback) :
  payload ∈ (openModal post request).2 →
  (openModal post request).2 = [payload]
  ∧ (openModal post request).1 = post payload
  ∧ match customId request with
    | Some given => custom_id payload = given
    | None =>
        CustomId.buildRawModalCustomId
          {| CustomId.feature := feature request;
             CustomId.flow := flow request;
             CustomId.sessionId := sessionId request |}
        = Ok (custom_id payload)
    end
  ∧ custom_id payload ≠ EmptyString
  ∧ (String.length (custom_id payload) ≤ 100)%nat.
Proof.
  unfold openModal.
  set (built := match customId request with
                | Some given => Ok given
                | None => CustomId.buildRawModalCustomId _
                end).
  assert (Hbuilt : ∀ id, built = Ok id →
            match customId request with
            | Some given => id = given
            | None => CustomId.buildRawModalCustomId
                        {| CustomId.feature := feature request;
                           CustomId.flow := flow request;
                           CustomId.sessionId := sessionId request |} = Ok id
            end).
  { subst built. destruct (customId request); [by intros id [= ->]|done]. }
  destruct built as [id|e]; [|by intros ?%elem_of_nil].
  specialize (Hbuilt id eq_refl).
  destruct (negb (Js.truthy (Some id)) || (100 <? String.length id)%nat) eqn:Hcheck;
    [by intros ?%elem_of_nil|].
  apply orb_false_iff in Hcheck as [Hid Hlen].
  apply Nat.ltb_ge in Hlen. cbn [fst snd].
  intros ->%list_elem_of_singleton. cbn [custom_id].
  split_and!; try done. intros ->. done.
Qed.

End ApiServiceClaims.

Section ApiServiceWitness.
Import ApiService Samples.

Lemma open_modal_custom_id_witness :
  (openModal (λ _, Ok tt) nominateRequest).2
  = [{| callback_interactionId := "1"; callback_interactionToken := "token";
        custom_id := "modal:nominate:v1:create:nominate-42-7";
        callback_title := "Nominate"; callback_components := [] |}]
  ∧ CustomId.buildRawModalCustomId
      {| CustomId.feature := "nominate"; CustomId.flow := "create";
         CustomId.sessionId := "nominate-42-7" |}
    = Ok "modal:nominate:v1:create:nominate-42-7".
Proof.
  pose proof (open_modal_custom_id (λ _, Ok tt) nominateRequest
    {| callback_interactionId := "1"; callback_interactionToken := "token";
       custom_id := "modal:nominate:v1:create:nominate-42-7";
       callback_title := "Nominate"; callback_components := [] |}) as H.
  destruct H as (Hposted & _ & Hid & _).
  - vm_compute. apply list_elem_of_here.
  - split; [exact Hposted|exact Hid].
Defined.

End ApiServiceWitness.

Section RouterClaims.
Import Scope Session Router Samples.
Implicit Types (w : World) (i : Interaction) (r : RawModalSessionRow).

(** C4, as stated, fails: the session abc123 of user-1 expired one second
    ago and is still open. The first submission marks it expired and
    answers that it expired; a second submission five seconds later gets
    the same answer, not the answer that the session is no longer active
    (and not the answer that it was not found). *)
Lemma second_attempt_reports_expiry_again :
  let i := submission "modal:todo:v1:create:abc123" [textField] in
  let first :=
    tryHandleManagedRawModalInteraction env now now i
      (world (table open (now - 1000))) in
  let second :=
    tryHandleManagedRawModalInteraction env (now + 5000) (now + 5000) i
      (world (sessions first.2)) in
  first = (Ok true, {| sessions := table expired (now - 1000);
                       replies := [DeferredReply; EphemeralReply MSG_EXPIRED] |})
  ∧ second = (Ok true, {| sessions := table expired (now - 1000);
                          replies := [DeferredReply; EphemeralReply MSG_EXPIRED] |})
  ∧ replies second.2 ≠ [DeferredReply; EphemeralReply MSG_NOT_ACTIVE]
  ∧ replies second.2 ≠ [DeferredReply; EphemeralReply MSG_NOT_FOUND].
Proof. split_and!; by vm_compute. Qed.

(** C4, as the code has it. A valid submission by the owner of a stored
    session that is open and has expired is handled: the stored status of
    the session becomes expired, its other columns and the other sessions
    are kept, and the reply is the expiry message. A later submission by the
    owner is handled too, changes nothing in the table, and is answered
    with the expiry message again: the router tests the expiry before the
    status. *)
Theorem expired_session_reports_expiry_on_every_attempt
    env (now1 claim1 now2 claim2 : Z) i
    (p : CustomId.IRawModalParsedCustomId)
    (v : SubmitValidation.IRawModalSubmitValidationResult) (t : Table) r :
  kind i = ModalSubmit →
  CustomId.parseRawModalCustomId (customId i) = Some p →
  FeatureFlag.isRawModalPilotEnabled env (CustomId.parsed_feature p) (guildId i) = true →
  SubmitValidation.validateRawModalSubmitInteractionPayload
    (customId i) (components i) = Ok v →
  SubmitValidation.ok v = true →
  t !! CustomId.parsed_sessionId p = Some r →
  OWNER_USER_ID r = userId i →
  STATUS r = open →
  EXPIRES_AT r ≤ now1 →
  now1 ≤ now2 →
  let first :=
    tryHandleManagedRawModalInteraction env now1 claim1 i
      {| sessions := t; replies := [] |} in
  let second :=
    tryHandleManagedRawModalInteraction env now2 claim2 i
      {| sessions := sessions first.2; replies := [] |} in
  first.1 = Ok true
  ∧ replies first.2 = [DeferredReply; EphemeralReply MSG_EXPIRED]
  ∧ (∃ r1, sessions first.2 !! CustomId.parsed_sessionId p = Some r1
           ∧ STATUS r1 = expired
           ∧ Props.sameExceptStatus r r1)
  ∧ (∀ k, k ≠ CustomId.parsed_sessionId p → sessions first.2 !! k = t !! k)
  ∧ second.1 = Ok true
  ∧ replies second.2 = [DeferredReply; EphemeralReply MSG_EXPIRED]
  ∧ sessions second.2 = sessions first.2.
Proof.
  intros Hkind Hparse Hgate Hvalid Hok Hsid Howner Hopen Hexp Hlater.
  set (sid := CustomId.parsed_sessionId p) in *.
  set (t' := <[sid := setStatus expired r]> t).
  destruct (setStatus_spec expired r) as [Hstatus Hsame].
  assert (Hfirst : tryHandleManagedRawModalInteraction env now1 claim1 i
                     {| sessions := t; replies := [] |}
                   = (Ok true, {| sessions := t';
                        replies := [DeferredReply; EphemeralReply MSG_EXPIRED] |})).
  { apply (route_submission _ _ _ _ _ p); try done.
    rewrite (submit_on_expired_session _ _ _ _ _ r v) by done.
    cbn [sessions replies]. by rewrite Hopen. }
  assert (Hsecond : tryHandleManagedRawModalInteraction env now2 claim2 i
                      {| sessions := t'; replies := [] |}
                    = (Ok true, {| sessions := t';
                         replies := [DeferredReply; EphemeralReply MSG_EXPIRED] |})).
  { apply (route_submission _ _ _ _ _ p); try done.
    rewrite (submit_on_expired_session _ _ _ _ _ (setStatus expired r) v);
      try done.
    - apply lookup_insert_eq.
    - destruct Hsame as (_ & _ & _ & _ & He & _). rewrite He. lia. }
  cbv zeta. rewrite Hfirst. cbn [fst snd sessions replies]. rewrite Hsecond.
  cbn [fst snd sessions replies]. split_and!; try done.
  - exists (setStatus expired r). split; [apply lookup_insert_eq|done].
  - intros k Hk. unfold t'. by rewrite lookup_insert_ne.
Qed.

Lemma expired_session_reports_expiry_on_every_attempt_witness :
  let first :=
    tryHandleManagedRawModalInteraction env now now
      (submission "modal:todo:v1:create:abc123" [textField])
      {| sessions := table open (now - 1000); replies := [] |} in
  let second :=
    tryHandleManagedRawModalInteraction env (now + 5000) (now + 5000)
      (submission "modal:todo:v1:create:abc123" [textField])
      {| sessions := sessions first.2; replies := [] |} in
  first.1 = Ok true
  ∧ replies first.2 = [DeferredReply; EphemeralReply MSG_EXPIRED]
  ∧ (∃ r1, sessions first.2 !! "abc123" = Some r1
           ∧ STATUS r1 = expired
           ∧ Props.sameExceptStatus (row open (now - 1000)) r1)
  ∧ (∀ k, k ≠ "abc123" → sessions first.2 !! k = table open (now - 1000) !! k)
  ∧ second.1 = Ok true
  ∧ replies second.2 = [DeferredReply; EphemeralReply MSG_EXPIRED]
  ∧ sessions second.2 = sessions first.2.
Proof.
  apply (expired_session_reports_expiry_on_every_attempt
           env now now (now + 5000) (now + 5000)
           (submission "modal:todo:v1:create:abc123" [textField])
           {| CustomId.parsed_feature := "todo"; CustomId.parsed_flow := "create";
              CustomId.parsed_sessionId := "abc123"; CustomId.version := 1 |}
           SubmitValidation.valid
           (table open (now - 1000)) (row open (now - 1000)));
    try (vm_compute; reflexivity); vm_compute; discriminate.
Defined.

(** C10. Whatever the environment and the guild, the pilot is not enabled
    for the features nominate and round-history, which are not pilot
    features; hence the router does not handle an event whose custom id
    decodes to one of them: it returns handled = false, sends nothing and
    leaves the sessions alone. *)
Theorem gate_excludes_nominate_and_round_history
    (env : FeatureFlag.Env) (feature : string) :
  feature = "nominate" ∨ feature = "round-history" →
  (∀ guildId, FeatureFlag.isRawModalPilotEnabled env feature guildId = false)
  ∧ (∀ nowCheck nowClaim i (p : CustomId.IRawModalParsedCustomId) w,
       CustomId.parseRawModalCustomId (customId i) = Some p →
       CustomId.parsed_feature p = feature →
       tryHandleManagedRawModalInteraction env nowCheck nowClaim i w
       = (Ok false, w)).
Proof.
  intros Hfeature.
  assert (Hgate : ∀ guildId,
            FeatureFlag.isRawModalPilotEnabled env feature guildId = false).
  { intros guildId. unfold FeatureFlag.isRawModalPilotEnabled.
    rewrite (pilot_feature_excluded feature Hfeature).
    by destruct (FeatureFlag.isRawImprovedModalsEnabled env). }
  split; [exact Hgate|].
  intros nowCheck nowClaim i p w Hparse Hp.
  unfold tryHandleManagedRawModalInteraction.
  destruct (getInteractionCustomId i) as [id|] eqn:Hid; [|done].
  assert (id = customId i) as ->.
  { unfold getInteractionCustomId in Hid.
    destruct (isMessageComponent i), (isModalSubmit i); congruence. }
  destruct (negb _ || negb _); [done|].
  by rewrite Hparse, Hp, Hgate.
Qed.

Lemma gate_excludes_nominate_and_round_history_witness :
  FeatureFlag.isRawModalPilotEnabled env "nominate" (Some "guild-1") = false
  ∧ tryHandleManagedRawModalInteraction env now now
      (submission "modal:nominate:v1:create:abc123" [textField])
      (world (table open (now + 60000)))
    = (Ok false, world (table open (now + 60000))).
Proof.
  destruct (gate_excludes_nominate_and_round_history env "nominate")
    as [Hgate Hroute]; [by left|].
  split; [apply Hgate|].
  apply (Hroute now now _
           {| CustomId.parsed_feature := "nominate"; CustomId.parsed_flow := "create";
              CustomId.parsed_sessionId := "abc123"; CustomId.version := 1 |});
    by vm_compute.
Defined.

End RouterClaims.

Section StoreClaims.
Import Session StoreOps Concurrent Samples.

(** C3, as stated, fails: the status writes are unconditional. Expiring a
    submitted session moves it from submitted to expired, and a status
    update can reopen it. *)
Lemma status_write_leaves_submitted :
  table submitted (now + 60000) !! "abc123" = Some (row submitted (now + 60000))
  ∧ runOps [OpExpire "abc123"] (table submitted (now + 60000)) !! "abc123"
    = Some (row expired (now + 60000))
  ∧ runOps [OpUpdateStatus {| update_sessionId := "abc123"; update_status := open |}]
      (table submitted (now + 60000)) !! "abc123"
    = Some (row open (now + 60000))
  ∧ ¬ monotonic submitted expired
  ∧ ¬ monotonic submitted open.
Proof.
  split_and!; try by vm_compute.
  - by intros [|[]].
  - by intros [|[]].
Qed.

(** A run on two sessions: the stale session other is expired while it is
    open, abc123 is claimed; then abc123 is claimed again, created again and
    a missing session is written to. From the claim on, abc123 is submitted
    and stays submitted. *)
Lemma status_monotonic_under_guarded_operations_witness :
  ∃ r1 r2,
    runOps [OpExpire "other"; OpClaim "abc123" "user-1" now]
      (<["other" := row open (now - 1000)]> (table open (now + 60000))) !! "abc123"
    = Some r1
    ∧ runOps ([OpExpire "other"; OpClaim "abc123" "user-1" now]
              ++ [OpClaim "abc123" "user-1" (now + 1); OpCreate createInput;
                  OpUpdateStatus {| update_sessionId := "missing";
                                    update_status := open |}])
        (<["other" := row open (now - 1000)]> (table open (now + 60000))) !! "abc123"
      = Some r2
    ∧ STATUS r1 = submitted
    ∧ STATUS r2 = submitted.
Proof.
  destruct (status_monotonic_under_guarded_operations
              [OpExpire "other"; OpClaim "abc123" "user-1" now]
              [OpClaim "abc123" "user-1" (now + 1); OpCreate createInput;
               OpUpdateStatus {| update_sessionId := "missing";
                                 update_status := open |}]
              (<["other" := row open (now - 1000)]> (table open (now + 60000)))
              "abc123" (row open (now + 60000)))
    as (r1 & r2 & Hr1 & Hr2 & _ & _ & Hsub & _).
  - cbn [app allGuarded]. split_and!; [| | | | |exact I].
    + intros sid r [= <-] Hr. vm_compute in Hr. by injection Hr as <-.
    + intros sid r [=].
    + intros sid r [=].
    + intros sid r [=].
    + intros sid r [= <-] Hr. vm_compute in Hr. discriminate.
  - by vm_compute.
  - assert (Hstatus : STATUS r1 = submitted).
    { vm_compute in Hr1. by injection Hr1 as <-. }
    exists r1, r2. split_and!; [exact Hr1|exact Hr2|exact Hstatus|exact (Hsub Hstatus)].
Defined.

Lemma concurrent_claims_single_winner_witness :
  (∃ final, steps (start (table open (now + 60000)) "abc123" "user-1"
                     [now; now; now + 250]) final
            ∧ finished final)
  ∧ ∀ final,
      steps (start (table open (now + 60000)) "abc123" "user-1"
               [now; now; now + 250]) final →
      finished final →
      countReturned true final.2 = 1%nat
      ∧ countReturned false final.2 = (3 - 1)%nat
      ∧ ∃ r', final.1 !! "abc123" = Some r' ∧ STATUS r' = submitted.
Proof.
  apply (concurrent_claims_single_winner "abc123" "user-1" [now; now; now + 250]
           (table open (now + 60000)) (row open (now + 60000))).
  - simpl. lia.
  - by vm_compute.
  - repeat constructor; by vm_compute.
Defined.

End StoreClaims.

(** * Further properties *)

(** ** Decimal digits *)

Section Digits.
Import CustomId.

Lemma digitValue_pretty_N_char (d : N) :
  (d < 10)%N → Js.digitValue (pretty_N_char d) = Some (Z.of_N d).
Proof.
  intros Hd.
  assert (d = 0 ∨ d = 1 ∨ d = 2 ∨ d = 3 ∨ d = 4 ∨ d = 5 ∨ d = 6 ∨ d = 7
          ∨ d = 8 ∨ d = 9)%N as Hcases by lia.
  repeat (destruct Hcases as [->|Hcases]; [reflexivity|]). by subst.
Qed.

Lemma pretty_N_go_app (x : N) (s1 s2 : string) :
  pretty_N_go x (s1 +:+ s2) = pretty_N_go x s1 +:+ s2.
Proof.
  revert s1. induction (N.lt_wf_0 x) as [x _ IH]. intros s1.
  destruct (decide (x = 0)%N) as [->|Hx]; [by rewrite !pretty_N_go_0|].
  rewrite (pretty_N_go_step x (s1 +:+ s2)), (pretty_N_go_step x s1) by lia.
  apply (IH (x `div` 10)%N (N.div_lt x 10 ltac:(lia) ltac:(lia))
            (String (pretty_N_char (x `mod` 10)) s1)).
Qed.

(** Reading the digits of a positive number back gives the number. *)
Lemma readDigits_pretty_N_go (x : N) (s : string) :
  (0 < x)%N →
  ∃ k : Z, 0 ≤ k ∧ ∀ acc seen,
    Js.readDigits (pretty_N_go x s) acc seen
    = Js.readDigits s (acc * 10 ^ k + Z.of_N x) true.
Proof.
  revert s. induction (N.lt_wf_0 x) as [x _ IH]. intros s Hx.
  rewrite pretty_N_go_step by done.
  assert (Hmod : (x `mod` 10 < 10)%N) by (apply N.mod_lt; lia).
  assert (Hdiv : x = (10 * (x `div` 10) + x `mod` 10)%N)
    by (apply N.div_mod; lia).
  destruct (decide (x `div` 10 = 0)%N) as [H0|Hpos].
  - rewrite H0, pretty_N_go_0. exists 1. split; [lia|]. intros acc seen.
    cbn [Js.readDigits]. rewrite digitValue_pretty_N_char by done.
    f_equal. lia.
  - destruct (IH (x `div` 10)%N) with (s := String (pretty_N_char (x `mod` 10)) s)
      as (k & Hk & Hread); [apply N.div_lt; lia|by apply N.neq_0_lt_0|].
    exists (k + 1). split; [lia|]. intros acc seen. rewrite Hread.
    cbn [Js.readDigits]. rewrite digitValue_pretty_N_char by done.
    f_equal. rewrite Z.pow_add_r by lia. lia.
Qed.

Lemma isDigit_pretty_N_char (d : N) :
  (d < 10)%N → JsText.isDigit (pretty_N_char d) = true.
Proof.
  intros Hd. unfold JsText.isDigit.
  by rewrite digitValue_pretty_N_char.
Qed.

Lemma allDigits_pretty_N_go (x : N) (s : string) :
  allChars JsText.isDigit s = true →
  allChars JsText.isDigit (pretty_N_go x s) = true.
Proof.
  revert s. induction (N.lt_wf_0 x) as [x _ IH]. intros s Hs.
  destruct (decide (x = 0)%N) as [->|Hx]; [by rewrite pretty_N_go_0|].
  rewrite pretty_N_go_step by lia. apply IH; [apply N.div_lt; lia|].
  cbn [allChars]. rewrite isDigit_pretty_N_char; [done|].
  apply N.mod_lt. lia.
Qed.

Lemma pretty_N_go_nonempty (x : N) (s : string) :
  (0 < x)%N → pretty_N_go x s ≠ EmptyString.
Proof.
  revert s. induction (N.lt_wf_0 x) as [x _ IH]. intros s Hx.
  rewrite pretty_N_go_step by done.
  destruct (decide (x `div` 10 = 0)%N) as [->|Hpos];
    [by rewrite pretty_N_go_0|].
  apply IH; [apply N.div_lt; lia|by apply N.neq_0_lt_0].
Qed.

(** The decimal digits of a positive integer. *)
Lemma numberToString_positive (n : Z) :
  0 < n →
  allChars JsText.isDigit (JsText.numberToString n) = true
  ∧ JsText.numberToString n ≠ EmptyString
  ∧ ∀ rest, ∃ k, 0 ≤ k ∧ ∀ acc seen,
      Js.readDigits (JsText.numberToString n +:+ rest) acc seen
      = Js.readDigits rest (acc * 10 ^ k + n) true.
Proof.
  intros Hn. destruct n as [|p|p]; try lia.
  unfold JsText.numberToString, pretty, pretty_Z, pretty, pretty_positive,
    pretty, pretty_N.
  rewrite decide_False by done.
  split_and!.
  - by apply allDigits_pretty_N_go.
  - by apply pretty_N_go_nonempty.
  - intros rest. rewrite <- pretty_N_go_app. cbn [String.append].
    destruct (readDigits_pretty_N_go (N.pos p) rest) as (k & Hk & Hread);
      [done|].
    exists k. split; [done|]. intros acc seen. by rewrite Hread.
Qed.

End Digits.

(** ** More on the custom id codec *)

Section CodecMore.
Import Scope CustomId.

Lemma length_append (a b : string) :
  String.length (a +:+ b) = (String.length a + String.length b)%nat.
Proof.
  induction a as [|c a IH]; [done|].
  change (S (String.length (a +:+ b)) = S (String.length a + String.length b)).
  by rewrite IH.
Qed.

(** The characters of a string are those of its segments and one colon
    between two segments. *)
Lemma length_split (s : string) :
  (String.length s + 1)%nat
  = sum_list ((λ seg, (String.length seg + 1)%nat) <$> Js.split ":" s).
Proof.
  induction s as [|c s IH]; [done|]. cbn [Js.split].
  destruct (Ascii.eqb c ":").
  - rewrite fmap_cons. change (sum_list (?x :: ?l)) with (x + sum_list l)%nat.
    rewrite <- IH. cbn [String.length]. lia.
  - destruct (Js.split ":" s) as [|seg segs].
    + rewrite fmap_nil in IH. change (sum_list []) with 0%nat in IH. lia.
    + rewrite !fmap_cons in *.
      change (sum_list (?x :: ?l)) with (x + sum_list l)%nat in *.
      cbn [String.length] in *. lia.
Qed.

Lemma append_empty_r (s : string) : s +:+ "" = s.
Proof.
  induction s as [|c s IH]; [done|].
  change (String c (s +:+ "") = String c s). by rewrite IH.
Qed.

Lemma join_five (a b c d e : string) :
  Js.join ":" [a; b; c; d; e]
  = a +:+ String ":" (b +:+ String ":" (c +:+ String ":" (d +:+ String ":" e))).
Proof. reflexivity. Qed.

Lemma length_join_five (a b c d e : string) :
  String.length (Js.join ":" [a; b; c; d; e])
  = (String.length a + String.length b + String.length c + String.length d
     + String.length e + 4)%nat.
Proof.
  rewrite join_five. repeat (rewrite length_append; cbn [String.length]). lia.
Qed.

Lemma colonFree_digits (s : string) :
  allChars JsText.isDigit s = true → Props.colonFree s = true.
Proof.
  apply allChars_impl. intros c Hc.
  destruct (Ascii.eqb c ":") eqn:Heq; [|done].
  apply Ascii.eqb_eq in Heq as ->. done.
Qed.

(** The identifier the encoder writes for given parts. *)
Lemma build_Ok_inv (parts : IRawModalCustomIdParts) (customId : string) :
  buildRawModalCustomId parts = Ok customId →
  isSupportedFeature (feature parts) = true
  ∧ isSupportedFlow (flow parts) = true
  ∧ isSessionIdValid (sessionId parts) = true
  ∧ customId = Js.join ":" [RAW_MODAL_CUSTOM_ID_PREFIX; feature parts; "v1";
                            flow parts; sessionId parts]
  ∧ (String.length customId ≤ 100)%nat.
Proof.
  unfold buildRawModalCustomId.
  destruct (isSupportedFeature (feature parts)); [|done].
  destruct (isSupportedFlow (flow parts)); [|done].
  destruct (isSessionIdValid (sessionId parts)); [|done].
  cbn [negb]. cbv zeta.
  change ("v" +:+ pretty RAW_MODAL_SCHEMA_VERSION) with "v1".
  unfold MAX_DISCORD_CUSTOM_ID_LENGTH.
  destruct (100 <? _)%nat eqn:Hlen; [done|].
  intros [= <-]. apply Nat.ltb_ge in Hlen. done.
Qed.

(** X1. The encoder returns an identifier exactly when the feature is a
    supported feature, the flow is one of the flows [isSupportedFlow] knows,
    the session id matches the pattern and the composed identifier has at
    most 100 characters; the identifier is then the five parts joined by
    colons, with the version segment v1. In every other case it throws. *)
Theorem build_succeeds_iff (parts : IRawModalCustomIdParts) (customId : string) :
  buildRawModalCustomId parts = Ok customId
  ↔ isSupportedFeature (feature parts) = true
    ∧ isSupportedFlow (flow parts) = true
    ∧ isSessionIdValid (sessionId parts) = true
    ∧ (String.length (feature parts) + String.length (flow parts)
       + String.length (sessionId parts) + 11 ≤ 100)%nat
    ∧ customId = "modal:" +:+ feature parts +:+ ":v1:" +:+ flow parts
                 +:+ ":" +:+ sessionId parts.
Proof.
  split.
  - intros (Hf & Hfl & Hsid & -> & Hlen)%build_Ok_inv.
    rewrite length_join_five in Hlen. unfold RAW_MODAL_CUSTOM_ID_PREFIX in Hlen.
    cbn [String.length] in Hlen. split_and!; try done. lia.
  - intros (Hf & Hfl & Hsid & Hlen & ->).
    destruct (roundtrip_supported parts Hf Hfl Hsid) as (id & Hbuild & _).
    + rewrite length_join_five. unfold RAW_MODAL_CUSTOM_ID_PREFIX.
      cbn [String.length]. lia.
    + rewrite Hbuild. by apply build_Ok_inv in Hbuild as (_ & _ & _ & -> & _).
Qed.

(** X2. Decoding what the encoder returns gives back the feature, the flow
    and the session id, with the current schema version; the identifier
    starts with the prefix the router looks for. *)
Theorem encode_then_decode (parts : IRawModalCustomIdParts) (customId : string) :
  buildRawModalCustomId parts = Ok customId →
  parseRawModalCustomId customId
  = Some {| parsed_feature := feature parts; parsed_flow := flow parts;
            parsed_sessionId := sessionId parts;
            version := RAW_MODAL_SCHEMA_VERSION |}
  ∧ Js.startsWith customId Router.RAW_MODAL_PREFIX = true.
Proof.
  intros Hbuild.
  pose proof (build_Ok_inv _ _ Hbuild) as (Hf & Hfl & Hsid & Hid & Hlen).
  destruct (roundtrip_supported parts Hf Hfl Hsid) as (id & Hbuild' & Hparse).
  { by rewrite <- Hid. }
  assert (id = customId) as -> by congruence.
  split; [done|]. by destruct (parsed_has_prefix _ _ Hparse).
Qed.

Lemma encode_then_decode_witness :
  parseRawModalCustomId "modal:todo:v1:edit-title:abc_123-X"
  = Some {| parsed_feature := "todo"; parsed_flow := "edit-title";
            parsed_sessionId := "abc_123-X"; version := 1 |}
  ∧ Js.startsWith "modal:todo:v1:edit-title:abc_123-X" Router.RAW_MODAL_PREFIX = true.
Proof.
  apply (encode_then_decode
           {| feature := "todo"; flow := "edit-title"; sessionId := "abc_123-X" |}
           "modal:todo:v1:edit-title:abc_123-X").
  by vm_compute.
Defined.

(** X3. Different parts never share an identifier: if two sets of parts
    differ in the feature, the flow or the session id and the encoder
    accepts both, the two identifiers differ. *)
Theorem build_injective (parts1 parts2 : IRawModalCustomIdParts) (id1 id2 : string) :
  parts1 ≠ parts2 →
  buildRawModalCustomId parts1 = Ok id1 →
  buildRawModalCustomId parts2 = Ok id2 →
  id1 ≠ id2.
Proof.
  intros Hne H1 H2 ->.
  pose proof (build_Ok_inv _ _ H1) as (Hf1 & Hfl1 & Hsid1 & Hid1 & Hlen1).
  pose proof (build_Ok_inv _ _ H2) as (Hf2 & Hfl2 & Hsid2 & Hid2 & Hlen2).
  destruct (roundtrip_supported parts1 Hf1 Hfl1 Hsid1) as (i1 & Hb1 & Hp1).
  { by rewrite <- Hid1. }
  destruct (roundtrip_supported parts2 Hf2 Hfl2 Hsid2) as (i2 & Hb2 & Hp2).
  { by rewrite <- Hid2. }
  assert (i1 = id2) as -> by congruence.
  assert (i2 = id2) as -> by congruence.
  rewrite Hp1 in Hp2. apply Hne. destruct parts1, parts2. simpl in Hp2.
  congruence.
Qed.

Lemma build_injective_witness :
  buildRawModalCustomId
    {| feature := "todo"; flow := "query"; sessionId := "s-1" |}
  = Ok "modal:todo:v1:query:s-1"
  ∧ buildRawModalCustomId
      {| feature := "todo"; flow := "edit-title"; sessionId := "s-1" |}
    = Ok "modal:todo:v1:edit-title:s-1"
  ∧ "modal:todo:v1:query:s-1" ≠ "modal:todo:v1:edit-title:s-1".
Proof.
  assert (H1 : buildRawModalCustomId
                 {| feature := "todo"; flow := "query"; sessionId := "s-1" |}
               = Ok "modal:todo:v1:query:s-1") by (by vm_compute).
  assert (H2 : buildRawModalCustomId
                 {| feature := "todo"; flow := "edit-title"; sessionId := "s-1" |}
               = Ok "modal:todo:v1:edit-title:s-1") by (by vm_compute).
  split; [exact H1|]. split; [exact H2|].
  apply (build_injective
           {| feature := "todo"; flow := "query"; sessionId := "s-1" |}
           {| feature := "todo"; flow := "edit-title"; sessionId := "s-1" |});
    [intros [=]|exact H1|exact H2].
Defined.

(** X4. The decoder does not insist on the current schema version: an
    identifier written with any version from 1 to 2^53 decodes, whatever
    its length, and the version comes back as it was written. *)
Theorem decode_accepts_later_versions (parts : IRawModalCustomIdParts) (n : Z) :
  isSupportedFeature (feature parts) = true →
  isSupportedFlow (flow parts) = true →
  isSessionIdValid (sessionId parts) = true →
  1 ≤ n ≤ 2 ^ 53 →
  parseRawModalCustomId
    (Js.join ":" [RAW_MODAL_CUSTOM_ID_PREFIX; feature parts;
                  "v" +:+ JsText.numberToString n; flow parts; sessionId parts])
  = Some {| parsed_feature := feature parts; parsed_flow := flow parts;
            parsed_sessionId := sessionId parts; version := n |}.
Proof.
  destruct parts as [f fl sid]. cbn [feature flow sessionId].
  intros Hf Hfl Hsid [Hn1 Hn2].
  destruct (feature_shape f Hf) as [Hf1 Hf2].
  destruct (flow_shape fl Hfl) as [Hfl1 Hfl2].
  destruct (sessionId_colonFree sid Hsid) as [Hsid1 Hsid2].
  destruct (numberToString_positive n) as (Hdigits & Hne & Hread); [lia|].
  destruct (Hread EmptyString) as (k & Hk & Hdig). clear Hread.
  rewrite append_empty_r in Hdig.
  destruct (JsText.numberToString n) as [|c digits]; [done|]. clear Hne.
  set (vp := String "v" (String c digits)).
  assert (Hvp : Props.colonFree vp = true).
  { exact (colonFree_digits _ Hdigits). }
  rewrite join_five. unfold parseRawModalCustomId.
  rewrite (split_segment "modal") by done.
  rewrite (split_segment f) by done.
  change ("v" +:+ String c digits) with vp.
  rewrite (split_segment vp) by done.
  rewrite (split_segment fl) by done.
  rewrite (split_colonFree sid) by done.
  rewrite Hf2, Hfl2, Hf, Hfl, Hsid.
  assert (Js.truthy (Some sid) = true) as -> by (simpl; by destruct sid).
  assert (Js.truthy (Some vp) = true) as -> by reflexivity.
  assert (Js.startsWith vp "v" = true) as -> by reflexivity.
  assert (Js.parseInt10 (Js.slice1 vp) = Some n) as ->.
  { unfold vp. cbn [Js.slice1]. unfold Js.parseInt10.
    assert (Hgo : Js.readDigits (String c digits) 0 false = Some n).
    { rewrite Hdig. cbn [Js.readDigits]. f_equal; lia. }
    cbn [allChars] in Hdigits. apply andb_true_iff in Hdigits as [Hc _].
    unfold JsText.isDigit, Js.digitValue in Hc.
    destruct ((48 <=? Js.code c)%nat && (Js.code c <=? 57)%nat) eqn:Hrange;
      [|done].
    apply andb_true_iff in Hrange as [Hlo Hhi].
    apply Nat.leb_le in Hlo. apply Nat.leb_le in Hhi.
    cbn [Js.trimStart]. unfold Js.isWhiteSpace.
    assert (((9 <=? Js.code c) && (Js.code c <=? 13)
             || (Js.code c =? 32) || (Js.code c =? 160))%nat = false) as ->.
    { rewrite !orb_false_iff, andb_false_iff, !Nat.leb_gt, !Nat.eqb_neq. lia. }
    destruct (decide (c = "-"%char)) as [->|]; [vm_compute in Hlo; lia|].
    destruct (decide (c = "+"%char)) as [->|]; [vm_compute in Hlo; lia|].
    destruct c as [[] [] [] [] [] [] [] []]; done. }
  cbn [negb orb]. cbv zeta.
  assert (Js.isFinite (Some n) = true) as ->.
  { unfold Js.isFinite. apply Z.ltb_lt.
    assert (2 ^ 53 < Js.DOUBLE_OVERFLOW) by (by vm_compute). lia. }
  assert ((n <? 1) = false) as -> by (apply Z.ltb_ge; lia).
  done.
Qed.

Lemma decode_accepts_later_versions_witness :
  parseRawModalCustomId "modal:suggestion:v27:comment:abc123"
  = Some {| parsed_feature := "suggestion"; parsed_flow := "comment";
            parsed_sessionId := "abc123"; version := 27 |}.
Proof.
  apply (decode_accepts_later_versions
           {| feature := "suggestion"; flow := "comment"; sessionId := "abc123" |} 27);
    by vm_compute.
Defined.

End CodecMore.

Section CodecDecodeEncode.
Import Scope CustomId.

(** X5. What the decoder accepts can be encoded again: if an identifier of
    at most 100 characters decodes, its feature, flow and session id are
    valid, and the encoder returns for them an identifier that is no longer
    than the one decoded and decodes to the same parts. *)
Theorem decode_then_encode (customId : string) (p : IRawModalParsedCustomId) :
  parseRawModalCustomId customId = Some p →
  (String.length customId ≤ 100)%nat →
  ∃ canonical,
    buildRawModalCustomId
      {| feature := parsed_feature p; flow := parsed_flow p;
         sessionId := parsed_sessionId p |} = Ok canonical
    ∧ (String.length canonical ≤ String.length customId)%nat
    ∧ parseRawModalCustomId canonical
      = Some {| parsed_feature := parsed_feature p; parsed_flow := parsed_flow p;
                parsed_sessionId := parsed_sessionId p;
                version := RAW_MODAL_SCHEMA_VERSION |}.
Proof.
  intros Hparse Hlen.
  destruct (parse_Some_inv _ _ Hparse)
    as (vp & rest & Hsplit & Hf & Hfl & Hsid & Hv & Hint & Hge).
  assert (Hvp : (2 ≤ String.length vp)%nat).
  { destruct vp as [|c [|c' vp']]; [done| |simpl; lia].
    by vm_compute in Hint. }
  pose proof (length_split customId) as Hsum. rewrite Hsplit in Hsum.
  rewrite !fmap_cons in Hsum.
  repeat change (sum_list (?x :: ?l)) with (x + sum_list l)%nat in Hsum.
  unfold RAW_MODAL_CUSTOM_ID_PREFIX in Hsum. cbn [String.length] in Hsum.
  set (parts := {| feature := parsed_feature p; flow := parsed_flow p;
                   sessionId := parsed_sessionId p |}).
  assert (Hjoin : (String.length
            (Js.join ":" [RAW_MODAL_CUSTOM_ID_PREFIX; feature parts; "v1";
                          flow parts; sessionId parts])
          ≤ String.length customId)%nat).
  { rewrite length_join_five. unfold RAW_MODAL_CUSTOM_ID_PREFIX.
    cbn [String.length feature flow sessionId parts]. lia. }
  destruct (roundtrip_supported parts Hf Hfl Hsid) as (id & Hbuild & Hid);
    [lia|].
  exists id. split; [done|]. split; [|done].
  by apply build_Ok_inv in Hbuild as (_ & _ & _ & -> & _).
Qed.

Lemma decode_then_encode_witness :
  ∃ canonical,
    buildRawModalCustomId
      {| feature := "todo"; flow := "create"; sessionId := "abc123" |}
    = Ok canonical
    ∧ (String.length canonical
       ≤ String.length "modal:todo:v12x:create:abc123:tail")%nat
    ∧ parseRawModalCustomId canonical
      = Some {| parsed_feature := "todo"; parsed_flow := "create";
                parsed_sessionId := "abc123"; version := 1 |}.
Proof.
  apply (decode_then_encode "modal:todo:v12x:create:abc123:tail"
           {| parsed_feature := "todo"; parsed_flow := "create";
              parsed_sessionId := "abc123"; version := 12 |}).
  - by vm_compute.
  - vm_compute. lia.
Defined.

End CodecDecodeEncode.

(** ** The session id of the nomination form *)

Section NominateFacts.
Import Scope CustomId Nominate.

Lemma spanDigits_run (digits rest : string) :
  allChars JsText.isDigit digits = true →
  match rest with
  | String c _ => JsText.isDigit c = false
  | EmptyString => True
  end →
  JsText.spanDigits (digits +:+ rest) = (digits, rest).
Proof.
  intros Hdigits Hrest. induction digits as [|c digits IH].
  - change ("" +:+ rest) with rest. destruct rest as [|c rest]; [done|].
    cbn [JsText.spanDigits]. by rewrite Hrest.
  - cbn [allChars] in Hdigits. apply andb_true_iff in Hdigits as [Hc Hds].
    change (String c digits +:+ rest) with (String c (digits +:+ rest)).
    cbn [JsText.spanDigits]. by rewrite Hc, (IH Hds).
Qed.

Lemma sessionIdChar_digit (c : ascii) :
  JsText.isDigit c = true → isSessionIdChar c = true.
Proof.
  unfold JsText.isDigit, Js.digitValue, isSessionIdChar.
  destruct ((48 <=? Js.code c)%nat && (Js.code c <=? 57)%nat); [|done].
  intros _. by rewrite orb_true_r.
Qed.

Lemma allChars_append (p : ascii → bool) (a b : string) :
  allChars p (a +:+ b) = allChars p a && allChars p b.
Proof.
  induction a as [|c a IH]; [done|].
  change (String c a +:+ b) with (String c (a +:+ b)). cbn [allChars].
  by rewrite IH, andb_assoc.
Qed.

(** X6. The round number written into the session id of a nomination form
    is read back from it: for a user id made of digits and a round number
    from 1 to 2^53, parseRoundFromSessionId of buildNominateSessionId is the
    round number. *)
Theorem nominate_round_roundtrip (userId : string) (roundNumber : Z) :
  userId ≠ EmptyString →
  allChars JsText.isDigit userId = true →
  0 < roundNumber ≤ 2 ^ 53 →
  parseRoundFromSessionId (buildNominateSessionId userId roundNumber)
  = Some roundNumber.
Proof.
  intros Hne Hdigits [Hpos Hfin].
  destruct (numberToString_positive roundNumber Hpos) as (Hnum & Hnum_ne & Hread).
  destruct (Hread EmptyString) as (k & Hk & Hdig). rewrite append_empty_r in Hdig.
  unfold buildNominateSessionId, parseRoundFromSessionId.
  change ("u" +:+ userId +:+ "_r" +:+ JsText.numberToString roundNumber)
    with (String "u" (userId +:+ String "_" (String "r"
            (JsText.numberToString roundNumber)))).
  cbv beta iota. rewrite spanDigits_run by done.
  apply String.eqb_neq in Hne. rewrite Hne.
  rewrite <- (append_empty_r (JsText.numberToString roundNumber)) at 1.
  rewrite spanDigits_run by done.
  apply String.eqb_neq in Hnum_ne. rewrite Hnum_ne. cbn [orb negb String.eqb].
  unfold JsText.numberOfDigits. rewrite Hdig. cbn [Js.readDigits].
  replace (0 * 10 ^ k + roundNumber) with roundNumber by lia.
  unfold JsText.isInteger, Js.isFinite.
  assert ((Z.abs roundNumber <? Js.DOUBLE_OVERFLOW) = true) as ->.
  { apply Z.ltb_lt.
    assert (2 ^ 53 < Js.DOUBLE_OVERFLOW) by (by vm_compute). lia. }
  assert ((0 <? roundNumber) = true) as -> by (by apply Z.ltb_lt).
  done.
Qed.

Lemma nominate_round_roundtrip_witness :
  parseRoundFromSessionId (buildNominateSessionId "191938640413327360" 137)
  = Some 137.
Proof.
  apply (nominate_round_roundtrip "191938640413327360" 137).
  - done.
  - by vm_compute.
  - by vm_compute.
Defined.



End NominateFacts.

(** ** More on the session store *)

Section StoreMore.
Import Session StoreOps StoreRuns.
Implicit Types (t : Table) (r : RawModalSessionRow) (sid k : string).

Lemma claim_not_open sid owner now t r :
  t !! sid = Some r → STATUS r ≠ open →
  claimRawModalSessionForSubmit sid owner now t = (false, t).
Proof.
  intros Hsid Hstatus. rewrite claimRawModalSessionForSubmit_eq, Hsid.
  destruct (Props.claimWhere owner now r) eqn:Hc; [|done].
  apply claimWhere_true in Hc as [Hopen _]. done.
Qed.

Lemma claim_absent sid owner now t :
  t !! sid = None → claimRawModalSessionForSubmit sid owner now t = (false, t).
Proof. intros Hsid. by rewrite claimRawModalSessionForSubmit_eq, Hsid. Qed.

Lemma claim_success sid owner now t :
  (claimRawModalSessionForSubmit sid owner now t).1 = true →
  ∃ r, t !! sid = Some r ∧ Props.claimable owner now r
       ∧ (claimRawModalSessionForSubmit sid owner now t).2
         = <[sid := setStatus submitted r]> t.
Proof.
  rewrite claimRawModalSessionForSubmit_eq.
  destruct (t !! sid) as [r|] eqn:Hsid; [|done].
  destruct (Props.claimWhere owner now r) eqn:Hc; [|done].
  intros _. exists r. by apply claimWhere_true in Hc.
Qed.

Lemma claim_claimable sid owner now t r :
  t !! sid = Some r → Props.claimable owner now r →
  claimRawModalSessionForSubmit sid owner now t
  = (true, <[sid := setStatus submitted r]> t).
Proof.
  intros Hsid Hc. rewrite claimRawModalSessionForSubmit_eq, Hsid.
  apply claimWhere_true in Hc. by rewrite Hc.
Qed.


End StoreMore.

Section StoreRunsFacts.
Import Session StoreOps StoreRuns.
Implicit Types (t : Table) (r : RawModalSessionRow) (sid k : string).

(** A session that is not open stays so, and is not claimed, under an
    operation that does not write the status open into it. *)
Lemma closed_session_step sid op t r :
  t !! sid = Some r → STATUS r ≠ open → reopens sid op = false →
  ∃ r', runOp op t !! sid = Some r' ∧ STATUS r' ≠ open
        ∧ claimSucceeds sid op t = false.
Proof.
  intros Hsid Hclosed Hop.
  destruct op as [input|[sid' s]|sid' owner now|sid']; cbn [runOp claimSucceeds].
  - exists r. split; [by apply create_keeps_rows|done].
  - destruct (update_status_of sid' s t sid r Hsid) as (r' & Hr' & [->|[-> Hs]]).
    + by exists r.
    + exists r'. split; [done|]. split; [|done].
      cbn [reopens update_sessionId update_status] in Hop.
      rewrite String.eqb_refl in Hop. cbn [andb] in Hop.
      apply bool_decide_eq_false in Hop. congruence.
  - destruct (String.eqb_spec sid' sid) as [->|Hne].
    + rewrite (claim_not_open sid owner now t r) by done. by exists r.
    + destruct (claim_status sid' owner now t sid r Hsid) as (r' & Hr' & [->|[Ho _]]).
      * by exists r.
      * done.
  - unfold expireRawModalSession.
    destruct (update_status_of sid' expired t sid r Hsid) as (r' & Hr' & [->|[-> Hs]]).
    + by exists r.
    + exists r'. split; [done|]. split; [|done]. by rewrite Hs.
Qed.

Lemma closed_session_never_claimed sid (ops : list StoreOp) t r :
  t !! sid = Some r → STATUS r ≠ open →
  Forall (λ op, reopens sid op = false) ops →
  successfulClaims sid ops t = 0%nat.
Proof.
  intros Hsid Hclosed Hops. revert t r Hsid Hclosed.
  induction Hops as [|op ops Hop _ IH]; intros t r Hsid Hclosed; [done|].
  destruct (closed_session_step sid op t r Hsid Hclosed Hop)
    as (r' & Hr' & Hclosed' & Hnot).
  cbn [successfulClaims]. rewrite Hnot. by rewrite (IH _ r').
Qed.

(** X9. At most one claim of a session succeeds in any run of create,
    status update, claim and expire operations that never writes the status
    open into the session, whoever claims, whatever the clocks and whatever
    the table at the start: neither a second create under the same id nor
    an expire in between makes a second claim succeed. *)
Theorem at_most_one_successful_claim sid (ops : list StoreOp) t :
  Forall (λ op, reopens sid op = false) ops →
  (successfulClaims sid ops t ≤ 1)%nat.
Proof.
  intros Hops. revert t. induction Hops as [|op ops Hop Hrest IH]; intros t.
  - cbn [successfulClaims]. lia.
  - cbn [successfulClaims].
    destruct (claimSucceeds sid op t) eqn:Hwon; [|apply IH].
    destruct op as [|?|sid' owner now|]; try done.
    cbn [claimSucceeds] in Hwon. apply andb_true_iff in Hwon as [Heq Hwon].
    apply String.eqb_eq in Heq as ->.
    destruct (claim_success _ _ _ _ Hwon) as (r & Hr & _ & Ht').
    cbn [runOp]. rewrite Ht'.
    rewrite (closed_session_never_claimed sid ops _ (setStatus submitted r));
      [lia|apply lookup_insert_eq|done|done].
Qed.

Lemma at_most_one_successful_claim_witness :
  (successfulClaims "abc123"
     [OpClaim "abc123" "user-2" Samples.now;
      OpClaim "abc123" "user-1" Samples.now;
      OpExpire "abc123";
      OpCreate Samples.createInput;
      OpClaim "abc123" "user-1" (Samples.now + 1);
      OpUpdateStatus {| update_sessionId := "abc123"; update_status := submitted |};
      OpClaim "abc123" "user-1" (Samples.now + 2)]
     (Samples.table open (Samples.now + 60000)) ≤ 1)%nat.
Proof.
  apply at_most_one_successful_claim. repeat constructor.
Defined.

End StoreRunsFacts.

(** ** Creation, sweep and expiry of sessions *)

Section StoreLifecycle.
Import Session StoreOps.
Implicit Types (t : Table) (r : RawModalSessionRow) (sid k : string).

(** X10. A session created with the expiry that buildRawModalSessionExpiry
    gives for the clock [now] can be claimed by its owner at any time from
    [now] to less than a minute later, whatever the time-to-live asked for,
    zero and negative ones included: the claim returns true, the stored
    status is then submitted with owner and expiry as created, and the
    record that the creation returned is not expired at that time. *)
Theorem fresh_session_claimable (input : IRawModalSessionCreateInput)
    (now ttlMinutes claimTime : Z) t saved :
  buildRawModalSessionExpiry now ttlMinutes = Some (create_expiresAt input) →
  now ≤ claimTime < now + 60000 →
  (createRawModalSessionRecord input t).1 = Ok saved →
  let sid := create_sessionId input in
  let created := (createRawModalSessionRecord input t).2 in
  let claimed :=
    claimRawModalSessionForSubmit sid (create_ownerUserId input) claimTime created in
  isRawModalSessionExpired saved claimTime = false
  ∧ claimed.1 = true
  ∧ ∃ r', claimed.2 !! sid = Some r'
          ∧ STATUS r' = submitted
          ∧ OWNER_USER_ID r' = create_ownerUserId input
          ∧ EXPIRES_AT r' = create_expiresAt input.
Proof.
  intros Hexpiry Htime Hsaved. cbv zeta.
  assert (Hlate : claimTime < create_expiresAt input).
  { unfold buildRawModalSessionExpiry, newDate in Hexpiry.
    destruct (Z.abs _ <=? MAX_TIME_VALUE); [|done].
    injection Hexpiry as <-. lia. }
  revert Hsaved. unfold createRawModalSessionRecord, sqlInsert.
  destruct (t !! create_sessionId input) as [existing|] eqn:Hsid; [done|].
  unfold getRawModalSessionRecord. rewrite lookup_insert_eq.
  cbn [fmap option_fmap option_map fst snd]. intros [= <-].
  split.
  { unfold isRawModalSessionExpired. cbn [expiresAt mapRawModalSessionRow EXPIRES_AT].
    apply Z.leb_gt. exact Hlate. }
  set (row := {| OWNER_USER_ID := create_ownerUserId input;
                 FEATURE_ID := create_feature input;
                 FLOW_ID := create_flow input;
                 STATE_JSON := create_stateJson input;
                 STATUS := open;
                 EXPIRES_AT := create_expiresAt input;
                 GUILD_ID := create_guildId input;
                 CHANNEL_ID := create_channelId input |}).
  rewrite (claim_claimable (create_sessionId input) (create_ownerUserId input)
             claimTime _ row).
  - cbn [fst snd]. split; [done|]. exists (setStatus submitted row).
    by rewrite lookup_insert_eq.
  - apply lookup_insert_eq.
  - unfold Props.claimable. by subst row.
Qed.

Lemma fresh_session_claimable_witness :
  let input :=
    {| create_sessionId := "s-1"; create_feature := "todo";
       create_flow := "create"; create_ownerUserId := "user-9";
       create_guildId := None; create_channelId := None;
       create_stateJson := "{}"; create_expiresAt := Samples.now + 60000 |} in
  let t := Samples.table submitted (Samples.now - 1) in
  let created := (createRawModalSessionRecord input t).2 in
  let claimed :=
    claimRawModalSessionForSubmit "s-1" "user-9" (Samples.now + 59999) created in
  claimed.1 = true
  ∧ ∃ r', claimed.2 !! "s-1" = Some r' ∧ STATUS r' = submitted
          ∧ OWNER_USER_ID r' = "user-9" ∧ EXPIRES_AT r' = Samples.now + 60000.
Proof.
  cbv zeta.
  refine (proj2 (fresh_session_claimable
    {| create_sessionId := "s-1"; create_feature := "todo";
       create_flow := "create"; create_ownerUserId := "user-9";
       create_guildId := None; create_channelId := None;
       create_stateJson := "{}"; create_expiresAt := Samples.now + 60000 |}
    Samples.now (-3) (Samples.now + 59999)
    (Samples.table submitted (Samples.now - 1))
    {| sessionId := "s-1"; feature := "todo"; flow := "create";
       ownerUserId := "user-9"; guildId := None; channelId := None;
       stateJson := "{}"; status := open; expiresAt := Samples.now + 60000 |}
    _ _ _)).
  - reflexivity.
  - unfold Samples.now. lia.
  - by vm_compute.
Defined.

Lemma sweep_lookup cutoff t k :
  (deleteExpiredRawModalSessions cutoff t).2 !! k
  = match t !! k with
    | Some r => if StoreRuns.sweepWhere cutoff r then None else Some r
    | None => None
    end.
Proof.
  unfold deleteExpiredRawModalSessions, sqlDelete, StoreRuns.sweepWhere. cbn [snd].
  apply option_eq. intros r. rewrite map_lookup_filter_Some. cbn [fst snd].
  destruct (t !! k) as [r0|].
  - split.
    + intros [[= ->] Hn].
      destruct ((EXPIRES_AT r <? cutoff) && _) eqn:Hw; [|done].
      exfalso. by apply Hn.
    + destruct ((EXPIRES_AT r0 <? cutoff) && _) eqn:Hw; [by intros [=]|].
      intros [= <-]. split; [done|]. rewrite Hw. by intros [].
  - split; [by intros [? _]|done].
Qed.

Lemma sweep_count cutoff t :
  ((deleteExpiredRawModalSessions cutoff t).1
   + size (deleteExpiredRawModalSessions cutoff t).2 = size t)%nat.
Proof.
  unfold deleteExpiredRawModalSessions, sqlDelete, selected. cbn [fst snd].
  rewrite <- map_size_disj_union by apply map_disjoint_filter_complement.
  by rewrite map_filter_union_complement.
Qed.

(** X11. A sweep with a cutoff that is not after the clock of a claim does
    not change the claim: whether the claim is made before or after the
    sweep, it returns the same boolean and the table at the end is the
    same. *)
Theorem sweep_preserves_claims cutoff sid owner now t :
  cutoff ≤ now →
  let swept := (deleteExpiredRawModalSessions cutoff t).2 in
  let claimed := claimRawModalSessionForSubmit sid owner now t in
  (claimRawModalSessionForSubmit sid owner now swept).1 = claimed.1
  ∧ (claimRawModalSessionForSubmit sid owner now swept).2
    = (deleteExpiredRawModalSessions cutoff claimed.2).2.
Proof.
  intros Hcut. cbv zeta.
  rewrite !claimRawModalSessionForSubmit_eq, sweep_lookup.
  destruct (t !! sid) as [r|] eqn:Hsid.
  - destruct (Props.claimWhere owner now r) eqn:Hc.
    + apply claimWhere_true in Hc as Hcl. destruct Hcl as (Hopen & Howner & Hlate).
      assert (Hkeep : StoreRuns.sweepWhere cutoff r = false).
      { unfold StoreRuns.sweepWhere. apply andb_false_iff. left. apply Z.ltb_ge. lia. }
      rewrite Hkeep, Hc. cbn [fst snd]. split; [done|].
      apply map_eq. intros k. rewrite sweep_lookup.
      destruct (decide (k = sid)) as [->|Hne].
      * rewrite !lookup_insert_eq. unfold StoreRuns.sweepWhere.
        cbn [setStatus STATUS EXPIRES_AT].
        assert (Hge : (EXPIRES_AT r <? cutoff) = false) by (apply Z.ltb_ge; lia).
        by rewrite Hge.
      * rewrite !lookup_insert_ne by done. by rewrite sweep_lookup.
    + destruct (StoreRuns.sweepWhere cutoff r); [done|]. by rewrite Hc.
  - done.
Qed.

Lemma sweep_preserves_claims_witness :
  let t := <["old" := Samples.row open (Samples.now - 1)]>
             (Samples.table open (Samples.now + 60000)) in
  (claimRawModalSessionForSubmit "abc123" "user-1" Samples.now
     (deleteExpiredRawModalSessions Samples.now t).2).1 = true
  ∧ (claimRawModalSessionForSubmit "abc123" "user-1" Samples.now
       (deleteExpiredRawModalSessions Samples.now t).2).2
    = (deleteExpiredRawModalSessions Samples.now
         (claimRawModalSessionForSubmit "abc123" "user-1" Samples.now t).2).2.
Proof.
  cbv zeta.
  pose proof (sweep_preserves_claims Samples.now "abc123" "user-1" Samples.now
    (<["old" := Samples.row open (Samples.now - 1)]>
       (Samples.table open (Samples.now + 60000)))
    ltac:(reflexivity)) as [Hfirst Hsecond].
  split; [|exact Hsecond].
  rewrite Hfirst. by vm_compute.
Defined.

(** X12. Two sweeps in a row, the second with a cutoff that is not earlier,
    leave the table that the second alone leaves, and the numbers of rows
    they report add up to the number the second alone reports; a sweep
    repeated with the same cutoff removes nothing. *)
Theorem sweep_twice c1 c2 t :
  c1 ≤ c2 →
  let first := deleteExpiredRawModalSessions c1 t in
  let second := deleteExpiredRawModalSessions c2 first.2 in
  second.2 = (deleteExpiredRawModalSessions c2 t).2
  ∧ (first.1 + second.1 = (deleteExpiredRawModalSessions c2 t).1)%nat
  ∧ deleteExpiredRawModalSessions c2 second.2 = (0%nat, second.2).
Proof.
  intros Hle. cbv zeta.
  assert (Htable : (deleteExpiredRawModalSessions c2
                      (deleteExpiredRawModalSessions c1 t).2).2
                   = (deleteExpiredRawModalSessions c2 t).2).
  { apply map_eq. intros k. rewrite !sweep_lookup.
    destruct (t !! k) as [r|]; [|done].
    destruct (StoreRuns.sweepWhere c1 r) eqn:H1; [|done].
    assert (H2 : StoreRuns.sweepWhere c2 r = true); [|by rewrite H2].
    unfold StoreRuns.sweepWhere in *. apply andb_true_iff in H1 as [Hlt ->].
    rewrite andb_true_r. apply Z.ltb_lt. apply Z.ltb_lt in Hlt. lia. }
  assert (Hidem : ∀ c t0, (deleteExpiredRawModalSessions c
                              (deleteExpiredRawModalSessions c t0).2).2
                           = (deleteExpiredRawModalSessions c t0).2).
  { intros c t0. apply map_eq. intros k. rewrite !sweep_lookup.
    destruct (t0 !! k) as [r|]; [|done].
    destruct (StoreRuns.sweepWhere c r) eqn:Hw; [done|]. by rewrite Hw. }
  split; [exact Htable|]. split.
  - pose proof (sweep_count c1 t) as Hn1.
    pose proof (sweep_count c2 (deleteExpiredRawModalSessions c1 t).2) as Hn12.
    pose proof (sweep_count c2 t) as Hn2.
    rewrite Htable in Hn12. lia.
  - rewrite Htable.
    pose proof (sweep_count c2 (deleteExpiredRawModalSessions c2 t).2) as Hn.
    pose proof (Hidem c2 t) as Ht'. rewrite Ht' in Hn.
    rewrite (surjective_pairing (deleteExpiredRawModalSessions c2 _)).
    rewrite Ht'. f_equal. lia.
Qed.

Lemma sweep_twice_witness :
  let t := <["old" := Samples.row open (Samples.now - 1)]>
             (<["older" := Samples.row expired (Samples.now - 5000)]>
                (Samples.table open (Samples.now + 60000))) in
  let first := deleteExpiredRawModalSessions (Samples.now - 1000) t in
  let second := deleteExpiredRawModalSessions Samples.now first.2 in
  first.1 = 1%nat
  ∧ second.2 = (deleteExpiredRawModalSessions Samples.now t).2
  ∧ (first.1 + second.1 = (deleteExpiredRawModalSessions Samples.now t).1)%nat
  ∧ deleteExpiredRawModalSessions Samples.now second.2 = (0%nat, second.2).
Proof.
  cbv zeta. split; [by vm_compute|].
  apply (sweep_twice (Samples.now - 1000) Samples.now). unfold Samples.now. lia.
Defined.

(** X13. expireRawModalSession returns true exactly when the session
    exists; the stored status is then expired with the other columns kept,
    no other session changes, a table without the session is unchanged, and
    after it no claim of the session succeeds, whoever claims and whatever
    the clock. *)
Theorem expire_then_claim_fails sid t :
  let result := expireRawModalSession sid t in
  (result.1 = true ↔ is_Some (t !! sid))
  ∧ (∀ r, t !! sid = Some r →
       ∃ r', result.2 !! sid = Some r' ∧ STATUS r' = expired
             ∧ Props.sameExceptStatus r r')
  ∧ (t !! sid = None → result.2 = t)
  ∧ (∀ k, k ≠ sid → result.2 !! k = t !! k)
  ∧ (∀ owner now,
       claimRawModalSessionForSubmit sid owner now result.2 = (false, result.2)).
Proof.
  cbv zeta. unfold expireRawModalSession. rewrite updateRawModalSessionStatus_eq.
  destruct (t !! sid) as [r|] eqn:Hsid; cbn [fst snd].
  - split_and!.
    + by split.
    + intros r0 [= <-]. exists (setStatus expired r).
      rewrite lookup_insert_eq. split; [done|]. apply setStatus_spec.
    + done.
    + intros k Hk. by rewrite lookup_insert_ne.
    + intros owner now. apply (claim_not_open _ _ _ _ (setStatus expired r)).
      * apply lookup_insert_eq.
      * done.
  - split_and!.
    + split; [done|]. by intros [? ?].
    + done.
    + done.
    + done.
    + intros owner now. by apply claim_absent.
Qed.

(** X14. A claim succeeds exactly when the record that
    getRawModalSessionRecord returns for the id passes the checks a caller
    can make on it with the same clock: it exists, its owner is the user,
    isRawModalSessionExpired is false of it and its status is open. *)
Theorem claim_agrees_with_prechecks sid user now t :
  (claimRawModalSessionForSubmit sid user now t).1 = true
  ↔ ∃ session, getRawModalSessionRecord sid t = Some session
               ∧ ownerUserId session = user
               ∧ isRawModalSessionExpired session now = false
               ∧ status session = open.
Proof.
  rewrite claimRawModalSessionForSubmit_eq. unfold getRawModalSessionRecord.
  destruct (t !! sid) as [r|] eqn:Hsid; cbn [fmap option_fmap option_map].
  - destruct (Props.claimWhere user now r) eqn:Hc; cbn [fst].
    + apply claimWhere_true in Hc as (Hopen & Howner & Hlate).
      split; [|done]. intros _. exists (mapRawModalSessionRow sid r).
      split; [done|]. unfold isRawModalSessionExpired.
      cbn [mapRawModalSessionRow ownerUserId status expiresAt].
      split_and!; [done| |done]. apply Z.leb_gt. lia.
    + split; [done|]. intros (session & [= <-] & Howner & Hfresh & Hopen).
      unfold isRawModalSessionExpired in Hfresh.
      cbn [mapRawModalSessionRow ownerUserId status expiresAt] in *.
      apply Z.leb_gt in Hfresh.
      assert (Hcl : Props.claimable user now r) by (unfold Props.claimable; done).
      apply claimWhere_true in Hcl. congruence.
  - cbn [fst]. split; [done|]. by intros (session & [=] & _).
Qed.

End StoreLifecycle.

(** ** The status as the database spells it *)

Section DbStatus.
Import Session SessionDb.

(** X15. The status is written to the database in upper case, OPEN,
    SUBMITTED or EXPIRED, and read back as the status it was; a stored
    string is read as a status exactly when, trimmed and lowered, it is the
    name of that status, and any other stored string makes the read throw. *)
Theorem db_status_roundtrip :
  toDbStatus open = "OPEN" ∧ toDbStatus submitted = "SUBMITTED"
  ∧ toDbStatus expired = "EXPIRED"
  ∧ (∀ s, fromDbStatus (toDbStatus s) = Ok s)
  ∧ (∀ stored s, fromDbStatus stored = Ok s
                 ↔ Js.toLowerCase (Js.trim stored) = statusName s)
  ∧ (∀ stored, (∀ s, Js.toLowerCase (Js.trim stored) ≠ statusName s) →
               ∃ message, fromDbStatus stored = Throw message).
Proof.
  split_and!; try reflexivity.
  - by intros [].
  - intros stored s. unfold fromDbStatus, isRawModalSessionStatus, statusOfName,
      RAW_MODAL_SESSION_STATUSES.
    cbn [Js.includes].
    destruct (String.eqb_spec (Js.toLowerCase (Js.trim stored)) "open") as [->|H1].
    { cbn. destruct s; split; (done || by intros [=]). }
    destruct (String.eqb_spec (Js.toLowerCase (Js.trim stored)) "submitted") as [->|H2].
    { cbn. destruct s; split; (done || by intros [=]). }
    destruct (String.eqb_spec (Js.toLowerCase (Js.trim stored)) "expired") as [->|H3].
    { cbn. destruct s; split; (done || by intros [=]). }
    assert (Hno : Js.includes ["open"; "submitted"; "expired"]
                    (Js.toLowerCase (Js.trim stored)) = false).
    { unfold Js.includes. apply bool_decide_eq_false.
      rewrite !elem_of_cons, elem_of_nil. intros [?|[?|[?|[]]]]; done. }
    rewrite Hno. split; [done|]. by destruct s.
  - intros stored Hnot. unfold fromDbStatus.
    destruct (isRawModalSessionStatus _); [|by eexists].
    destruct (statusOfName (Js.toLowerCase (Js.trim stored))) as [s|] eqn:Hs;
      [|by eexists].
    exfalso. apply (Hnot s). unfold statusOfName in Hs.
    destruct (String.eqb_spec (Js.toLowerCase (Js.trim stored)) "open") as [->|_];
      [by injection Hs as <-|].
    destruct (String.eqb_spec (Js.toLowerCase (Js.trim stored)) "submitted") as [->|_];
      [by injection Hs as <-|].
    destruct (String.eqb_spec (Js.toLowerCase (Js.trim stored)) "expired") as [->|_];
      [by injection Hs as <-|done].
Qed.

End DbStatus.

(** ** The router *)

Section RouterMore.
Import Session Router RouterRuns.
Implicit Types (i : Interaction) (w : World) (r : RawModalSessionRow).

(** What the handler does with a submission: the payload is checked, then
    the session is looked up, then owner, expiry and status are tested in
    that order, and only then the claim is made. *)
Lemma submit_outcome nowCheck nowClaim i sid w :
  kind i = ModalSubmit →
  handleManagedRawModalSubmit nowCheck nowClaim i sid w
  = match SubmitValidation.validateRawModalSubmitInteractionPayload
            (customId i) (components i) with
    | Throw e =>
        (Throw e, {| sessions := sessions w; replies := replies w ++ [DeferredReply] |})
    | Ok v =>
        (Ok tt,
         if negb (SubmitValidation.ok v)
         then answered w (sessions w) MSG_INVALID_PAYLOAD
         else
           match sessions w !! sid with
           | None => answered w (sessions w) MSG_NOT_FOUND
           | Some r =>
               if negb (String.eqb (OWNER_USER_ID r) (userId i))
               then answered w (sessions w) MSG_OTHER_USER
               else if EXPIRES_AT r <=? nowCheck
               then answered w
                      (if bool_decide (STATUS r = open)
                       then <[sid := setStatus expired r]> (sessions w)
                       else sessions w) MSG_EXPIRED
               else if negb (bool_decide (STATUS r = open))
               then answered w (sessions w) MSG_NOT_ACTIVE
               else if nowClaim <? EXPIRES_AT r
               then answered w (<[sid := setStatus submitted r]> (sessions w))
                      MSG_ACCEPTED
               else answered w (sessions w) MSG_CLAIM_FAILED
           end)
    end.
Proof.
  intros Hkind.
  unfold handleManagedRawModalSubmit, isModalSubmit. rewrite Hkind. cbn [negb].
  unfold safeDeferReply, sendSessionRecoveryMessage, safeReply, isRepliable.
  rewrite Hkind. cbn [negb].
  unfold mbind, M_bind, mret, M_ret, emit, liftResult, onTable,
    getRawModalSessionRecord, answered.
  destruct (SubmitValidation.validateRawModalSubmitInteractionPayload _ _)
    as [v|e]; [|done].
  destruct (SubmitValidation.ok v); cbn [negb sessions replies];
    [|by rewrite <- app_assoc].
  destruct (sessions w !! sid) as [r|] eqn:Hsid;
    cbn [fmap option_fmap option_map sessions replies];
    [|by rewrite <- app_assoc].
  cbn [mapRawModalSessionRow ownerUserId status sessionId expiresAt].
  destruct (String.eqb (OWNER_USER_ID r) (userId i)) eqn:Howner;
    cbn [negb sessions replies]; [|by rewrite <- app_assoc].
  unfold isRawModalSessionExpired.
  change (expiresAt (mapRawModalSessionRow sid r)) with (EXPIRES_AT r).
  change (status (mapRawModalSessionRow sid r)) with (STATUS r).
  change (sessionId (mapRawModalSessionRow sid r)) with sid.
  destruct (EXPIRES_AT r <=? nowCheck) eqn:Hexp.
  { destruct (bool_decide (STATUS r = open)).
    - unfold expireRawModalSession. rewrite updateRawModalSessionStatus_eq.
      cbn [sessions replies]. rewrite Hsid. cbn [sessions replies].
      by rewrite <- app_assoc.
    - cbn [sessions replies]. by rewrite <- app_assoc. }
  destruct (bool_decide (STATUS r = open)) eqn:Hopen;
    cbn [negb sessions replies]; [|by rewrite <- app_assoc].
  rewrite claimRawModalSessionForSubmit_eq. cbn [sessions replies]. rewrite Hsid.
  unfold Props.claimWhere. apply String.eqb_eq in Howner. rewrite <- Howner.
  rewrite String.eqb_refl, Hopen. cbn [andb].
  destruct (nowClaim <? EXPIRES_AT r); cbn [negb sessions replies];
    by rewrite <- app_assoc.
Qed.

(** The router on a submission that it decodes and whose feature is
    enabled: what the handler throws is caught and answered. *)
Lemma routed_submission env nowCheck nowClaim i w p :
  kind i = ModalSubmit →
  CustomId.parseRawModalCustomId (customId i) = Some p →
  FeatureFlag.isRawModalPilotEnabled env (CustomId.parsed_feature p) (guildId i) = true →
  tryHandleManagedRawModalInteraction env nowCheck nowClaim i w
  = (Ok true,
     match SubmitValidation.validateRawModalSubmitInteractionPayload
             (customId i) (components i) with
     | Throw _ => answered w (sessions w) MSG_ERROR
     | Ok _ =>
         (handleManagedRawModalSubmit nowCheck nowClaim i
            (CustomId.parsed_sessionId p) w).2
     end).
Proof.
  intros Hkind Hparse Hgate.
  destruct (parsed_has_prefix _ _ Hparse) as [Htruthy Hprefix].
  unfold tryHandleManagedRawModalInteraction, getInteractionCustomId,
    isMessageComponent, isModalSubmit.
  rewrite Hkind, Htruthy, Hprefix, Hparse, Hgate. cbn [negb orb].
  unfold mbind, M_bind, tryCatch.
  rewrite (submit_outcome nowCheck nowClaim i _ w Hkind).
  destruct (SubmitValidation.validateRawModalSubmitInteractionPayload _ _)
    as [v|e]; [done|].
  unfold sendSessionRecoveryMessage, safeReply, isRepliable, emit, answered.
  rewrite Hkind. cbn [negb sessions replies snd]. unfold mret, M_ret.
  by rewrite <- app_assoc.
Qed.

(** Where the router declines, and where it answers that the flow is not
    wired. *)
Lemma router_other_paths env nowCheck nowClaim i w :
  tryHandleManagedRawModalInteraction env nowCheck nowClaim i w
  = match getInteractionCustomId i with
    | None => (Ok false, w)
    | Some id =>
        if negb (Js.startsWith id RAW_MODAL_PREFIX) then (Ok false, w)
        else
          match CustomId.parseRawModalCustomId id with
          | None =>
              (Ok true, {| sessions := sessions w;
                           replies := replies w ++ [EphemeralReply MSG_NOT_WIRED] |})
          | Some p =>
              if negb (FeatureFlag.isRawModalPilotEnabled env
                         (CustomId.parsed_feature p) (guildId i))
              then (Ok false, w)
              else if isModalSubmit i
              then tryHandleManagedRawModalInteraction env nowCheck nowClaim i w
              else (Ok true, {| sessions := sessions w;
                                replies := replies w ++ [EphemeralReply MSG_NOT_WIRED] |})
          end
    end.
Proof.
  unfold tryHandleManagedRawModalInteraction at 1.
  destruct (getInteractionCustomId i) as [id|] eqn:Hid; [|done].
  assert (Hrep : isRepliable i = true).
  { unfold getInteractionCustomId, isMessageComponent, isModalSubmit, isRepliable in *.
    by destruct (kind i). }
  assert (Hcid : id = customId i).
  { unfold getInteractionCustomId in Hid.
    destruct (isMessageComponent i); [congruence|].
    destruct (isModalSubmit i); congruence. }
  destruct (Js.startsWith id RAW_MODAL_PREFIX) eqn:Hprefix.
  - assert (Htruthy : Js.truthy (Some id) = true) by by destruct id.
    rewrite Htruthy. cbn [negb orb].
    unfold handleManagedRawModalInteraction, safeReply, emit, mbind, M_bind,
      mret, M_ret. rewrite Hrep. cbn [negb].
    destruct (CustomId.parseRawModalCustomId id) as [p|] eqn:Hparse; [|done].
    destruct (FeatureFlag.isRawModalPilotEnabled _ _ _) eqn:Hgate; [|done].
    cbn [negb]. destruct (isModalSubmit i) eqn:Hsubmit; [|done].
    unfold tryHandleManagedRawModalInteraction. rewrite Hid, Htruthy, Hprefix.
    cbn [negb orb]. rewrite Hparse, Hgate. cbn [negb]. by rewrite Hsubmit.
  - by rewrite orb_true_r.
Qed.

Lemma answered_replies w t m m' :
  replies (answered w t m) = replies w ++ [DeferredReply; EphemeralReply m'] →
  m = m'.
Proof. cbn. intros H%app_inv_head. by injection H. Qed.

Lemma not_answered w l m :
  length l ≠ 2%nat →
  replies w ++ l ≠ replies w ++ [DeferredReply; EphemeralReply m].
Proof. intros Hl H%app_inv_head. by subst l. Qed.

End RouterMore.

(** ** What the router does with an event *)

Section RouterOutcomes.
Import Session Router RouterRuns.
Implicit Types (i : Interaction) (w : World) (r : RawModalSessionRow).

Ltac in_list :=
  repeat first [apply list_elem_of_here | apply list_elem_of_further].

(** X16. The router does not throw: what the submission handler throws it
    catches (the statements of the store and the replies are taken to
    succeed). It reports an event as handled exactly when the event carries
    a custom id (it is a message component or a modal submission), the id
    starts with the prefix modal: and, if it decodes, the pilot is enabled
    for its feature in the guild of the event. Where the router reports
    false it has sent nothing and has left the sessions alone. *)
Theorem router_handles_iff env nowCheck nowClaim i w :
  let result := tryHandleManagedRawModalInteraction env nowCheck nowClaim i w in
  (∃ handled, result.1 = Ok handled)
  ∧ (result.1 = Ok true
     ↔ is_Some (getInteractionCustomId i)
       ∧ Js.startsWith (customId i) RAW_MODAL_PREFIX = true
       ∧ ∀ p, CustomId.parseRawModalCustomId (customId i) = Some p →
              FeatureFlag.isRawModalPilotEnabled env
                (CustomId.parsed_feature p) (guildId i) = true)
  ∧ (result.1 = Ok false → result.2 = w).
Proof.
  cbv zeta. rewrite router_other_paths.
  destruct (getInteractionCustomId i) as [id|] eqn:Hid.
  2:{ cbn [fst snd]. split_and!; [by eexists| |done].
      split; [done|]. by intros [[? ?] _]. }
  assert (Hcid : id = customId i).
  { unfold getInteractionCustomId in Hid.
    destruct (isMessageComponent i); [congruence|].
    destruct (isModalSubmit i); congruence. }
  subst id.
  destruct (Js.startsWith (customId i) RAW_MODAL_PREFIX) eqn:Hprefix; cbn [negb].
  2:{ cbn [fst snd]. split_and!; [by eexists| |done].
      split; [done|]. by intros (_ & ? & _). }
  destruct (CustomId.parseRawModalCustomId (customId i)) as [p|] eqn:Hparse.
  2:{ cbn [fst snd]. split_and!; [by eexists| |done].
      split; [|done]. intros _. split_and!; [by eexists|done|done]. }
  destruct (FeatureFlag.isRawModalPilotEnabled _ _ _) eqn:Hgate; cbn [negb].
  2:{ cbn [fst snd]. split_and!; [by eexists| |done].
      split; [done|]. intros (_ & _ & Hall).
      specialize (Hall p eq_refl). congruence. }
  assert (Hiff : is_Some (Some (customId i)) ∧ true = true
                 ∧ ∀ p0, Some p = Some p0 →
                     FeatureFlag.isRawModalPilotEnabled env
                       (CustomId.parsed_feature p0) (guildId i) = true).
  { split_and!; [by eexists|done|]. by intros p0 [= <-]. }
  destruct (isModalSubmit i) eqn:Hsubmit.
  - assert (Hkind : kind i = ModalSubmit).
    { unfold isModalSubmit in Hsubmit. by destruct (kind i). }
    rewrite (routed_submission env nowCheck nowClaim i w p Hkind Hparse Hgate).
    cbn [fst snd]. split_and!; [by eexists|done|done].
  - cbn [fst snd]. split_and!; [by eexists|done|done].
Qed.

(** X17. An event that the router handles is answered once. A modal
    submission whose custom id decodes gets the deferred acknowledgement
    followed by exactly one of the eight messages of the submission
    handler; any other handled event gets the single message that the flow
    is not wired, and the sessions are left alone. *)
Theorem router_answers_once env nowCheck nowClaim i w :
  let result := tryHandleManagedRawModalInteraction env nowCheck nowClaim i w in
  result.1 = Ok true →
  (kind i = ModalSubmit
   ∧ is_Some (CustomId.parseRawModalCustomId (customId i))
   ∧ ∃ message, message ∈ SUBMIT_MESSAGES
       ∧ replies result.2
         = replies w ++ [DeferredReply; EphemeralReply message])
  ∨ ((kind i = MessageComponent
      ∨ CustomId.parseRawModalCustomId (customId i) = None)
     ∧ result.2 = {| sessions := sessions w;
                     replies := replies w ++ [EphemeralReply MSG_NOT_WIRED] |}).
Proof.
  cbv zeta. rewrite router_other_paths.
  destruct (getInteractionCustomId i) as [id|] eqn:Hid; [|done].
  assert (Hcid : id = customId i).
  { unfold getInteractionCustomId in Hid.
    destruct (isMessageComponent i); [congruence|].
    destruct (isModalSubmit i); congruence. }
  subst id.
  destruct (Js.startsWith (customId i) RAW_MODAL_PREFIX); cbn [negb]; [|done].
  destruct (CustomId.parseRawModalCustomId (customId i)) as [p|] eqn:Hparse.
  2:{ intros _. right. split; [by right|done]. }
  destruct (FeatureFlag.isRawModalPilotEnabled _ _ _) eqn:Hgate; cbn [negb]; [|done].
  destruct (isModalSubmit i) eqn:Hsubmit.
  - assert (Hkind : kind i = ModalSubmit).
    { unfold isModalSubmit in Hsubmit. by destruct (kind i). }
    rewrite (routed_submission env nowCheck nowClaim i w p Hkind Hparse Hgate).
    intros _. left. split; [done|]. split; [by eexists|]. cbn [snd].
    rewrite (submit_outcome nowCheck nowClaim i _ w Hkind).
    assert (Hin : ∀ t m, m ∈ SUBMIT_MESSAGES →
              ∃ message, message ∈ SUBMIT_MESSAGES
                ∧ replies (answered w t m)
                  = replies w ++ [DeferredReply; EphemeralReply message]).
    { intros t m Hm. by exists m. }
    unfold SUBMIT_MESSAGES in Hin.
    destruct (SubmitValidation.validateRawModalSubmitInteractionPayload _ _)
      as [v|e]; cbn [snd]; [|apply Hin; in_list].
    destruct (SubmitValidation.ok v); cbn [negb]; [|apply Hin; in_list].
    destruct (sessions w !! CustomId.parsed_sessionId p) as [r|];
      [|apply Hin; in_list].
    destruct (String.eqb (OWNER_USER_ID r) (userId i)); cbn [negb];
      [|apply Hin; in_list].
    destruct (EXPIRES_AT r <=? nowCheck); [apply Hin; in_list|].
    destruct (bool_decide (STATUS r = open)); cbn [negb];
      [|apply Hin; in_list].
    destruct (nowClaim <? EXPIRES_AT r); apply Hin; in_list.
  - intros _. right. split; [|done]. left.
    unfold getInteractionCustomId, isMessageComponent, isModalSubmit in *.
    by destruct (kind i).
Qed.

Lemma router_answers_once_witness :
  let result :=
    tryHandleManagedRawModalInteraction Samples.env Samples.now Samples.now
      (Samples.submission "modal:todo:v1:create:abc123" [Samples.textField])
      {| sessions := Samples.table open (Samples.now + 60000); replies := [] |} in
  (kind (Samples.submission "modal:todo:v1:create:abc123" [Samples.textField])
   = ModalSubmit
   ∧ is_Some (CustomId.parseRawModalCustomId "modal:todo:v1:create:abc123")
   ∧ ∃ message, message ∈ SUBMIT_MESSAGES
       ∧ replies result.2 = [DeferredReply; EphemeralReply message])
  ∨ ((kind (Samples.submission "modal:todo:v1:create:abc123" [Samples.textField])
      = MessageComponent
      ∨ CustomId.parseRawModalCustomId "modal:todo:v1:create:abc123" = None)
     ∧ result.2 = {| sessions := Samples.table open (Samples.now + 60000);
                     replies := [EphemeralReply MSG_NOT_WIRED] |}).
Proof.
  apply (router_answers_once Samples.env Samples.now Samples.now
           (Samples.submission "modal:todo:v1:create:abc123" [Samples.textField])
           {| sessions := Samples.table open (Samples.now + 60000); replies := [] |}).
  by vm_compute.
Defined.

End RouterOutcomes.

(** ** Accepted, repeated and late submissions *)

Section RouterSubmissions.
Import Session Router RouterRuns.
Implicit Types (i : Interaction) (w : World) (r : RawModalSessionRow)
  (t : Table).

Ltac other_message H :=
  apply answered_replies in H; vm_compute in H; discriminate H.

(** X18. The router answers an event with the acknowledgement and the
    message that the submission was accepted exactly when the event is a
    modal submission whose custom id decodes to an enabled feature, its
    payload is valid, and the session named by the id is stored, owned by
    the submitting user, open, and expires after both the clock of the
    expiry test and the clock of the claim. *)
Theorem submission_accepted_iff env nowCheck nowClaim i w :
  let result := tryHandleManagedRawModalInteraction env nowCheck nowClaim i w in
  replies result.2 = replies w ++ [DeferredReply; EphemeralReply MSG_ACCEPTED]
  ↔ kind i = ModalSubmit
    ∧ ∃ p v r,
        CustomId.parseRawModalCustomId (customId i) = Some p
        ∧ FeatureFlag.isRawModalPilotEnabled env
            (CustomId.parsed_feature p) (guildId i) = true
        ∧ SubmitValidation.validateRawModalSubmitInteractionPayload
            (customId i) (components i) = Ok v
        ∧ SubmitValidation.ok v = true
        ∧ sessions w !! CustomId.parsed_sessionId p = Some r
        ∧ OWNER_USER_ID r = userId i
        ∧ STATUS r = open
        ∧ nowCheck < EXPIRES_AT r
        ∧ nowClaim < EXPIRES_AT r.
Proof.
  cbv zeta. split.
  - rewrite router_other_paths.
    assert (Hnone : replies w
                    ≠ replies w ++ [DeferredReply; EphemeralReply MSG_ACCEPTED]).
    { rewrite <- (app_nil_r (replies w)) at 1. by apply not_answered. }
    assert (Hone : replies w ++ [EphemeralReply MSG_NOT_WIRED]
                   ≠ replies w ++ [DeferredReply; EphemeralReply MSG_ACCEPTED]).
    { by apply not_answered. }
    destruct (getInteractionCustomId i) as [id|] eqn:Hid; [|done].
    assert (Hcid : id = customId i).
    { unfold getInteractionCustomId in Hid.
      destruct (isMessageComponent i); [congruence|].
      destruct (isModalSubmit i); congruence. }
    subst id.
    destruct (Js.startsWith (customId i) RAW_MODAL_PREFIX); cbn [negb]; [|done].
    destruct (CustomId.parseRawModalCustomId (customId i)) as [p|] eqn:Hparse;
      [|done].
    destruct (FeatureFlag.isRawModalPilotEnabled _ _ _) eqn:Hgate; cbn [negb];
      [|done].
    destruct (isModalSubmit i) eqn:Hsubmit; [|done].
    assert (Hkind : kind i = ModalSubmit).
    { unfold isModalSubmit in Hsubmit. by destruct (kind i). }
    rewrite (routed_submission env nowCheck nowClaim i w p Hkind Hparse Hgate).
    cbn [snd]. rewrite (submit_outcome nowCheck nowClaim i _ w Hkind).
    destruct (SubmitValidation.validateRawModalSubmitInteractionPayload _ _)
      as [v|e] eqn:Hvalid; cbn [snd]; [|intros H; other_message H].
    destruct (SubmitValidation.ok v) eqn:Hok; cbn [negb];
      [|intros H; other_message H].
    destruct (sessions w !! CustomId.parsed_sessionId p) as [r|] eqn:Hsid;
      [|intros H; other_message H].
    destruct (String.eqb (OWNER_USER_ID r) (userId i)) eqn:Howner; cbn [negb];
      [|intros H; other_message H].
    destruct (EXPIRES_AT r <=? nowCheck) eqn:Hexp; [intros H; other_message H|].
    destruct (bool_decide (STATUS r = open)) eqn:Hopen; cbn [negb];
      [|intros H; other_message H].
    destruct (nowClaim <? EXPIRES_AT r) eqn:Hclaim; [|intros H; other_message H].
    intros _. split; [done|]. exists p, v, r.
    apply String.eqb_eq in Howner. apply Z.leb_gt in Hexp.
    apply bool_decide_eq_true in Hopen. apply Z.ltb_lt in Hclaim. done.
  - intros (Hkind & p & v & r & Hparse & Hgate & Hvalid & Hok & Hsid & Howner
            & Hopen & Hcheck & Hclaim).
    rewrite (routed_submission env nowCheck nowClaim i w p Hkind Hparse Hgate).
    rewrite Hvalid. cbn [snd].
    rewrite (submit_outcome nowCheck nowClaim i _ w Hkind), Hvalid, Hok, Hsid.
    cbn [negb snd]. rewrite Howner, String.eqb_refl. cbn [negb].
    apply Z.leb_gt in Hcheck. apply Z.ltb_lt in Hclaim.
    rewrite Hcheck, Hclaim, bool_decide_eq_true_2 by done. done.
Qed.

(** X19. Handling an event on its own, with no other handler between its
    read and its write, the router writes to a session only if it is open
    and owned by the submitting user, and then only its status: either the
    router leaves the table as it was, or the event is a modal submission
    for a session that was open, the status of that session is now
    submitted and the answer is the acceptance, or it is now expired, the
    session had expired at the clock of the expiry test and the answer is
    the expiry message. The other columns of the session and the other
    sessions are kept. Every other answer leaves the table alone. *)
Theorem router_writes_only_open_sessions env nowCheck nowClaim i w :
  let result := tryHandleManagedRawModalInteraction env nowCheck nowClaim i w in
  sessions result.2 = sessions w
  ∨ ∃ p r r',
      kind i = ModalSubmit
      ∧ CustomId.parseRawModalCustomId (customId i) = Some p
      ∧ sessions w !! CustomId.parsed_sessionId p = Some r
      ∧ STATUS r = open
      ∧ OWNER_USER_ID r = userId i
      ∧ sessions result.2 !! CustomId.parsed_sessionId p = Some r'
      ∧ Props.sameExceptStatus r r'
      ∧ (∀ k, k ≠ CustomId.parsed_sessionId p →
              sessions result.2 !! k = sessions w !! k)
      ∧ ((STATUS r' = submitted
          ∧ nowClaim < EXPIRES_AT r
          ∧ replies result.2
            = replies w ++ [DeferredReply; EphemeralReply MSG_ACCEPTED])
         ∨ (STATUS r' = expired
            ∧ EXPIRES_AT r ≤ nowCheck
            ∧ replies result.2
              = replies w ++ [DeferredReply; EphemeralReply MSG_EXPIRED])).
Proof.
  cbv zeta. rewrite router_other_paths.
  destruct (getInteractionCustomId i) as [id|] eqn:Hid; [|by left].
  assert (Hcid : id = customId i).
  { unfold getInteractionCustomId in Hid.
    destruct (isMessageComponent i); [congruence|].
    destruct (isModalSubmit i); congruence. }
  subst id.
  destruct (Js.startsWith (customId i) RAW_MODAL_PREFIX); cbn [negb]; [|by left].
  destruct (CustomId.parseRawModalCustomId (customId i)) as [p|] eqn:Hparse;
    [|by left].
  destruct (FeatureFlag.isRawModalPilotEnabled _ _ _) eqn:Hgate; cbn [negb];
    [|by left].
  destruct (isModalSubmit i) eqn:Hsubmit; [|by left].
  assert (Hkind : kind i = ModalSubmit).
  { unfold isModalSubmit in Hsubmit. by destruct (kind i). }
  rewrite (routed_submission env nowCheck nowClaim i w p Hkind Hparse Hgate).
  cbn [snd]. rewrite (submit_outcome nowCheck nowClaim i _ w Hkind).
  destruct (SubmitValidation.validateRawModalSubmitInteractionPayload _ _)
    as [v|e] eqn:Hvalid; cbn [snd]; [|by left].
  destruct (SubmitValidation.ok v) eqn:Hok; cbn [negb]; [|by left].
  destruct (sessions w !! CustomId.parsed_sessionId p) as [r|] eqn:Hsid;
    [|by left].
  destruct (String.eqb (OWNER_USER_ID r) (userId i)) eqn:Howner; cbn [negb];
    [|by left].
  apply String.eqb_eq in Howner.
  destruct (EXPIRES_AT r <=? nowCheck) eqn:Hexp.
  { destruct (bool_decide (STATUS r = open)) eqn:Hopen; [|by left].
    apply bool_decide_eq_true in Hopen. apply Z.leb_le in Hexp.
    right. exists p, r, (setStatus expired r).
    destruct (setStatus_spec expired r) as [Hstatus Hsame].
    cbn [answered sessions replies]. split_and!; try done.
    - apply lookup_insert_eq.
    - intros k Hk. by rewrite lookup_insert_ne.
    - by right. }
  destruct (bool_decide (STATUS r = open)) eqn:Hopen; cbn [negb]; [|by left].
  apply bool_decide_eq_true in Hopen.
  destruct (nowClaim <? EXPIRES_AT r) eqn:Hclaim; [|by left].
  apply Z.ltb_lt in Hclaim.
  right. exists p, r, (setStatus submitted r).
  destruct (setStatus_spec submitted r) as [Hstatus Hsame].
  cbn [answered sessions replies]. split_and!; try done.
  - apply lookup_insert_eq.
  - intros k Hk. by rewrite lookup_insert_ne.
  - by left.
Qed.

(** X20. A submission that is accepted cannot be repeated: the first
    attempt is answered with the acceptance and leaves the session
    submitted; a second attempt with the same event is handled, is answered
    that the session is no longer active, or that it expired if it has
    expired by then, and leaves the table as the first attempt left it, the
    session still submitted. *)
Theorem repeated_submission_is_refused
    env (now1 claim1 now2 claim2 : Z) i
    (p : CustomId.IRawModalParsedCustomId)
    (v : SubmitValidation.IRawModalSubmitValidationResult) t r :
  kind i = ModalSubmit →
  CustomId.parseRawModalCustomId (customId i) = Some p →
  FeatureFlag.isRawModalPilotEnabled env (CustomId.parsed_feature p) (guildId i) = true →
  SubmitValidation.validateRawModalSubmitInteractionPayload
    (customId i) (components i) = Ok v →
  SubmitValidation.ok v = true →
  t !! CustomId.parsed_sessionId p = Some r →
  OWNER_USER_ID r = userId i →
  STATUS r = open →
  now1 < EXPIRES_AT r →
  claim1 < EXPIRES_AT r →
  let first :=
    tryHandleManagedRawModalInteraction env now1 claim1 i
      {| sessions := t; replies := [] |} in
  let second :=
    tryHandleManagedRawModalInteraction env now2 claim2 i
      {| sessions := sessions first.2; replies := [] |} in
  replies first.2 = [DeferredReply; EphemeralReply MSG_ACCEPTED]
  ∧ second.1 = Ok true
  ∧ replies second.2
    = [DeferredReply;
       EphemeralReply (if EXPIRES_AT r <=? now2 then MSG_EXPIRED
                       else MSG_NOT_ACTIVE)]
  ∧ sessions second.2 = sessions first.2
  ∧ ∃ r2, sessions second.2 !! CustomId.parsed_sessionId p = Some r2
          ∧ STATUS r2 = submitted
          ∧ Props.sameExceptStatus r r2.
Proof.
  intros Hkind Hparse Hgate Hvalid Hok Hsid Howner Hopen Hcheck Hclaim.
  cbv zeta.
  rewrite (routed_submission env now1 claim1 i _ p Hkind Hparse Hgate).
  rewrite Hvalid. cbn [snd].
  rewrite (submit_outcome now1 claim1 i _ _ Hkind), Hvalid, Hok.
  cbn [negb snd sessions]. rewrite Hsid, Howner, String.eqb_refl. cbn [negb].
  apply Z.leb_gt in Hcheck. apply Z.ltb_lt in Hclaim.
  rewrite Hcheck, Hclaim, bool_decide_eq_true_2 by done.
  cbn [negb answered sessions replies app].
  rewrite (routed_submission env now2 claim2 i _ p Hkind Hparse Hgate).
  rewrite Hvalid. cbn [fst snd].
  rewrite (submit_outcome now2 claim2 i _ _ Hkind), Hvalid, Hok.
  cbn [negb snd sessions]. rewrite lookup_insert_eq.
  cbn [setStatus OWNER_USER_ID EXPIRES_AT STATUS].
  rewrite Howner, String.eqb_refl. cbn [negb].
  destruct (setStatus_spec submitted r) as [Hstatus Hsame].
  destruct (EXPIRES_AT r <=? now2);
    cbn [answered sessions replies app];
    rewrite ?bool_decide_eq_false_2 by done; cbn [negb answered sessions replies app];
    (split_and!; try done; exists (setStatus submitted r);
     by rewrite lookup_insert_eq).
Qed.

Lemma repeated_submission_is_refused_witness :
  let i := Samples.submission "modal:todo:v1:create:abc123" [Samples.textField] in
  let first :=
    tryHandleManagedRawModalInteraction Samples.env Samples.now Samples.now i
      {| sessions := Samples.table open (Samples.now + 60000); replies := [] |} in
  let second :=
    tryHandleManagedRawModalInteraction Samples.env
      (Samples.now + 5000) (Samples.now + 5000) i
      {| sessions := sessions first.2; replies := [] |} in
  replies first.2 = [DeferredReply; EphemeralReply MSG_ACCEPTED]
  ∧ second.1 = Ok true
  ∧ replies second.2 = [DeferredReply; EphemeralReply MSG_NOT_ACTIVE]
  ∧ sessions second.2 = sessions first.2
  ∧ ∃ r2, sessions second.2 !! "abc123" = Some r2
          ∧ STATUS r2 = submitted
          ∧ Props.sameExceptStatus (Samples.row open (Samples.now + 60000)) r2.
Proof.
  apply (repeated_submission_is_refused
           Samples.env Samples.now Samples.now
           (Samples.now + 5000) (Samples.now + 5000)
           (Samples.submission "modal:todo:v1:create:abc123" [Samples.textField])
           {| CustomId.parsed_feature := "todo"; CustomId.parsed_flow := "create";
              CustomId.parsed_sessionId := "abc123"; CustomId.version := 1 |}
           SubmitValidation.valid
           (Samples.table open (Samples.now + 60000))
           (Samples.row open (Samples.now + 60000)));
    by vm_compute.
Defined.

(** X21. A session that expires between the expiry test and the claim is
    neither accepted nor marked expired: the claim fails, the user is told
    that the modal was already submitted or expired, and the table is left
    as it was, the session still open. *)
Theorem session_expiring_before_claim
    env (nowCheck nowClaim : Z) i
    (p : CustomId.IRawModalParsedCustomId)
    (v : SubmitValidation.IRawModalSubmitValidationResult) t r :
  kind i = ModalSubmit →
  CustomId.parseRawModalCustomId (customId i) = Some p →
  FeatureFlag.isRawModalPilotEnabled env (CustomId.parsed_feature p) (guildId i) = true →
  SubmitValidation.validateRawModalSubmitInteractionPayload
    (customId i) (components i) = Ok v →
  SubmitValidation.ok v = true →
  t !! CustomId.parsed_sessionId p = Some r →
  OWNER_USER_ID r = userId i →
  STATUS r = open →
  nowCheck < EXPIRES_AT r ≤ nowClaim →
  tryHandleManagedRawModalInteraction env nowCheck nowClaim i
    {| sessions := t; replies := [] |}
  = (Ok true,
     {| sessions := t;
        replies := [DeferredReply; EphemeralReply MSG_CLAIM_FAILED] |}).
Proof.
  intros Hkind Hparse Hgate Hvalid Hok Hsid Howner Hopen [Hcheck Hclaim].
  rewrite (routed_submission env nowCheck nowClaim i _ p Hkind Hparse Hgate).
  rewrite Hvalid. cbn [snd].
  rewrite (submit_outcome nowCheck nowClaim i _ _ Hkind), Hvalid, Hok.
  cbn [negb snd sessions]. rewrite Hsid, Howner, String.eqb_refl. cbn [negb].
  apply Z.leb_gt in Hcheck. apply Z.ltb_ge in Hclaim.
  rewrite Hcheck, Hclaim, bool_decide_eq_true_2 by done. done.
Qed.

Lemma session_expiring_before_claim_witness :
  tryHandleManagedRawModalInteraction Samples.env
    (Samples.now + 59999) (Samples.now + 60000)
    (Samples.submission "modal:todo:v1:create:abc123" [Samples.textField])
    {| sessions := Samples.table open (Samples.now + 60000); replies := [] |}
  = (Ok true,
     {| sessions := Samples.table open (Samples.now + 60000);
        replies := [DeferredReply; EphemeralReply MSG_CLAIM_FAILED] |}).
Proof.
  apply (session_expiring_before_claim
           Samples.env (Samples.now + 59999) (Samples.now + 60000)
           (Samples.submission "modal:todo:v1:create:abc123" [Samples.textField])
           {| CustomId.parsed_feature := "todo"; CustomId.parsed_flow := "create";
              CustomId.parsed_sessionId := "abc123"; CustomId.version := 1 |}
           SubmitValidation.valid
           (Samples.table open (Samples.now + 60000))
           (Samples.row open (Samples.now + 60000)));
    by vm_compute.
Defined.

End RouterSubmissions.

(** ** A payload that makes the validation throw, and two handlers at once *)

Section RouterEdges.
Import Session Router RouterRuns.
Implicit Types (i : Interaction) (w : World) (r : RawModalSessionRow)
  (t : Table).

(** The validation throws only on a file upload without an attachment
    collection; the fields before it have passed. *)
Lemma validateFields_throws fields seen e :
  SubmitValidation.validateFields fields seen = Throw e →
  ∃ field, field ∈ fields
           ∧ SubmitValidation.type field = Discord.FileUpload
           ∧ SubmitValidation.attachments field = None.
Proof.
  revert seen. induction fields as [|field rest IH]; intros seen; [done|].
  cbn [SubmitValidation.validateFields].
  destruct (bool_decide _); [done|].
  destruct (SubmitValidation.validateModalField field) as [check|e'] eqn:Hfield.
  - destruct (negb (SubmitValidation.ok check)); [done|].
    intros (f & Hf & Hrest)%IH. exists f. split; [by apply list_elem_of_further|done].
  - intros _. exists field. split; [apply list_elem_of_here|].
    unfold SubmitValidation.validateModalField in Hfield.
    destruct (negb _); [done|].
    destruct (SubmitValidation.type field); try done.
    + destruct (SubmitValidation.value field) as [[| | | |s|]|]; try done.
      by destruct (_ <? _)%nat.
    + by destruct (SubmitValidation.attachments field).
Qed.

Lemma validateFields_returns fields seen :
  (∀ field, field ∈ fields →
      SubmitValidation.type field = Discord.FileUpload →
      is_Some (SubmitValidation.attachments field)) →
  ∃ check, SubmitValidation.validateFields fields seen = Ok check.
Proof.
  intros Hall.
  destruct (SubmitValidation.validateFields fields seen) as [check|e] eqn:Hres;
    [by eexists|].
  apply validateFields_throws in Hres as (field & Hin & Hty & Hnone).
  destruct (Hall field Hin Hty) as [keys Hkeys]. congruence.
Qed.

(** X22. The validation of a submission throws only if one of the submitted
    fields is a file upload that carries no attachment collection, and
    returns whenever every file upload carries one. What it throws the
    router catches: the submission is handled, the user is sent the
    acknowledgement and the message that something went wrong, and the
    table is left as it was. *)
Theorem validation_error_is_caught env nowCheck nowClaim i w
    (p : CustomId.IRawModalParsedCustomId) :
  kind i = ModalSubmit →
  CustomId.parseRawModalCustomId (customId i) = Some p →
  FeatureFlag.isRawModalPilotEnabled env (CustomId.parsed_feature p) (guildId i) = true →
  let fields := SubmitValidation.collectModalFields (components i) in
  let validation :=
    SubmitValidation.validateRawModalSubmitInteractionPayload
      (customId i) (components i) in
  ((∀ field, field ∈ fields →
       SubmitValidation.type field = Discord.FileUpload →
       is_Some (SubmitValidation.attachments field)) →
   ∃ check, validation = Ok check)
  ∧ ∀ e, validation = Throw e →
      (∃ field, field ∈ fields
                ∧ SubmitValidation.type field = Discord.FileUpload
                ∧ SubmitValidation.attachments field = None)
      ∧ tryHandleManagedRawModalInteraction env nowCheck nowClaim i w
        = (Ok true,
           {| sessions := sessions w;
              replies := replies w
                         ++ [DeferredReply; EphemeralReply MSG_ERROR] |}).
Proof.
  intros Hkind Hparse Hgate. cbv zeta. split.
  - intros Hall.
    unfold SubmitValidation.validateRawModalSubmitInteractionPayload.
    destruct (negb _); [by eexists|].
    destruct (_ =? _)%nat; [by eexists|].
    by apply validateFields_returns.
  - intros e Hthrow. split.
    + unfold SubmitValidation.validateRawModalSubmitInteractionPayload in Hthrow.
      destruct (negb _); [done|].
      destruct (_ =? _)%nat; [done|].
      by apply validateFields_throws in Hthrow.
    + rewrite (routed_submission env nowCheck nowClaim i w p Hkind Hparse Hgate).
      by rewrite Hthrow.
Qed.

Lemma validation_error_is_caught_witness :
  let upload :=
    {| SubmitValidation.type := Discord.FileUpload;
       SubmitValidation.customId := Some "files";
       SubmitValidation.value := Discord.JsPrimitive Discord.PUndefined;
       SubmitValidation.values := Discord.JsArray [Discord.PString "1"];
       SubmitValidation.attachments := None |} in
  tryHandleManagedRawModalInteraction Samples.env Samples.now Samples.now
    (Samples.submission "modal:todo:v1:create:abc123" [Samples.textField; upload])
    {| sessions := Samples.table open (Samples.now + 60000); replies := [] |}
  = (Ok true,
     {| sessions := Samples.table open (Samples.now + 60000);
        replies := [DeferredReply; EphemeralReply MSG_ERROR] |}).
Proof.
  cbv zeta.
  refine (proj2 (proj2 (validation_error_is_caught
    Samples.env Samples.now Samples.now
    (Samples.submission "modal:todo:v1:create:abc123"
       [Samples.textField;
        {| SubmitValidation.type := Discord.FileUpload;
           SubmitValidation.customId := Some "files";
           SubmitValidation.value := Discord.JsPrimitive Discord.PUndefined;
           SubmitValidation.values := Discord.JsArray [Discord.PString "1"];
           SubmitValidation.attachments := None |}])
    {| sessions := Samples.table open (Samples.now + 60000); replies := [] |}
    {| CustomId.parsed_feature := "todo"; CustomId.parsed_flow := "create";
       CustomId.parsed_sessionId := "abc123"; CustomId.version := 1 |}
    _ _ _) "Cannot read properties of undefined (reading 'keys')" _)).
  - reflexivity.
  - by vm_compute.
  - by vm_compute.
  - by vm_compute.
Defined.

(** The handler is its two steps run one after the other. *)
Lemma submit_in_two_steps nowCheck nowClaim i sid w :
  handleManagedRawModalSubmit nowCheck nowClaim i sid w
  = (found ← readForSubmit i sid;
     match found with
     | None => mret tt
     | Some session => finishSubmit nowCheck nowClaim i session
     end) w.
Proof.
  unfold handleManagedRawModalSubmit, readForSubmit, finishSubmit.
  destruct (negb (isModalSubmit i)); [done|].
  unfold mbind, M_bind, mret, M_ret, safeDeferReply, emit, liftResult.
  destruct (SubmitValidation.validateRawModalSubmitInteractionPayload _ _)
    as [v|e]; [|done].
  destruct (negb (SubmitValidation.ok v)).
  - by destruct (sendSessionRecoveryMessage i MSG_INVALID_PAYLOAD _)
      as [[[]|e] w'].
  - unfold onTable. cbn [sessions replies]. done.
Qed.

(** X23. Two submissions of one session that are handled at the same time
    can leave a session that was accepted with the status expired. The
    handler of the second submission reads the session while it is open;
    the first submission is then handled in full and accepted, the status
    becoming submitted; the session expires; and the second handler goes
    on from what it had read: it finds the session expired, writes the
    status expired over submitted and answers that the session expired. *)
Theorem late_handler_expires_accepted_session
    (now1 claim1 now2 claim2 : Z) i1 i2 sid
    (v1 v2 : SubmitValidation.IRawModalSubmitValidationResult) t r :
  kind i1 = ModalSubmit →
  kind i2 = ModalSubmit →
  SubmitValidation.validateRawModalSubmitInteractionPayload
    (customId i1) (components i1) = Ok v1 →
  SubmitValidation.ok v1 = true →
  SubmitValidation.validateRawModalSubmitInteractionPayload
    (customId i2) (components i2) = Ok v2 →
  SubmitValidation.ok v2 = true →
  t !! sid = Some r →
  OWNER_USER_ID r = userId i1 →
  OWNER_USER_ID r = userId i2 →
  STATUS r = open →
  now1 < EXPIRES_AT r →
  claim1 < EXPIRES_AT r →
  EXPIRES_AT r ≤ now2 →
  ∃ found w1 w2 w3,
    readForSubmit i2 sid {| sessions := t; replies := [] |}
    = (Ok (Some found), w1)
    ∧ handleManagedRawModalSubmit now1 claim1 i1 sid w1 = (Ok tt, w2)
    ∧ finishSubmit now2 claim2 i2 found w2 = (Ok tt, w3)
    ∧ (∃ r2, sessions w2 !! sid = Some r2 ∧ STATUS r2 = submitted)
    ∧ (∃ r3, sessions w3 !! sid = Some r3 ∧ STATUS r3 = expired
             ∧ Props.sameExceptStatus r r3)
    ∧ replies w3 = [DeferredReply; DeferredReply;
                    EphemeralReply MSG_ACCEPTED; EphemeralReply MSG_EXPIRED].
Proof.
  intros Hkind1 Hkind2 Hvalid1 Hok1 Hvalid2 Hok2 Hsid Howner1 Howner2 Hopen
    Hcheck Hclaim Hexp.
  exists (Some (mapRawModalSessionRow sid r)),
    {| sessions := t; replies := [DeferredReply] |},
    {| sessions := <[sid := setStatus submitted r]> t;
       replies := [DeferredReply; DeferredReply; EphemeralReply MSG_ACCEPTED] |},
    {| sessions := <[sid := setStatus expired (setStatus submitted r)]>
                     (<[sid := setStatus submitted r]> t);
       replies := [DeferredReply; DeferredReply;
                   EphemeralReply MSG_ACCEPTED; EphemeralReply MSG_EXPIRED] |}.
  assert (Hstored : <[sid := setStatus submitted r]> t !! sid
                    = Some (setStatus submitted r)) by apply lookup_insert_eq.
  split_and!.
  - unfold readForSubmit, isModalSubmit. rewrite Hkind2. cbn [negb].
    unfold mbind, M_bind, mret, M_ret, safeDeferReply, emit, liftResult, onTable.
    rewrite Hvalid2, Hok2. cbn [negb sessions replies app].
    unfold getRawModalSessionRecord. by rewrite Hsid.
  - rewrite (submit_outcome now1 claim1 i1 sid _ Hkind1), Hvalid1, Hok1.
    cbn [negb snd sessions]. rewrite Hsid, Howner1, String.eqb_refl. cbn [negb].
    apply Z.leb_gt in Hcheck. apply Z.ltb_lt in Hclaim.
    rewrite Hcheck, Hclaim, bool_decide_eq_true_2 by done. done.
  - unfold finishSubmit, isRawModalSessionExpired.
    change (expiresAt (mapRawModalSessionRow sid r)) with (EXPIRES_AT r).
    change (status (mapRawModalSessionRow sid r)) with (STATUS r).
    change (sessionId (mapRawModalSessionRow sid r)) with sid.
    change (ownerUserId (mapRawModalSessionRow sid r)) with (OWNER_USER_ID r).
    rewrite Howner2, String.eqb_refl. cbn [negb].
    apply Z.leb_le in Hexp. rewrite Hexp, bool_decide_eq_true_2 by done.
    unfold mbind, M_bind, mret, M_ret, onTable, sendSessionRecoveryMessage,
      safeReply, emit, isRepliable, expireRawModalSession.
    rewrite Hkind2, updateRawModalSessionStatus_eq. cbn [negb sessions replies].
    by rewrite Hstored.
  - by exists (setStatus submitted r).
  - exists (setStatus expired (setStatus submitted r)).
    split; [apply lookup_insert_eq|done].
  - done.
Qed.

Lemma late_handler_expires_accepted_session_witness :
  let i := Samples.submission "modal:todo:v1:create:abc123" [Samples.textField] in
  ∃ found w1 w2 w3,
    readForSubmit i "abc123"
      {| sessions := Samples.table open (Samples.now + 60000); replies := [] |}
    = (Ok (Some found), w1)
    ∧ handleManagedRawModalSubmit (Samples.now + 59000) (Samples.now + 59500)
        i "abc123" w1 = (Ok tt, w2)
    ∧ finishSubmit (Samples.now + 60000) (Samples.now + 60000) i found w2
      = (Ok tt, w3)
    ∧ (∃ r2, sessions w2 !! "abc123" = Some r2 ∧ STATUS r2 = submitted)
    ∧ (∃ r3, sessions w3 !! "abc123" = Some r3 ∧ STATUS r3 = expired
             ∧ Props.sameExceptStatus
                 (Samples.row open (Samples.now + 60000)) r3)
    ∧ replies w3 = [DeferredReply; DeferredReply;
                    EphemeralReply MSG_ACCEPTED; EphemeralReply MSG_EXPIRED].
Proof.
  apply (late_handler_expires_accepted_session
           (Samples.now + 59000) (Samples.now + 59500)
           (Samples.now + 60000) (Samples.now + 60000)
           (Samples.submission "modal:todo:v1:create:abc123" [Samples.textField])
           (Samples.submission "modal:todo:v1:create:abc123" [Samples.textField])
           "abc123" SubmitValidation.valid SubmitValidation.valid
           (Samples.table open (Samples.now + 60000))
           (Samples.row open (Samples.now + 60000)));
    by vm_compute.
Defined.

End RouterEdges.

(** ** The submissions the validation accepts *)

Section AcceptedSubmissions.
Import Discord SubmitValidation Accepted.

Lemma validateCustomId_ok (id : option string) :
  ok (validateCustomId id) = true
  ↔ ∃ s, id = Some s ∧ (1 ≤ String.length s ≤ 100)%nat.
Proof.
  unfold validateCustomId, MAX_CUSTOM_ID_LENGTH. destruct id as [s|].
  - destruct (0 <? String.length s)%nat eqn:Hpos; cbn [negb].
    + destruct (100 <? String.length s)%nat eqn:Hlong; cbn [ok invalid valid].
      * apply Nat.ltb_lt in Hlong. split; [done|]. intros (? & [= <-] & ?). lia.
      * apply Nat.ltb_ge in Hlong. apply Nat.ltb_lt in Hpos.
        split; [|done]. intros _. exists s. split; [done|lia].
    + apply Nat.ltb_ge in Hpos. cbn [ok invalid].
      split; [done|]. intros (? & [= <-] & ?). lia.
  - cbn [ok invalid]. split; [done|]. by intros (? & [=] & _).
Qed.

Lemma forallb_isString (items : list JsPrim) :
  forallb isString items = true ↔ Forall (λ p, is_Some (stringOf p)) items.
Proof.
  rewrite forallb_forall, Forall_forall. split; intros H p Hp.
  - apply list_elem_of_In, H in Hp. destruct p; try done; by eexists.
  - apply list_elem_of_In, H in Hp. by destruct p, Hp.
Qed.

Lemma validateSelectValues_ok (v : JsValue) :
  ok (validateSelectValues v) = true
  ↔ ∃ items, v = JsArray items ∧ (length items ≤ 25)%nat
             ∧ Forall (λ p, is_Some (stringOf p)) items.
Proof.
  unfold validateSelectValues, MAX_SELECT_VALUES. destruct v as [p|items].
  - cbn [ok invalid]. split; [done|]. by intros (? & [=] & _).
  - destruct (25 <? length items)%nat eqn:Hmany; cbn [ok invalid].
    + apply Nat.ltb_lt in Hmany. split; [done|]. intros (? & [= <-] & ? & _). lia.
    + apply Nat.ltb_ge in Hmany.
      destruct (forallb isString items) eqn:Hall; cbn [negb ok invalid valid].
      * split; [|done]. intros _. exists items. by rewrite <- forallb_isString.
      * split; [done|]. intros (? & [= <-] & _ & Hstr).
        apply forallb_isString in Hstr. congruence.
Qed.

Lemma checkAttachmentIds_ok (items : list JsPrim) (keys : list string) :
  ok (checkAttachmentIds items (list_to_set keys)) = true
  ↔ Forall (λ p, ∃ s, p = PString s ∧ s ≠ EmptyString ∧ s ∈ keys) items.
Proof.
  induction items as [|p items IH]; [by split|].
  cbn [checkAttachmentIds]. rewrite Forall_cons.
  destruct (isNonEmptyString p) eqn:Hp; cbn [negb].
  - destruct p as [| | | |s|]; try done. cbn [isNonEmptyString] in Hp.
    apply Nat.ltb_lt in Hp. cbn [toPropertyKey].
    destruct (bool_decide (s ∈ (list_to_set keys : gset string))) eqn:Hin;
      cbn [negb].
    + apply bool_decide_eq_true in Hin. apply elem_of_list_to_set in Hin.
      rewrite IH. split; [|by intros [_ ?]]. intros Hrest. split; [|done].
      exists s. split_and!; [done| |done]. intros ->. cbn in Hp. lia.
    + apply bool_decide_eq_false in Hin. rewrite elem_of_list_to_set in Hin.
      cbn [ok invalid]. split; [done|]. by intros [(? & [= <-] & _ & ?) _].
  - cbn [ok invalid]. split; [done|]. intros [(s & -> & Hne & _) _].
    cbn [isNonEmptyString] in Hp. apply Nat.ltb_ge in Hp.
    destruct s; [done|]. cbn in Hp. lia.
Qed.

Lemma validateModalField_ok (field : ModalData) :
  (∃ check, validateModalField field = Ok check ∧ ok check = true)
  ↔ acceptedField field.
Proof.
  unfold validateModalField, acceptedField.
  pose proof (validateCustomId_ok (customId field)) as Hid.
  destruct (ok (validateCustomId (customId field))) eqn:Hcheck; cbn [negb].
  2:{ split.
      - intros (check & [= <-] & Hok). congruence.
      - intros [Hsome _]. apply Hid in Hsome. done. }
  assert (Hsome : ∃ s, customId field = Some s ∧ (1 ≤ String.length s ≤ 100)%nat)
    by by apply Hid.
  destruct (type field);
    try (split; [by intros (check & [= <-] & Hok)|by intros [_ []]]).
  - (* a select *)
    rewrite <- validateSelectValues_ok. split.
    + intros (check & [= <-] & Hok). done.
    + intros [_ Hok]. by eexists.
  - (* text *)
    destruct (value field) as [[| | | |s|]|items];
      try (split; [by intros (check & [= <-] & Hok)|by intros [_ (? & [=] & _)]]).
    unfold MAX_TEXT_INPUT_LENGTH.
    destruct (4000 <? String.length s)%nat eqn:Hlong.
    + apply Nat.ltb_lt in Hlong. split; [by intros (check & [= <-] & Hok)|].
      intros [_ (? & [= <-] & ?)]. lia.
    + apply Nat.ltb_ge in Hlong. split.
      * intros _. split; [done|]. by exists s.
      * intros _. by exists valid.
  - rewrite <- validateSelectValues_ok. split.
    + intros (check & [= <-] & Hok). done.
    + intros [_ Hok]. by eexists.
  - rewrite <- validateSelectValues_ok. split.
    + intros (check & [= <-] & Hok). done.
    + intros [_ Hok]. by eexists.
  - rewrite <- validateSelectValues_ok. split.
    + intros (check & [= <-] & Hok). done.
    + intros [_ Hok]. by eexists.
  - rewrite <- validateSelectValues_ok. split.
    + intros (check & [= <-] & Hok). done.
    + intros [_ Hok]. by eexists.
  - (* file upload *)
    destruct (attachments field) as [keys|].
    2:{ split; [by intros (check & [=] & _)|by intros [_ (? & ? & _ & [=] & _)]]. }
    unfold validateFileUploadValues, MAX_FILE_UPLOAD_VALUES.
    destruct (values field) as [p|items].
    { split; [by intros (check & [= <-] & Hok)|by intros [_ (? & ? & [=] & _)]]. }
    destruct (length items =? 0)%nat eqn:Hnone.
    { apply Nat.eqb_eq in Hnone. split; [by intros (check & [= <-] & Hok)|].
      intros [_ (? & ? & [= <-] & _ & ? & _)]. lia. }
    apply Nat.eqb_neq in Hnone.
    destruct (10 <? length items)%nat eqn:Hmany.
    { apply Nat.ltb_lt in Hmany. split; [by intros (check & [= <-] & Hok)|].
      intros [_ (? & ? & [= <-] & _ & ? & _)]. lia. }
    apply Nat.ltb_ge in Hmany. split.
    + intros (check & [= <-] & Hok). split; [done|].
      exists items, keys. split_and!; [done|done|lia|lia|].
      by apply checkAttachmentIds_ok.
    + intros [_ (items' & keys' & [= <-] & [= <-] & _ & Hall)].
      eexists. split; [done|]. by apply checkAttachmentIds_ok.
Qed.

Lemma validateFields_ok (fields : list ModalData) (seen : gset string) :
  (∃ check, validateFields fields seen = Ok check ∧ ok check = true)
  ↔ Forall acceptedField fields
    ∧ NoDup (customId <$> fields)
    ∧ ∀ field, field ∈ fields → default EmptyString (customId field) ∉ seen.
Proof.
  revert seen. induction fields as [|field rest IH]; intros seen.
  { cbn. split.
    - intros _. split_and!; [done|constructor|]. by intros ? ?%elem_of_nil.
    - intros _. by exists valid. }
  cbn [validateFields fmap list_fmap].
  rewrite Forall_cons, NoDup_cons.
  destruct (bool_decide (default EmptyString (customId field) ∈ seen)) eqn:Hseen.
  { apply bool_decide_eq_true in Hseen. split.
    - by intros (check & [= <-] & Hok).
    - intros (_ & _ & Hfresh). exfalso. apply (Hfresh field); [|done].
      apply list_elem_of_here. }
  apply bool_decide_eq_false in Hseen.
  pose proof (validateModalField_ok field) as Hfield.
  destruct (validateModalField field) as [check|e] eqn:Hres.
  2:{ split; [by intros (? & [=] & _)|].
      intros ([Hacc _] & _). apply Hfield in Hacc as (? & [=] & _). }
  destruct (ok check) eqn:Hok; cbn [negb].
  2:{ split; [intros (? & [= <-] & ?); congruence|].
      intros ([Hacc _] & _). apply Hfield in Hacc as (? & [= <-] & ?). congruence. }
  assert (Hacc : acceptedField field) by (apply Hfield; by exists check).
  destruct (Hacc) as [(cid & Hcid & Hlen) _].
  assert (Hdefault : ∀ f, acceptedField f →
            ∃ c, customId f = Some c ∧ default EmptyString (customId f) = c).
  { intros f [(c & Hc & _) _]. exists c. by rewrite Hc. }
  rewrite IH. rewrite Hcid in Hseen |- *.
  change (default EmptyString (Some cid)) with cid in *.
  split.
  - intros (Hrest & Hnodup & Hfresh). split_and!.
    + done.
    + done.
    + intros Hdup. apply list_elem_of_fmap in Hdup as (other & Hother & Hin).
      apply Hfresh in Hin. rewrite <- Hother in Hin.
      change (default EmptyString (Some cid)) with cid in Hin.
      apply Hin. apply elem_of_union. left. by apply elem_of_singleton.
    + done.
    + intros f [->|Hin]%elem_of_cons.
      * by rewrite Hcid.
      * apply Hfresh in Hin. intros Hold. apply Hin.
        apply elem_of_union. by right.
  - intros ((_ & Hrest) & (Hnew & Hnodup) & Hfresh). split_and!; [done|done|].
    intros f Hin [Heq%elem_of_singleton|Hold]%elem_of_union.
    + apply Hnew. apply list_elem_of_fmap. exists f. split; [|done].
      rewrite Forall_forall in Hrest.
      destruct (Hdefault f (Hrest f Hin)) as (c & Hc & Hd). congruence.
    + apply (Hfresh f); [by apply list_elem_of_further|done].
Qed.

(** X24. The validation accepts a submission exactly when the custom id of
    the submission has 1 to 100 characters, there is at least one submitted
    field, every field has a custom id of 1 to 100 characters that no other
    field has, and the value of every field fits its type: a text of at
    most 4000 characters, for a select an array of at most 25 strings, for
    a file upload an array of 1 to 10 non-empty strings that are keys of
    its attachments. A field of any other type is not accepted. *)
Theorem validation_accepts_iff (interactionCustomId : string)
    (components : list TopLevelModalData) :
  (∃ check,
     validateRawModalSubmitInteractionPayload interactionCustomId components
     = Ok check ∧ ok check = true)
  ↔ acceptedSubmission interactionCustomId components.
Proof.
  unfold validateRawModalSubmitInteractionPayload, acceptedSubmission.
  pose proof (validateCustomId_ok (Some interactionCustomId)) as Hid.
  destruct (ok (validateCustomId (Some interactionCustomId))) eqn:Hcheck;
    cbn [negb].
  2:{ split; [by intros (? & [= <-] & ?)|].
      intros (Hlen & _).
      assert (Hno : false = true); [|done].
      apply Hid. by exists interactionCustomId. }
  assert (Hlen : (1 ≤ String.length interactionCustomId ≤ 100)%nat).
  { destruct (proj1 Hid eq_refl) as (s & [= <-] & ?). done. }
  destruct (length (collectModalFields components) =? 0)%nat eqn:Hnone.
  { apply Nat.eqb_eq in Hnone. split; [by intros (? & [= <-] & ?)|].
    intros (_ & Hne & _). by destruct (collectModalFields components). }
  apply Nat.eqb_neq in Hnone. rewrite validateFields_ok. split.
  - intros (Hall & Hnodup & _). split; [done|]. split; [|done].
    intros Hnil. by rewrite Hnil in Hnone.
  - intros (_ & _ & Hall & Hnodup). split; [done|]. split; [done|].
    intros field _. apply not_elem_of_empty.
Qed.

End AcceptedSubmissions.

(** ** From the opening of a modal to its submission *)

Section OpenThenSubmit.
Import Session Router RouterRuns.
Implicit Types (i : Interaction) (w : World) (r : RawModalSessionRow)
  (t : Table).

(** The custom id that openModal posts for a request that carries none
    decodes to the feature, flow and session id of the request. *)
Lemma posted_custom_id_decodes (post : ApiService.ModalCallback → Result unit)
    (request : ApiService.IRawModalOpenRequest)
    (payload : ApiService.ModalCallback) :
  ApiService.customId request = None →
  payload ∈ (ApiService.openModal post request).2 →
  CustomId.parseRawModalCustomId (ApiService.custom_id payload)
  = Some {| CustomId.parsed_feature := ApiService.feature request;
            CustomId.parsed_flow := ApiService.flow request;
            CustomId.parsed_sessionId := ApiService.sessionId request;
            CustomId.version := Scope.RAW_MODAL_SCHEMA_VERSION |}.
Proof.
  intros Hnone. unfold ApiService.openModal. rewrite Hnone.
  destruct (CustomId.buildRawModalCustomId _) as [id|e] eqn:Hbuild;
    [|by intros ?%elem_of_nil].
  destruct (negb (Js.truthy (Some id)) || (100 <? String.length id)%nat);
    [by intros ?%elem_of_nil|].
  cbn [snd]. intros ->%list_elem_of_singleton. cbn [ApiService.custom_id].
  pose proof (build_Ok_inv _ _ Hbuild) as (Hf & Hfl & Hsid & Hid & Hlen).
  destruct (roundtrip_supported _ Hf Hfl Hsid) as (id' & Hbuild' & Hparse).
  { by rewrite <- Hid. }
  assert (id' = id) as -> by congruence. exact Hparse.
Qed.

(** X25. From opening to submission. A session is created for the session
    id of a request, owned by a user and expiring when
    buildRawModalSessionExpiry says for the clock [now]; the modal is
    opened with the custom id that openModal builds for the request. A
    valid submission that carries the posted custom id, made by that user
    less than a minute after [now] in a guild where the pilot is enabled for
    the feature, is handled and accepted: the user gets the acknowledgement
    and the acceptance, the stored status of the session is submitted, and
    no other session changes. *)
Theorem opened_modal_submission_is_accepted
    (post : ApiService.ModalCallback → Result unit)
    (request : ApiService.IRawModalOpenRequest)
    (payload : ApiService.ModalCallback)
    (input : IRawModalSessionCreateInput) (saved : IRawModalSessionRecord)
    env (now ttlMinutes nowCheck nowClaim : Z) i
    (v : SubmitValidation.IRawModalSubmitValidationResult) t :
  ApiService.customId request = None →
  payload ∈ (ApiService.openModal post request).2 →
  create_sessionId input = ApiService.sessionId request →
  create_ownerUserId input = userId i →
  buildRawModalSessionExpiry now ttlMinutes = Some (create_expiresAt input) →
  (createRawModalSessionRecord input t).1 = Ok saved →
  kind i = ModalSubmit →
  customId i = ApiService.custom_id payload →
  SubmitValidation.validateRawModalSubmitInteractionPayload
    (customId i) (components i) = Ok v →
  SubmitValidation.ok v = true →
  FeatureFlag.isRawModalPilotEnabled env (ApiService.feature request) (guildId i)
  = true →
  nowCheck < now + 60000 →
  nowClaim < now + 60000 →
  let result :=
    tryHandleManagedRawModalInteraction env nowCheck nowClaim i
      {| sessions := (createRawModalSessionRecord input t).2; replies := [] |} in
  result.1 = Ok true
  ∧ replies result.2 = [DeferredReply; EphemeralReply MSG_ACCEPTED]
  ∧ (∃ r', sessions result.2 !! ApiService.sessionId request = Some r'
           ∧ STATUS r' = submitted
           ∧ OWNER_USER_ID r' = userId i
           ∧ EXPIRES_AT r' = create_expiresAt input)
  ∧ ∀ k, k ≠ ApiService.sessionId request → sessions result.2 !! k = t !! k.
Proof.
  intros Hnone Hposted Hsid Howner Hexpiry Hsaved Hkind Hcid Hvalid Hok Hgate
    Hcheck Hclaim.
  cbv zeta.
  pose proof (posted_custom_id_decodes post request payload Hnone Hposted)
    as Hparse.
  rewrite <- Hcid in Hparse.
  assert (Hlate : now + 60000 ≤ create_expiresAt input).
  { unfold buildRawModalSessionExpiry, newDate in Hexpiry.
    destruct (Z.abs _ <=? MAX_TIME_VALUE); [|done].
    injection Hexpiry as <-. lia. }
  set (row := {| OWNER_USER_ID := create_ownerUserId input;
                 FEATURE_ID := create_feature input;
                 FLOW_ID := create_flow input;
                 STATE_JSON := create_stateJson input;
                 STATUS := open;
                 EXPIRES_AT := create_expiresAt input;
                 GUILD_ID := create_guildId input;
                 CHANNEL_ID := create_channelId input |}).
  assert (Hcreated : t !! ApiService.sessionId request = None
                     ∧ (createRawModalSessionRecord input t).2
                       = <[ApiService.sessionId request := row]> t).
  { revert Hsaved. unfold createRawModalSessionRecord, sqlInsert.
    rewrite Hsid.
    destruct (t !! ApiService.sessionId request) as [existing|]; [done|].
    unfold getRawModalSessionRecord. rewrite lookup_insert_eq. done. }
  destruct Hcreated as [Hfresh ->].
  rewrite (routed_submission env nowCheck nowClaim i _ _ Hkind Hparse Hgate).
  rewrite Hvalid. cbn [fst snd CustomId.parsed_sessionId].
  rewrite (submit_outcome nowCheck nowClaim i _ _ Hkind), Hvalid, Hok.
  cbn [negb snd sessions]. rewrite lookup_insert_eq.
  cbn [row OWNER_USER_ID EXPIRES_AT STATUS]. subst row.
  cbn [OWNER_USER_ID EXPIRES_AT STATUS].
  rewrite Howner, String.eqb_refl. cbn [negb].
  assert (Hc : (create_expiresAt input <=? nowCheck) = false)
    by (apply Z.leb_gt; lia).
  assert (Hcl : (nowClaim <? create_expiresAt input) = true)
    by (apply Z.ltb_lt; lia).
  rewrite Hc, Hcl, bool_decide_eq_true_2 by done.
  cbn [negb answered sessions replies app].
  split_and!; try done.
  - eexists. rewrite lookup_insert_eq. split; [done|]. by cbn.
  - intros k Hk. by rewrite !lookup_insert_ne.
Qed.

Lemma opened_modal_submission_is_accepted_witness :
  let request :=
    {| ApiService.interactionId := "1"; ApiService.interactionToken := "token";
       ApiService.feature := "todo"; ApiService.flow := "create";
       ApiService.sessionId := "s-1"; ApiService.customId := None;
       ApiService.title := "New item"; ApiService.components := [] |} in
  let input :=
    {| create_sessionId := "s-1"; create_feature := "todo";
       create_flow := "create"; create_ownerUserId := "user-1";
       create_guildId := Some "guild-1"; create_channelId := None;
       create_stateJson := "{}"; create_expiresAt := Samples.now + 900000 |} in
  (ApiService.openModal (λ _, Ok tt) request).1 = Ok tt
  ∧ let result :=
      tryHandleManagedRawModalInteraction Samples.env
        (Samples.now + 30000) (Samples.now + 30001)
        (Samples.submission "modal:todo:v1:create:s-1" [Samples.textField])
        {| sessions :=
             (createRawModalSessionRecord input
                (Samples.table submitted (Samples.now - 1))).2;
           replies := [] |} in
    result.1 = Ok true
    ∧ replies result.2 = [DeferredReply; EphemeralReply MSG_ACCEPTED]
    ∧ (∃ r', sessions result.2 !! "s-1" = Some r'
             ∧ STATUS r' = submitted
             ∧ OWNER_USER_ID r' = "user-1"
             ∧ EXPIRES_AT r' = Samples.now + 900000)
    ∧ ∀ k, k ≠ "s-1" →
           sessions result.2 !! k = Samples.table submitted (Samples.now - 1) !! k.
Proof.
  cbv zeta. split; [by vm_compute|].
  apply (opened_modal_submission_is_accepted (λ _, Ok tt)
    {| ApiService.interactionId := "1"; ApiService.interactionToken := "token";
       ApiService.feature := "todo"; ApiService.flow := "create";
       ApiService.sessionId := "s-1"; ApiService.customId := None;
       ApiService.title := "New item"; ApiService.components := [] |}
    {| ApiService.callback_interactionId := "1";
       ApiService.callback_interactionToken := "token";
       ApiService.custom_id := "modal:todo:v1:create:s-1";
       ApiService.callback_title := "New item";
       ApiService.callback_components := [] |}
    {| create_sessionId := "s-1"; create_feature := "todo";
       create_flow := "create"; create_ownerUserId := "user-1";
       create_guildId := Some "guild-1"; create_channelId := None;
       create_stateJson := "{}"; create_expiresAt := Samples.now + 900000 |}
    {| Session.sessionId := "s-1"; Session.feature := "todo";
       Session.flow := "create"; Session.ownerUserId := "user-1";
       Session.guildId := Some "guild-1"; Session.channelId := None;
       Session.stateJson := "{}"; Session.status := open;
       Session.expiresAt := Samples.now + 900000 |}
    Samples.env Samples.now 15 (Samples.now + 30000) (Samples.now + 30001)
    (Samples.submission "modal:todo:v1:create:s-1" [Samples.textField])
    SubmitValidation.valid (Samples.table submitted (Samples.now - 1)));
    try (by vm_compute).
  vm_compute. apply list_elem_of_here.
Defined.

End OpenThenSubmit.

(** ** The feature flag *)

Section FeatureFlagFacts.
Import Scope FeatureFlag.

Lemma parseGuildIdList_elem (rawValue guild : string) :
  guild ∈ parseGuildIdList rawValue
  ↔ guild ≠ EmptyString
    ∧ ∃ item, item ∈ Js.split "," rawValue ∧ Js.trim item = guild.
Proof.
  unfold parseGuildIdList.
  rewrite elem_of_list_to_set, list_elem_of_filter, list_elem_of_fmap.
  split.
  - intros [Hlen (item & -> & Hin)]. split; [|by exists item].
    intros Hempty. rewrite Hempty in Hlen. cbn in Hlen. lia.
  - intros [Hne (item & Hin & <-)]. split; [|by exists item].
    destruct (Js.trim item); [done|cbn; lia].
Qed.

(** X26. The pilot is enabled for a feature in a guild exactly when the
    variable USE_RAW_IMPROVED_MODALS, trimmed and in lower case, reads
    true, the feature is todo or suggestion, and the comma-separated list
    in RAW_MODAL_PILOT_GUILD_IDS has, after trimming, the entry * or an
    entry that is the id of the guild; an event without a guild is enabled
    only by the entry *. A variable that is not set reads as the empty
    string, so the pilot is off unless both variables are set. *)
Theorem pilot_enabled_iff (env : Env) (feature : string) (guildId : option string) :
  isRawModalPilotEnabled env feature guildId = true
  ↔ Js.toLowerCase (Js.trim (default EmptyString (env !! RAW_IMPROVED_MODALS_ENV)))
    = "true"
    ∧ (feature = "todo" ∨ feature = "suggestion")
    ∧ ∃ item,
        item ∈ Js.split "," (default EmptyString (env !! RAW_MODAL_PILOT_GUILD_IDS_ENV))
        ∧ (Js.trim item = "*"
           ∨ (Js.trim item ≠ EmptyString ∧ guildId = Some (Js.trim item))).
Proof.
  unfold isRawModalPilotEnabled, isRawImprovedModalsEnabled, readBooleanEnv,
    isRawModalPilotFeature, RAW_MODAL_PILOT_FEATURES, Js.includes.
  set (flag := Js.toLowerCase _).
  destruct (String.eqb_spec flag "true") as [Hflag|Hflag]; cbn [negb].
  2:{ split; [done|]. by intros [? _]. }
  destruct (bool_decide (feature ∈ ["todo"; "suggestion"])) eqn:Hfeature;
    cbn [negb].
  2:{ apply bool_decide_eq_false in Hfeature. split; [done|].
      intros (_ & Hf & _). exfalso. apply Hfeature.
      destruct Hf as [-> | ->];
        repeat first [apply list_elem_of_here | apply list_elem_of_further]. }
  apply bool_decide_eq_true in Hfeature.
  assert (Hf : feature = "todo" ∨ feature = "suggestion").
  { apply elem_of_cons in Hfeature as [?|Hfeature]; [by left|].
    apply elem_of_cons in Hfeature as [?|Hfeature]; [by right|].
    by apply elem_of_nil in Hfeature. }
  unfold isRawModalPilotEnabledForGuild, RAW_MODAL_ALL_GUILDS_TOKEN.
  set (raw := default EmptyString (env !! RAW_MODAL_PILOT_GUILD_IDS_ENV)).
  destruct (bool_decide (size (parseGuildIdList raw) = 0%nat)) eqn:Hsize.
  { apply bool_decide_eq_true, size_empty_iff in Hsize.
    split; [done|]. intros (_ & _ & item & Hin & Hcase). exfalso.
    assert (Hmem : Js.trim item ∈ parseGuildIdList raw).
    { apply parseGuildIdList_elem. split; [|by exists item].
      destruct Hcase as [->|[? _]]; done. }
    rewrite Hsize in Hmem. by apply elem_of_empty in Hmem. }
  destruct (bool_decide ("*" ∈ parseGuildIdList raw)) eqn:Hall.
  { apply bool_decide_eq_true, parseGuildIdList_elem in Hall
      as [_ (item & Hin & Htrim)].
    split; [|done]. intros _. split_and!; [done|done|].
    exists item. split; [done|by left]. }
  apply bool_decide_eq_false in Hall.
  assert (Hstar : ∀ item, item ∈ Js.split "," raw → Js.trim item ≠ "*").
  { intros item Hin Htrim. apply Hall, parseGuildIdList_elem.
    split; [done|by exists item]. }
  destruct guildId as [guild|]; cbn [Js.truthy].
  2:{ cbn [negb]. split; [done|].
      intros (_ & _ & item & Hin & [Htrim|[_ [=]]]). by destruct (Hstar item Hin). }
  destruct (String.eqb_spec guild EmptyString) as [->|Hguild]; cbn [negb].
  { split; [done|].
    intros (_ & _ & item & Hin & [Htrim|[Hne [= Heq]]]);
      [by destruct (Hstar item Hin)|done]. }
  rewrite bool_decide_eq_true, parseGuildIdList_elem. split.
  - intros [_ (item & Hin & Htrim)]. split_and!; [done|done|].
    exists item. split; [done|]. right. by rewrite Htrim.
  - intros (_ & _ & item & Hin & [Htrim|[Hne [= ->]]]);
      [by destruct (Hstar item Hin)|].
    split; [done|by exists item].
Qed.

End FeatureFlagFacts.

(** ** Submissions of one session handled at the same time *)

Section ConcurrentSubmissions.
Import Session Router RouterRuns ConcurrentSubmits.
Implicit Types (i : Interaction) (w : World) (r : RawModalSessionRow)
  (t : Table) (hs : list Handler) (h : Handler).

(** The read leaves the table alone, does not send the acceptance, and
    what it returns is the session stored under the id. *)
Lemma readForSubmit_spec i sid t :
  let outcome := readForSubmit i sid {| sessions := t; replies := [] |} in
  sessions outcome.2 = t
  ∧ (EphemeralReply MSG_ACCEPTED ∉ replies outcome.2)
  ∧ ∀ found, outcome.1 = Ok (Some (Some found)) →
             Session.sessionId found = sid.
Proof.
  cbv zeta. unfold readForSubmit.
  destruct (negb (isModalSubmit i)).
  { cbn. split_and!; [done|by intros ?%elem_of_nil|done]. }
  unfold mbind, M_bind, mret, M_ret, safeDeferReply, emit, liftResult,
    sendSessionRecoveryMessage, safeReply, onTable.
  cbn [sessions replies app].
  destruct (SubmitValidation.validateRawModalSubmitInteractionPayload _ _)
    as [v|e].
  2:{ cbn [fst snd sessions replies]. split_and!; [done| |done].
      intros [[=]|?%elem_of_nil]%elem_of_cons. done. }
  destruct (negb (SubmitValidation.ok v)).
  - destruct (negb (isRepliable i)); cbn [fst snd sessions replies app].
    + split_and!; [done| |done].
      intros [[=]|?%elem_of_nil]%elem_of_cons. done.
    + split_and!; [done| |done].
      intros [[=]|[Heq|?%elem_of_nil]%elem_of_cons]%elem_of_cons; [|done].
      vm_compute in Heq. discriminate Heq.
  - cbn [fst snd sessions replies]. split_and!; [done| |].
    + intros [[=]|?%elem_of_nil]%elem_of_cons. done.
    + intros found [= Hfound]. unfold getRawModalSessionRecord in Hfound.
      destruct (t !! sid) as [r|]; [|done]. by injection Hfound as <-.
Qed.

(** The three ways in which a handler goes on from its read: it leaves the
    table alone, it marks the session expired, or it claims an open session
    and sends the acceptance. Only the last sends the acceptance. *)
Lemma finishSubmit_spec nowCheck nowClaim i found sent sid t :
  (∀ session, found = Some session → Session.sessionId session = sid) →
  EphemeralReply MSG_ACCEPTED ∉ sent →
  let outcome :=
    finishSubmit nowCheck nowClaim i found {| sessions := t; replies := sent |} in
  (sessions outcome.2 = t ∧ (EphemeralReply MSG_ACCEPTED ∉ replies outcome.2))
  ∨ (∃ r, t !! sid = Some r
          ∧ sessions outcome.2 = <[sid := setStatus expired r]> t
          ∧ (EphemeralReply MSG_ACCEPTED ∉ replies outcome.2))
  ∨ (∃ r, t !! sid = Some r ∧ STATUS r = open
          ∧ sessions outcome.2 = <[sid := setStatus submitted r]> t
          ∧ EphemeralReply MSG_ACCEPTED ∈ replies outcome.2).
Proof.
  intros Hsid Hsent. cbv zeta.
  assert (Hother : ∀ m, m ≠ MSG_ACCEPTED →
            (EphemeralReply MSG_ACCEPTED
             ∉ replies (sendSessionRecoveryMessage i m
                          {| sessions := t; replies := sent |}).2)
            ∧ sessions (sendSessionRecoveryMessage i m
                          {| sessions := t; replies := sent |}).2 = t).
  { intros m Hm. unfold sendSessionRecoveryMessage, safeReply, emit, mret, M_ret.
    destruct (negb (isRepliable i)); cbn [fst snd sessions replies]; [done|].
    split; [|done]. intros [?|Hin]%elem_of_app; [done|].
    apply list_elem_of_singleton in Hin. congruence. }
  unfold finishSubmit. destruct found as [session|].
  2:{ left. destruct (Hother MSG_NOT_FOUND); [by vm_compute|done]. }
  specialize (Hsid session eq_refl).
  destruct (negb (String.eqb (ownerUserId session) (userId i))).
  { left. destruct (Hother MSG_OTHER_USER); [by vm_compute|done]. }
  destruct (isRawModalSessionExpired session nowCheck).
  { unfold mbind, M_bind, mret, M_ret, onTable, sendSessionRecoveryMessage,
      safeReply, emit, expireRawModalSession.
    destruct (bool_decide (status session = open)).
    - rewrite Hsid, updateRawModalSessionStatus_eq. cbn [sessions replies].
      destruct (t !! sid) as [r|] eqn:Hr.
      + right. left. exists r. split; [done|].
        destruct (negb (isRepliable i)); cbn [fst snd sessions replies];
          (split; [done|]); [done|].
        intros [?|Hin]%elem_of_app; [done|].
        apply list_elem_of_singleton in Hin. vm_compute in Hin. discriminate Hin.
      + left.
        destruct (negb (isRepliable i)); cbn [fst snd sessions replies];
          (split; [done|]); [done|].
        intros [?|Hin]%elem_of_app; [done|].
        apply list_elem_of_singleton in Hin. vm_compute in Hin. discriminate Hin.
    - left.
      destruct (negb (isRepliable i)); cbn [fst snd sessions replies];
        (split; [done|]); [done|].
      intros [?|Hin]%elem_of_app; [done|].
      apply list_elem_of_singleton in Hin. vm_compute in Hin. discriminate Hin. }
  destruct (negb (bool_decide (status session = open))).
  { left. destruct (Hother MSG_NOT_ACTIVE); [by vm_compute|done]. }
  unfold mbind, M_bind, onTable. cbn [sessions replies].
  rewrite Hsid, claimRawModalSessionForSubmit_eq.
  destruct (t !! sid) as [r|] eqn:Hr.
  2:{ left. cbn [negb].
      destruct (Hother MSG_CLAIM_FAILED); [by vm_compute|done]. }
  destruct (Props.claimWhere (userId i) nowClaim r) eqn:Hclaim; cbn [negb].
  - right. right. exists r. apply claimWhere_true in Hclaim as [Hopen _].
    unfold safeReply, emit. cbn [fst snd sessions replies].
    split_and!; [done|done|done|].
    apply elem_of_app. right. apply list_elem_of_here.
  - left. destruct (Hother MSG_CLAIM_FAILED); [by vm_compute|done].
Qed.

Lemma acceptedCount_insert hs k h h' :
  hs !! k = Some h →
  (acceptedCount (<[k := h']> hs) + (if isAccepted h then 1 else 0)
   = acceptedCount hs + (if isAccepted h' then 1 else 0))%nat.
Proof.
  intros Hk.
  pose proof (filter_length_insert (λ h, Is_true (isAccepted h)) hs k h h' Hk)
    as Hcount.
  unfold acceptedCount. cbv beta in Hcount.
  destruct (isAccepted h), (isAccepted h'); cbn in Hcount;
    rewrite ?(decide_True (P := True)), ?(decide_False (P := False)) in Hcount
      by tauto; lia.
Qed.

Lemma submissionsInv_start sid t hs :
  Forall (λ h, Is_true (isWaiting h)) hs → submissionsInv sid (t, hs).
Proof.
  intros Hall. split; cbn [fst snd].
  - eapply Forall_impl; [exact Hall|]. intros h Hw i nc ncl found sent ->. done.
  - left. unfold acceptedCount. induction Hall as [|h hs Hh _ IH]; [done|].
    rewrite filter_cons_False; [done|]. destruct h; cbn in *; tauto.
Qed.

Lemma submissionsInv_step sid s s' :
  submissionsInv sid s → step sid s s' → submissionsInv sid s'.
Proof.
  intros [Hread Hcount] Hstep.
  destruct Hstep as [t hs k i nc ncl Hk|t hs k i nc ncl found sent Hk];
    cbn [fst snd] in *.
  - (* the read *)
    destruct (readForSubmit_spec i sid t) as (Htable & Hsent & Hfound).
    set (outcome := readForSubmit i sid {| sessions := t; replies := [] |}) in *.
    pose proof (acceptedCount_insert hs k _ (afterRead i nc ncl outcome) Hk)
      as Hc. cbn [isAccepted] in Hc.
    assert (Hnot : isAccepted (afterRead i nc ncl outcome) = false).
    { unfold afterRead. destruct (outcome.1) as [[found|]|e]; cbn [isAccepted];
        [done|by apply bool_decide_eq_false|by apply bool_decide_eq_false]. }
    rewrite Hnot in Hc. split; cbn [fst snd].
    + apply Forall_insert; [done|].
      intros i' nc' ncl' found sent Heq. unfold afterRead in Heq.
      destruct (outcome.1) as [[found'|]|e] eqn:Hres; [|done|done].
      injection Heq as -> -> -> -> <-. split; [|done].
      intros session ->. by apply Hfound.
    + rewrite Htable. replace (acceptedCount (<[k := _]> hs))
        with (acceptedCount hs) by lia. done.
  - (* from the read to the return *)
    rewrite Forall_lookup in Hread.
    destruct (Hread k _ Hk i nc ncl found sent eq_refl) as [Hsid Hsent].
    pose proof (finishSubmit_spec nc ncl i found sent sid t Hsid Hsent) as Hfin.
    cbv zeta in Hfin.
    set (outcome := finishSubmit nc ncl i found
                      {| sessions := t; replies := sent |}) in *.
    pose proof (acceptedCount_insert hs k _
                  (Returned outcome.1 (replies outcome.2)) Hk) as Hc.
    cbn [isAccepted] in Hc.
    assert (Hread' : Forall (λ h, ∀ i nowCheck nowClaim found sent,
              h = HasRead i nowCheck nowClaim found sent →
              (∀ session, found = Some session → Session.sessionId session = sid)
              ∧ EphemeralReply MSG_ACCEPTED ∉ sent)
              (<[k := Returned outcome.1 (replies outcome.2)]> hs)).
    { apply Forall_insert; [by apply Forall_lookup|]. by intros. }
    split; cbn [fst snd]; [exact Hread'|].
    destruct Hfin as [[Htable Hno]|[(r & Hr & Htable & Hno)|(r & Hr & Hopen & Htable & Hyes)]].
    + rewrite bool_decide_eq_false_2 in Hc by done.
      rewrite Htable. replace (acceptedCount (<[k := _]> hs))
        with (acceptedCount hs) by lia. done.
    + rewrite bool_decide_eq_false_2 in Hc by done.
      replace (acceptedCount (<[k := _]> hs)) with (acceptedCount hs) by lia.
      destruct Hcount as [Hzero|[Hone _]]; [by left|]. right. split; [done|].
      exists (setStatus expired r). rewrite Htable, lookup_insert_eq. done.
    + rewrite bool_decide_eq_true_2 in Hc by done.
      destruct Hcount as [Hzero|[_ (r' & Hr' & Hclosed)]]; [|congruence].
      right. split; [lia|].
      exists (setStatus submitted r). rewrite Htable, lookup_insert_eq. done.
Qed.

Lemma submissionsInv_steps sid s s' :
  submissionsInv sid s → steps sid s s' → submissionsInv sid s'.
Proof. intros Hinv Hsteps. induction Hsteps; eauto using submissionsInv_step. Qed.

Lemma stepsLeft_insert hs k h h' :
  hs !! k = Some h →
  (sum_list (stepsLeft <$> <[k := h']> hs) + stepsLeft h
   = sum_list (stepsLeft <$> hs) + stepsLeft h')%nat.
Proof.
  revert k. induction hs as [|x hs IH]; intros k Hk; [done|].
  destruct k as [|k].
  - cbn in Hk. injection Hk as ->. cbn. lia.
  - change (<[S k := h']> (x :: hs)) with (x :: <[k := h']> hs).
    rewrite !fmap_cons.
    generalize (IH k Hk).
    generalize (stepsLeft <$> <[k := h']> hs) (stepsLeft <$> hs).
    intros l1 l2 Heq.
    change (stepsLeft x + sum_list l1 + stepsLeft h
            = stepsLeft x + sum_list l2 + stepsLeft h')%nat.
    lia.
Qed.

(** The handlers in flight all return. *)
Lemma handlers_run_to_completion sid (s : State) :
  ∃ final, steps sid s final ∧ Forall (λ h, Is_true (isReturned h)) final.2.
Proof.
  remember (sum_list (stepsLeft <$> s.2)) as m eqn:Hm.
  revert s Hm. induction m as [m IH] using lt_wf_ind. intros [t hs] Hm.
  destruct (decide (Forall (λ h, Is_true (isReturned h)) hs)) as [Hfin|Hnot].
  { exists (t, hs). split; [apply rtc_refl|done]. }
  apply not_Forall_Exists in Hnot; [|apply _].
  apply Exists_exists in Hnot as (h & Hin & Hh).
  apply list_elem_of_lookup in Hin as [k Hk]. cbn [snd] in Hm.
  destruct h as [i nc ncl|i nc ncl found sent|outcome sent]; [| |by destruct Hh].
  - pose proof (step_read sid t hs k i nc ncl Hk) as Hstep.
    match type of Hstep with step _ _ ?s' =>
      destruct (IH (sum_list (stepsLeft <$> s'.2))) with (s := s')
        as (final & Hrun & Hfin) end.
    + cbn [snd]. pose proof (stepsLeft_insert hs k _
        (afterRead i nc ncl
           (readForSubmit i sid {| sessions := t; replies := [] |})) Hk) as Hs.
      cbn [stepsLeft] in Hs.
      assert (stepsLeft (afterRead i nc ncl
                (readForSubmit i sid {| sessions := t; replies := [] |})) ≤ 1)%nat.
      { unfold afterRead. destruct (_.1) as [[?|]|?]; cbn; lia. }
      lia.
    + done.
    + exists final. split; [|done]. eapply rtc_l; [exact Hstep|exact Hrun].
  - pose proof (step_finish sid t hs k i nc ncl found sent Hk) as Hstep.
    match type of Hstep with step _ _ ?s' =>
      destruct (IH (sum_list (stepsLeft <$> s'.2))) with (s := s')
        as (final & Hrun & Hfin) end.
    + cbn [snd]. pose proof (stepsLeft_insert hs k _
        (Returned
           (finishSubmit nc ncl i found {| sessions := t; replies := sent |}).1
           (replies (finishSubmit nc ncl i found
                       {| sessions := t; replies := sent |}).2)) Hk) as Hs.
      cbn [stepsLeft] in Hs. lia.
    + done.
    + exists final. split; [|done]. eapply rtc_l; [exact Hstep|exact Hrun].
Qed.

(** X27. However the statements of handlers that run at the same time for
    submissions of one session interleave, whoever submits, whatever the
    payloads and the clocks and whatever the table at the start: the
    handlers all return, at most one of them sends the acceptance, and once
    one has, the session is not open. *)
Theorem concurrent_submissions_accept_once sid t hs :
  Forall (λ h, Is_true (isWaiting h)) hs →
  (∃ final, steps sid (t, hs) final
            ∧ Forall (λ h, Is_true (isReturned h)) final.2)
  ∧ ∀ s, steps sid (t, hs) s →
      (acceptedCount s.2 ≤ 1)%nat
      ∧ (acceptedCount s.2 = 1%nat →
         ∃ r, s.1 !! sid = Some r ∧ STATUS r ≠ open).
Proof.
  intros Hwaiting. split; [apply handlers_run_to_completion|].
  intros s Hrun.
  destruct (submissionsInv_steps sid _ _ (submissionsInv_start sid t hs Hwaiting) Hrun)
    as [_ [Hzero|[Hone Hclosed]]].
  - split; [lia|]. intros Hone. lia.
  - split; [lia|done].
Qed.

Lemma concurrent_submissions_accept_once_witness :
  let i := Samples.submission "modal:todo:v1:create:abc123" [Samples.textField] in
  let t := Samples.table open (Samples.now + 60000) in
  let hs := [Waiting i Samples.now Samples.now;
             Waiting i (Samples.now + 60000) (Samples.now + 60000);
             Waiting i (Samples.now + 10) (Samples.now + 20)] in
  (∃ final, steps "abc123" (t, hs) final
            ∧ Forall (λ h, Is_true (isReturned h)) final.2)
  ∧ ∀ s, steps "abc123" (t, hs) s →
      (acceptedCount s.2 ≤ 1)%nat
      ∧ (acceptedCount s.2 = 1%nat →
         ∃ r, s.1 !! "abc123" = Some r ∧ STATUS r ≠ open).
Proof.
  cbv zeta. apply concurrent_submissions_accept_once.
  repeat constructor.
Defined.

End ConcurrentSubmissions.

(** ** The round history form *)

Section RoundHistoryFacts.
Import CustomId RoundHistory.

Lemma base36Digit_value (d : N) :
  (d < 36)%N → base36Value (base36Digit d) = Some d.
Proof.
  intros Hd. unfold base36Digit, base36Value.
  destruct (d <? 10)%N eqn:Hsmall.
  - apply N.ltb_lt in Hsmall. rewrite N_ascii_embedding by lia.
    assert (((48 <=? 48 + d) && (48 + d <=? 57))%N = true) as ->.
    { apply andb_true_iff. split; apply N.leb_le; lia. }
    f_equal. lia.
  - apply N.ltb_ge in Hsmall. rewrite N_ascii_embedding by lia.
    assert (((48 <=? 87 + d) && (87 + d <=? 57))%N = false) as ->.
    { apply andb_false_iff. right. apply N.leb_gt. lia. }
    assert (((97 <=? 87 + d) && (87 + d <=? 122))%N = true) as ->.
    { apply andb_true_iff. split; apply N.leb_le; lia. }
    f_equal. lia.
Qed.

Lemma log2_div36 (n : N) :
  (n / 36 ≠ 0)%N → (N.log2 (n / 36) < N.log2 n)%N.
Proof.
  intros Hq.
  assert (Hn : (36 <= n)%N).
  { destruct (N.le_gt_cases 36 n) as [?|Hlt]; [done|].
    by rewrite N.div_small in Hq. }
  assert (Hhalf : (n / 36 <= n / 2)%N) by (apply N.div_le_compat_l; lia).
  apply N.log2_le_mono in Hhalf.
  assert (Hshift : (n / 2 = N.shiftr n 1)%N) by by rewrite N.shiftr_div_pow2.
  rewrite Hshift, N.log2_shiftr in Hhalf.
  assert (1 <= N.log2 n)%N.
  { change 1%N with (N.log2 2). apply N.log2_le_mono. lia. }
  lia.
Qed.

(** The digits written for a number read back as the number. *)
Lemma toBase36_go_spec (fuel : nat) (n : N) (acc : string) :
  (N.to_nat (N.log2 n) < fuel)%nat →
  ∃ digits k,
    toBase36_go fuel n acc = digits +:+ acc
    ∧ digits ≠ EmptyString
    ∧ allChars isBase36Char digits = true
    ∧ ∀ a rest, readBase36 (digits +:+ rest) a
                = readBase36 rest (a * 36 ^ k + n)%N.
Proof.
  revert n acc. induction fuel as [|fuel IH]; intros n acc Hfuel; [lia|].
  cbn [toBase36_go].
  assert (Hd : (n mod 36 < 36)%N) by (apply N.mod_lt; lia).
  pose proof (base36Digit_value _ Hd) as Hvalue.
  assert (Hchar : isBase36Char (base36Digit (n mod 36)) = true).
  { unfold isBase36Char. rewrite Hvalue. by apply bool_decide_eq_true. }
  destruct (n / 36 =? 0)%N eqn:Hq.
  - apply N.eqb_eq in Hq.
    exists (String (base36Digit (n mod 36)) EmptyString), 1%N.
    split_and!; [done|done|by cbn; rewrite Hchar|].
    intros a rest.
    change (String ?c EmptyString +:+ rest) with (String c rest).
    cbn [readBase36]. rewrite Hvalue. f_equal.
    pose proof (N.div_mod n 36 ltac:(lia)) as Hdm. rewrite Hq in Hdm. lia.
  - apply N.eqb_neq in Hq. pose proof (log2_div36 n Hq) as Hless.
    destruct (IH (n / 36)%N (String (base36Digit (n mod 36)) acc))
      as (digits & k & Hgo & Hne & Hall & Hread); [lia|].
    exists (digits +:+ String (base36Digit (n mod 36)) EmptyString), (k + 1)%N.
    split_and!.
    + rewrite Hgo. clear. induction digits as [|c digits IHd]; [done|].
      change (String c (digits +:+ String (base36Digit (n mod 36)) acc)
              = String c ((digits +:+ String (base36Digit (n mod 36)) EmptyString)
                          +:+ acc)).
      by rewrite IHd.
    + by destruct digits.
    + rewrite allChars_append, Hall. cbn. by rewrite Hchar.
    + intros a rest.
      assert (Happ : (digits +:+ String (base36Digit (n mod 36)) EmptyString)
                     +:+ rest
                     = digits +:+ String (base36Digit (n mod 36)) rest).
      { clear. induction digits as [|c digits IHd]; [done|].
        change (String c ((digits +:+ String (base36Digit (n mod 36)) EmptyString)
                          +:+ rest)
                = String c (digits +:+ String (base36Digit (n mod 36)) rest)).
        by rewrite IHd. }
      rewrite Happ, Hread. cbn [readBase36]. rewrite Hvalue. f_equal.
      pose proof (N.div_mod n 36 ltac:(lia)) as Hdm.
      rewrite N.pow_add_r, N.pow_1_r. lia.
Qed.

Lemma toStringBase36_spec (n : Z) :
  toStringBase36 n ≠ EmptyString
  ∧ allChars isBase36Char (toStringBase36 n) = true
  ∧ readBase36 (toStringBase36 n) 0 = Some (Z.to_N n).
Proof.
  unfold toStringBase36.
  destruct (toBase36_go_spec (S (N.to_nat (N.log2 (Z.to_N n)))) (Z.to_N n)
              EmptyString) as (digits & k & -> & Hne & Hall & Hread); [lia|].
  rewrite append_empty_r. split_and!; [done|done|].
  rewrite <- (append_empty_r digits), Hread. cbn [readBase36]. f_equal; lia.
Qed.

Lemma base36Char_sessionIdChar (c : ascii) :
  isBase36Char c = true → isSessionIdChar c = true.
Proof.
  unfold isBase36Char, base36Value, isSessionIdChar, Js.code.
  intros [d Hd]%bool_decide_eq_true.
  destruct c as [[] [] [] [] [] [] [] []]; by vm_compute in Hd |- *.
Qed.

(** X28. The session id of the round history form carries the choice of
    visibility: for a user id made of digits and a clock that is not
    negative, parseShowInChatFromSessionId of buildRoundHistorySessionId
    is the choice. The time stamp is written in base 36 and reads back as
    the clock; and if the session id has at most 64 characters, the encoder
    accepts it for the form and the identifier decodes to it. *)
Theorem round_history_visibility_roundtrip (now : Z) (userId : string)
    (showInChat : bool) :
  userId ≠ EmptyString →
  allChars JsText.isDigit userId = true →
  0 ≤ now →
  let sid := buildRoundHistorySessionId now userId showInChat in
  parseShowInChatFromSessionId sid = Some showInChat
  ∧ readBase36 (toStringBase36 now) 0 = Some (Z.to_N now)
  ∧ ((String.length sid ≤ 64)%nat →
     ∃ customId,
       buildRawModalCustomId
         {| feature := "round-history"; flow := "query"; sessionId := sid |}
       = Ok customId
       ∧ parseRawModalCustomId customId
         = Some {| parsed_feature := "round-history"; parsed_flow := "query";
                   parsed_sessionId := sid; version := 1 |}).
Proof.
  intros Hne Hdigits Hnow sid.
  destruct (toStringBase36_spec now) as (Hts_ne & Hts_all & Hts_read).
  split_and!; [|done|].
  - unfold sid, buildRoundHistorySessionId, parseShowInChatFromSessionId.
    cbv zeta. apply String.eqb_neq in Hne. apply String.eqb_neq in Hts_ne.
    destruct showInChat.
    + change ("u" +:+ userId +:+ "_c" +:+ "1" +:+ "_t" +:+ toStringBase36 now)
        with (String "u" (userId +:+ String "_" (String "c" (String "1"
                (String "_" (String "t" (toStringBase36 now))))))).
      cbv beta iota. rewrite spanDigits_run by done.
      by rewrite Hne, Hts_ne, Hts_all.
    + change ("u" +:+ userId +:+ "_c" +:+ "0" +:+ "_t" +:+ toStringBase36 now)
        with (String "u" (userId +:+ String "_" (String "c" (String "0"
                (String "_" (String "t" (toStringBase36 now))))))).
      cbv beta iota. rewrite spanDigits_run by done.
      by rewrite Hne, Hts_ne, Hts_all.
  - intros Hlen.
    assert (Hvalid : isSessionIdValid sid = true).
    { unfold isSessionIdValid. apply andb_true_iff. split.
      - apply andb_true_iff. split; [|by apply Nat.leb_le].
        unfold sid, buildRoundHistorySessionId.
        by change ("u" +:+ ?x) with (String "u" x).
      - unfold sid, buildRoundHistorySessionId. cbv zeta.
        rewrite !allChars_append.
        rewrite (allChars_impl _ _ userId sessionIdChar_digit Hdigits).
        rewrite (allChars_impl _ _ _ base36Char_sessionIdChar Hts_all).
        by destruct showInChat. }
    destruct (roundtrip_supported
                {| feature := "round-history"; flow := "query"; sessionId := sid |})
      as (id & Hbuild & Hparse); try done.
    { rewrite length_join_five. unfold Scope.RAW_MODAL_CUSTOM_ID_PREFIX.
      cbn [String.length feature flow sessionId]. lia. }
    by exists id.
Qed.

Lemma round_history_visibility_roundtrip_witness :
  let sid := buildRoundHistorySessionId Samples.now "191938640413327360" true in
  parseShowInChatFromSessionId sid = Some true
  ∧ readBase36 (toStringBase36 Samples.now) 0 = Some (Z.to_N Samples.now)
  ∧ ((String.length sid ≤ 64)%nat →
     ∃ customId,
       buildRawModalCustomId
         {| feature := "round-history"; flow := "query"; sessionId := sid |}
       = Ok customId
       ∧ parseRawModalCustomId customId
         = Some {| parsed_feature := "round-history"; parsed_flow := "query";
                   parsed_sessionId := sid; version := 1 |}).
Proof.
  apply (round_history_visibility_roundtrip Samples.now "191938640413327360" true).
  - done.
  - by vm_compute.
  - by vm_compute.
Defined.

End RoundHistoryFacts.

Section RoundHistoryPages.
Import RoundHistory.
Context {A : Type}.
Implicit Types (allRounds : list A) (page : Z).

Lemma totalPages_bounds allRounds :
  let n := Z.of_nat (length allRounds) in
  1 ≤ totalPages allRounds
  ∧ (0 < n → 5 * (totalPages allRounds - 1) < n ≤ 5 * totalPages allRounds)
  ∧ (n = 0 → totalPages allRounds = 1).
Proof.
  cbv zeta. unfold totalPages, ceilDiv, ROUND_HISTORY_PAGE_SIZE.
  set (n := Z.of_nat (length allRounds)).
  assert (Hn : 0 ≤ n) by lia.
  pose proof (Z.div_mod (n + 5 - 1) 5 ltac:(lia)) as Hdm.
  pose proof (Z.mod_pos_bound (n + 5 - 1) 5 ltac:(lia)) as Hmod.
  split_and!; [lia| |].
  - intros Hpos. split; lia.
  - intros ->. done.
Qed.

(** X29. The page of the round history that is shown. Whatever page is
    asked for, the page shown lies between 0 and the last page and is the
    page asked for if that lies in this range; it shows the rounds at the
    positions 5 * page to 5 * page + 4 as far as there are rounds, at
    least one if there is any round at all; the numbers of the first and
    the last round shown that the intro gives are these positions counted
    from 1. The two buttons, which are present if there is more than one
    page, lead to pages in the range; a button that is not disabled leads
    to the page before or after the page shown, and the button to the
    previous page is disabled exactly on page 0, the button to the next
    page exactly on the last page. *)
Theorem round_history_page_window allRounds page :
  let n := Z.of_nat (length allRounds) in
  let total := totalPages allRounds in
  let safe := safePage allRounds page in
  let shown := pageRounds allRounds page in
  0 ≤ safe < total
  ∧ (0 ≤ page < total → safe = page)
  ∧ (∀ k, (k < length shown)%nat ↔ 5 * safe + Z.of_nat k < Z.min n (5 * safe + 5))
  ∧ (∀ k, (k < length shown)%nat →
          shown !! k = allRounds !! (Z.to_nat (5 * safe) + k)%nat)
  ∧ (0 < n → (1 ≤ length shown ≤ 5)%nat)
  ∧ introRange safe n (Z.of_nat (length shown))
    = (if n =? 0 then (0, 0)
       else (5 * safe + 1, 5 * safe + Z.of_nat (length shown)))
  ∧ match buildRoundHistoryPaginationRow safe total with
    | None => total = 1
    | Some row =>
        1 < total
        ∧ 0 ≤ prevPage row < total
        ∧ 0 ≤ nextPage row < total
        ∧ (prevDisabled row = true ↔ safe = 0)
        ∧ (nextDisabled row = true ↔ safe = total - 1)
        ∧ (prevDisabled row = false → prevPage row = safe - 1)
        ∧ (nextDisabled row = false → nextPage row = safe + 1)
    end.
Proof.
  cbv zeta.
  destruct (totalPages_bounds allRounds) as (Hone & Hpos & Hzero).
  cbv zeta in Hpos, Hzero.
  set (n := Z.of_nat (length allRounds)) in *.
  set (total := totalPages allRounds) in *.
  assert (Hsafe : 0 ≤ safePage allRounds page < total).
  { unfold safePage. fold total. lia. }
  assert (Hlen : Z.of_nat (length (pageRounds allRounds page))
                 = Z.max 0 (Z.min n (5 * safePage allRounds page + 5)
                            - 5 * safePage allRounds page)).
  { unfold pageRounds, slice, ROUND_HISTORY_PAGE_SIZE.
    rewrite length_take, length_drop. fold n. lia. }
  set (safe := safePage allRounds page) in *.
  split_and!.
  - lia.
  - lia.
  - intros Hpage. unfold safe, safePage. fold total. lia.
  - intros k. lia.
  - intros k Hk. unfold pageRounds, slice, ROUND_HISTORY_PAGE_SIZE. fold safe.
    rewrite lookup_take_lt.
    + rewrite lookup_drop. f_equal. lia.
    + unfold pageRounds, slice, ROUND_HISTORY_PAGE_SIZE in Hlen, Hk.
      fold safe in Hlen, Hk. rewrite length_take in Hk. lia.
  - intros Hn. specialize (Hpos Hn). lia.
  - unfold introRange, ROUND_HISTORY_PAGE_SIZE.
    destruct (n =? 0); [done|]. f_equal; lia.
  - unfold buildRoundHistoryPaginationRow.
    destruct (total <=? 1) eqn:Htotal.
    + apply Z.leb_le in Htotal. lia.
    + apply Z.leb_gt in Htotal.
      cbn [prevPage nextPage prevDisabled nextDisabled].
      rewrite !Z.leb_le. split_and!; try lia.
Qed.

End RoundHistoryPages.
